(** * MDOCX container codec: wire framing, compression envelope,
      document validator and the Encode/Decode orchestrator.

    The Go package [mdocx] is embedded shallowly: every function of
    [wire.go], [compress.go], [limits.go], [validate.go], [options.go],
    [encode.go] and [decode.go] is a Rocq function with the name of its Go
    original.  Unsigned integers are [Z] with the wrap-around written out
    where Go converts, byte slices are [list byte], Go strings are [string]
    (a Go string is a byte sequence, and so is a Rocq [string]), Go maps
    are [gmap], the [seen] sets of the validator are [gset]. *)

From Stdlib Require Import ZArith Lia.
From Stdlib Require Import Strings.Byte Strings.Ascii Strings.String.
From stdpp Require Import base option list gmap strings.

Set Default Proof Using "Type".
Local Open Scope Z_scope.

(** ** Bytes and little-endian integers ([encoding/binary]) *)

Abbreviation bytes := (list byte).

#[global] Instance byte_eq_decision : EqDecision byte := Byte.byte_eq_dec.

(** Go's [len], as an integer. *)
Definition len {A} (l : list A) : Z := Z.of_nat (length l).

Definition byte_of_Z (z : Z) : byte :=
  default x00 (Byte.of_N (Z.to_N (z mod 256))).

Definition Z_of_byte (b : byte) : Z := Z.of_N (Byte.to_N b).

(** [le_put n v]: the [n] low bytes of [v], least significant first. *)
Fixpoint le_put (n : nat) (v : Z) : bytes :=
  match n with
  | O => []
  | S n' => byte_of_Z v :: le_put n' (v / 256)
  end.

Fixpoint le_get (bs : bytes) : Z :=
  match bs with
  | [] => 0
  | b :: bs' => Z_of_byte b + 256 * le_get bs'
  end.

Definition PutUint16 (v : Z) : bytes := le_put 2 v.
Definition PutUint32 (v : Z) : bytes := le_put 4 v.
Definition PutUint64 (v : Z) : bytes := le_put 8 v.
Definition Uint16 (b : bytes) : Z := le_get (take 2 b).
Definition Uint32 (b : bytes) : Z := le_get (take 4 b).
Definition Uint64 (b : bytes) : Z := le_get (take 8 b).

(** Go slice expression [b[i:j]]. *)
Definition slice (b : bytes) (i j : nat) : bytes := take (j - i) (drop i b).

(** Conversions to [uint32] and to [int64] wrap. *)
Definition wrap_uint32 (z : Z) : Z := z mod 2 ^ 32.
Definition wrap_int64 (z : Z) : Z := (z + 2 ^ 63) mod 2 ^ 64 - 2 ^ 63.

(** ** errors.go *)

Inductive Sentinel :=
| ErrInvalidMagic
| ErrUnsupportedVersion
| ErrInvalidHeader
| ErrInvalidSection
| ErrInvalidPayload
| ErrLimitExceeded
| ErrValidation.

(** A Go [error] value.  [Wrapped s msg] is [fmt.Errorf("%w: msg", s, ...)]
    (the format string is kept, its formatted arguments are not); a
    sentinel returned as it is has the message [""].  [Plain] is an error
    made by [fmt.Errorf] without [%w].  [IoEOF] and [IoErrUnexpectedEOF]
    are the two errors of [io.ReadFull] on a byte reader.  [External] is
    an error value handed back by a library or by the writer, passed on as
    it is. *)
Inductive error :=
| Wrapped (s : Sentinel) (msg : string)
| Plain (msg : string)
| IoEOF
| IoErrUnexpectedEOF
| External (origin : string).

Inductive result (A : Type) :=
| Ok (a : A)
| Err (e : error).
Arguments Ok {A} a.
Arguments Err {A} e.

(** What a call of a library hands back: a value, or an error of its own,
    which is none of the package's sentinels. *)
Inductive outcome (A : Type) :=
| Done (a : A)
| Failed (text : string).
Arguments Done {A} a.
Arguments Failed {A} text.

Definition ext {A} (o : outcome A) : result A :=
  match o with
  | Done a => Ok a
  | Failed text => Err (External text)
  end.

#[global] Instance Sentinel_eq_dec : EqDecision Sentinel.
Proof. solve_decision. Defined.

(** [errors.Is(e, s)] *)
Definition errors_Is (e : error) (s : Sentinel) : bool :=
  match e with
  | Wrapped s' _ => bool_decide (s' = s)
  | _ => false
  end.

Definition is_Ok {A} (r : result A) : bool :=
  match r with Ok _ => true | Err _ => false end.

(** The kind of a failed result, [None] for a success and for an error that
    wraps no sentinel. *)
Definition kind_of {A} (r : result A) : option Sentinel :=
  match r with
  | Err (Wrapped s _) => Some s
  | _ => None
  end.

Definition rbind {A B} (r : result A) (k : A -> result B) : result B :=
  match r with
  | Ok a => k a
  | Err e => Err e
  end.

Declare Scope result_scope.
Delimit Scope result_scope with result.
Notation "x <- r ;; k" := (rbind r (fun x => k))
  (at level 100, r at next level, right associativity) : result_scope.
Notation "r ;;; k" := (rbind r (fun _ => k))
  (at level 100, right associativity) : result_scope.

(** ** types.go *)

Definition VersionV1 : Z := 1.
Definition fixedHeaderSizeV1 : Z := 32.

Definition Magic : bytes := ["M"; "D"; "O"; "C"; "X"; x0d; x0a; x1a]%byte.

Definition HeaderFlagMetadataJSON : Z := 0x0001.

Definition SectionMarkdown : Z := 1.
Definition SectionMedia : Z := 2.

Definition CompNone : Z := 0x0.
Definition CompZIP : Z := 0x1.
Definition CompZSTD : Z := 0x2.
Definition CompLZ4 : Z := 0x3.
Definition CompBR : Z := 0x4.

Definition sectionFlagCompressionMask : Z := 0x000F.
Definition sectionFlagHasUncompressedLen : Z := 0x0010.

(** A value of Go's [any] as [encoding/json] produces and consumes it. *)
#[local] Unset Elimination Schemes.
Inductive jsonValue :=
| JNull
| JBool (b : bool)
| JNumber (literal : string)
| JString (s : string)
| JArray (xs : list jsonValue)
| JObject (kvs : list (string * jsonValue)).
#[local] Set Elimination Schemes.

Record MarkdownFile := {
  mf_Path : string;
  mf_Content : bytes;
  mf_MediaRefs : list string;
  mf_Attributes : gmap string string
}.

Record MarkdownBundle := {
  mb_BundleVersion : Z;
  mb_RootPath : string;
  mb_Files : list MarkdownFile
}.

Record MediaItem := {
  mi_ID : string;
  mi_Path : string;
  mi_MIMEType : string;
  mi_Data : bytes;
  mi_SHA256 : bytes;
  mi_Attributes : gmap string string
}.

Record MediaBundle := {
  media_BundleVersion : Z;
  media_Items : list MediaItem
}.

(** [Metadata] is a Go map that may be nil. *)
Record Document := {
  doc_Metadata : option (gmap string jsonValue);
  doc_Markdown : MarkdownBundle;
  doc_Media : MediaBundle
}.

(** The zero value of [[32]byte]. *)
Definition zeroSHA256 : bytes := replicate 32 x00.

(** ** The libraries the package calls

    [crypto/sha256], [encoding/json], [encoding/gob], [archive/zip], zstd,
    lz4 and brotli are outside the repository.  The package reaches several
    of them through function variables ("for testing injection"); here
    they are the methods of one class, so that every statement below holds
    for whatever these libraries compute. *)

(** What a decompressing reader yields when it is read to its end: the
    bytes it delivers, then either end of file or an error. *)
Record stream := {
  st_data : bytes;
  st_err : option string
}.

(** One entry of a ZIP archive as [zip.NewReader] lists it. *)
Record zipFile := {
  zf_Name : string;
  zf_IsDir : bool;
  zf_UncompressedSize64 : Z;
  zf_Open : outcome stream
}.

Class Libs := {
  sha256_Sum256 : bytes -> bytes;
  json_Marshal : gmap string jsonValue -> outcome bytes;
  (** the JSON value a text denotes, [None] for a syntax error *)
  json_parse : bytes -> option jsonValue;
  gob_Encode_MarkdownBundle : MarkdownBundle -> outcome bytes;
  gob_Encode_MediaBundle : MediaBundle -> outcome bytes;
  gob_Decode_MarkdownBundle : bytes -> outcome MarkdownBundle;
  gob_Decode_MediaBundle : bytes -> outcome MediaBundle;
  (** a ZIP archive with the single entry [name] *)
  zip_Archive : string -> bytes -> outcome bytes;
  zip_NewReader : bytes -> outcome (list zipFile);
  zstd_EncodeAll : bytes -> outcome bytes;
  zstd_DecodeAll : bytes -> outcome bytes;
  lz4_Compress : bytes -> outcome bytes;
  lz4_NewReader : bytes -> stream;
  brotli_Compress : bytes -> outcome bytes;
  brotli_NewReader : bytes -> stream
}.

(** [readAll(io.LimitReader(s, n))]: a limit that is not positive reads
    nothing; a stream that still has [n] bytes is cut there and its end is
    never looked at; a shorter stream is read to its end. *)
Definition readAllLimit (s : stream) (n : Z) : result bytes :=
  if n <=? 0 then Ok []
  else if n <=? len (st_data s) then Ok (take (Z.to_nat n) (st_data s))
  else match st_err s with
       | None => Ok (st_data s)
       | Some text => Err (External text)
       end.

(** ** wire.go *)

Record fixedHeaderV1 := {
  h_Magic : bytes;
  h_Version : Z;
  h_HeaderFlags : Z;
  h_FixedHdrSize : Z;
  h_MetadataLength : Z;
  h_Reserved0 : Z;
  h_Reserved1 : Z
}.

Record sectionHeaderV1 := {
  sh_SectionType : Z;
  sh_SectionFlags : Z;
  sh_PayloadLen : Z;
  sh_Reserved : Z
}.

(** What a run of [Decode] does besides reading: its calls of
    [decompressPayload], of the four decompression routines and of
    [gobDecode], in the order they happen. *)
Inductive Event :=
| EvDecompressPayload (section comp sectionFlags : Z) (payload : bytes)
| EvCodec (comp : Z) (compressed : bytes) (expected : Z)
| EvGobDecode (section : Z) (data : bytes).

(** The [io.Reader] handed to [Decode] is a byte reader: the bytes not
    yet consumed.  The trace rides along. *)
Record reader := {
  rd_rest : bytes;
  rd_trace : list Event
}.

Definition M (A : Type) : Type := reader -> result A * reader.

Definition mret {A} (a : A) : M A := fun r => (Ok a, r).
Definition mfail {A} (e : error) : M A := fun r => (Err e, r).
Definition mbind {A B} (m : M A) (k : A -> M B) : M B :=
  fun r => match m r with
           | (Ok a, r') => k a r'
           | (Err e, r') => (Err e, r')
           end.
Definition mlift {A} (x : result A) : M A := fun r => (x, r).
Definition mlog (evs : list Event) : M unit :=
  fun r => (Ok tt, {| rd_rest := rd_rest r; rd_trace := rd_trace r ++ evs |}).

Declare Scope M_scope.
Delimit Scope M_scope with M.
Notation "x <- m ;; k" := (mbind m (fun x => k))
  (at level 100, m at next level, right associativity) : M_scope.
Notation "m ;;; k" := (mbind m (fun _ => k))
  (at level 100, right associativity) : M_scope.

(** [io.ReadFull(r, buf)] with [len(buf) = n]: no byte wanted, nothing
    read; enough bytes, they are consumed; none left, [io.EOF]; too few,
    they are consumed and the error is [io.ErrUnexpectedEOF]. *)
Definition io_ReadFull (n : Z) : M bytes := fun r =>
  if n <=? 0 then (Ok [], r)
  else if n <=? len (rd_rest r) then
    (Ok (take (Z.to_nat n) (rd_rest r)),
     {| rd_rest := drop (Z.to_nat n) (rd_rest r); rd_trace := rd_trace r |})
  else if len (rd_rest r) =? 0 then (Err IoEOF, r)
  else (Err IoErrUnexpectedEOF, {| rd_rest := []; rd_trace := rd_trace r |}).

Definition parseFixedHeader (buf : bytes) : fixedHeaderV1 :=
  {| h_Magic := slice buf 0 8;
     h_Version := Uint16 (slice buf 8 10);
     h_HeaderFlags := Uint16 (slice buf 10 12);
     h_FixedHdrSize := Uint32 (slice buf 12 16);
     h_MetadataLength := Uint32 (slice buf 16 20);
     h_Reserved0 := Uint32 (slice buf 20 24);
     h_Reserved1 := Uint64 (slice buf 24 32) |}.

Definition readFixedHeader : M fixedHeaderV1 :=
  (buf <- io_ReadFull fixedHeaderSizeV1 ;;
   mret (parseFixedHeader buf))%M.

(** [copy(buf[0:8], h.Magic[:])]: exactly eight bytes. *)
Definition fixedHeaderBytes (h : fixedHeaderV1) : bytes :=
  take 8 (h_Magic h ++ replicate 8 x00)
  ++ PutUint16 (h_Version h)
  ++ PutUint16 (h_HeaderFlags h)
  ++ PutUint32 (h_FixedHdrSize h)
  ++ PutUint32 (h_MetadataLength h)
  ++ PutUint32 (h_Reserved0 h)
  ++ PutUint64 (h_Reserved1 h).

Definition parseSectionHeader (buf : bytes) : sectionHeaderV1 :=
  {| sh_SectionType := Uint16 (slice buf 0 2);
     sh_SectionFlags := Uint16 (slice buf 2 4);
     sh_PayloadLen := Uint64 (slice buf 4 12);
     sh_Reserved := Uint32 (slice buf 12 16) |}.

Definition readSectionHeader : M sectionHeaderV1 :=
  (buf <- io_ReadFull 16 ;;
   mret (parseSectionHeader buf))%M.

Definition sectionHeaderBytes (sh : sectionHeaderV1) : bytes :=
  PutUint16 (sh_SectionType sh)
  ++ PutUint16 (sh_SectionFlags sh)
  ++ PutUint64 (sh_PayloadLen sh)
  ++ PutUint32 (sh_Reserved sh).

(** The [io.Writer] handed to [Encode]: [Write] gives the writer's next
    state and its error, if any.  The error is any Go error, one that
    wraps a sentinel of the package included; [Encode] returns it as it
    is, and ignores the byte count. *)
Class Writer (W : Type) := w_Write : W -> bytes -> W * option error.

(** [bytes.Buffer] never fails. *)
#[global] Instance bytes_Buffer : Writer bytes := fun buf p => (buf ++ p, None).

(** The [failingWriter] of the package's tests: it accepts [n] bytes in
    all, cuts a write that is longer and refuses once nothing is left. *)
Record failingWriter := { fw_n : Z }.

#[global] Instance failingWriter_Writer : Writer failingWriter := fun w p =>
  if fw_n w <=? 0 then (w, Some (External "io: read/write on closed pipe"))
  else
    let p' := if len p >? fw_n w then take (Z.to_nat (fw_n w)) p else p in
    ({| fw_n := fw_n w - len p' |}, None).

Definition WM (W : Type) (A : Type) : Type := W -> result A * W.

Definition write {W} `{Writer W} (p : bytes) : WM W unit := fun w =>
  match w_Write w p with
  | (w', None) => (Ok tt, w')
  | (w', Some e) => (Err e, w')
  end.

Definition wbind {W A B} (m : WM W A) (k : A -> WM W B) : WM W B :=
  fun w => match m w with
           | (Ok a, w') => k a w'
           | (Err e, w') => (Err e, w')
           end.
Definition wlift {W A} (x : result A) : WM W A := fun w => (x, w).

Declare Scope WM_scope.
Delimit Scope WM_scope with WM.
Notation "x <- m ;; k" := (wbind m (fun x => k))
  (at level 100, m at next level, right associativity) : WM_scope.
Notation "m ;;; k" := (wbind m (fun _ => k))
  (at level 100, right associativity) : WM_scope.

Definition writeFixedHeader {W} `{Writer W} (h : fixedHeaderV1) : WM W unit :=
  write (fixedHeaderBytes h).

Definition writeSectionHeader {W} `{Writer W} (sh : sectionHeaderV1) : WM W unit :=
  write (sectionHeaderBytes sh).

Definition compression (sh : sectionHeaderV1) : Z :=
  Z.land (sh_SectionFlags sh) sectionFlagCompressionMask.

Definition hasUncompressedLen (sh : sectionHeaderV1) : bool :=
  negb (Z.land (sh_SectionFlags sh) sectionFlagHasUncompressedLen =? 0).

Definition knownCompression (comp : Z) : bool :=
  (comp =? CompNone) || (comp =? CompZIP) || (comp =? CompZSTD)
  || (comp =? CompLZ4) || (comp =? CompBR).

Definition validateSectionHeader (sh : sectionHeaderV1) (expected : Z) : result unit :=
  if negb (sh_Reserved sh =? 0) then
    Err (Wrapped ErrInvalidSection "reserved must be 0")
  else if negb (sh_SectionType sh =? expected) then
    Err (Wrapped ErrInvalidSection "expected section type %d got %d")
  else
    let comp := compression sh in
    if negb (knownCompression comp) then
      Err (Wrapped ErrInvalidSection "unknown compression %d")
    else if comp =? CompNone then
      if hasUncompressedLen sh then
        Err (Wrapped ErrInvalidSection "COMP_NONE must not set HAS_UNCOMPRESSED_LEN")
      else Ok tt
    else
      if negb (hasUncompressedLen sh) then
        Err (Wrapped ErrInvalidSection "compressed payload must set HAS_UNCOMPRESSED_LEN")
      else Ok tt.

(** ** limits.go *)

Record Limits := {
  MaxMetadataLen : Z;
  MaxMarkdownSectionLen : Z;
  MaxMediaSectionLen : Z;
  MaxMarkdownUncompressed : Z;
  MaxMediaUncompressed : Z;
  MaxMarkdownFiles : Z;
  MaxMediaItems : Z;
  MaxSingleMarkdownFileSize : Z;
  MaxSingleMediaSize : Z
}.

Definition defaultLimits : Limits :=
  {| MaxMetadataLen := Z.shiftl 1 20;
     MaxMarkdownSectionLen := Z.shiftl 1 30;
     MaxMediaSectionLen := Z.shiftl 1 32;
     MaxMarkdownUncompressed := Z.shiftl 256 20;
     MaxMediaUncompressed := Z.shiftl 2 30;
     MaxMarkdownFiles := 10000;
     MaxMediaItems := 10000;
     MaxSingleMarkdownFileSize := Z.shiftl 256 20;
     MaxSingleMediaSize := Z.shiftl 512 20 |}.

Definition orDefault (v d : Z) : Z := if v =? 0 then d else v.

Definition withDefaults (l : Limits) : Limits :=
  let d := defaultLimits in
  {| MaxMetadataLen := orDefault (MaxMetadataLen l) (MaxMetadataLen d);
     MaxMarkdownSectionLen := orDefault (MaxMarkdownSectionLen l) (MaxMarkdownSectionLen d);
     MaxMediaSectionLen := orDefault (MaxMediaSectionLen l) (MaxMediaSectionLen d);
     MaxMarkdownUncompressed := orDefault (MaxMarkdownUncompressed l) (MaxMarkdownUncompressed d);
     MaxMediaUncompressed := orDefault (MaxMediaUncompressed l) (MaxMediaUncompressed d);
     MaxMarkdownFiles := orDefault (MaxMarkdownFiles l) (MaxMarkdownFiles d);
     MaxMediaItems := orDefault (MaxMediaItems l) (MaxMediaItems d);
     MaxSingleMarkdownFileSize := orDefault (MaxSingleMarkdownFileSize l) (MaxSingleMarkdownFileSize d);
     MaxSingleMediaSize := orDefault (MaxSingleMediaSize l) (MaxSingleMediaSize d) |}.

(** ** compress.go *)

Section Compress.
Context `{L : Libs}.

Definition zipCompressNamed (name : string) (input : bytes) : result bytes :=
  ext (zip_Archive name input).

Definition zipCompress (input : bytes) : result bytes :=
  zipCompressNamed "payload.gob" input.

Definition zipDecompress (zipBytes : bytes) (expected : Z) : result bytes :=
  (files <- ext (zip_NewReader zipBytes) ;;
   match files with
   | [zf] =>
     if negb (String.eqb (zf_Name zf) "payload.gob") then
       Err (Wrapped ErrInvalidPayload "zip entry name must be payload.gob")
     else if zf_IsDir zf then
       Err (Wrapped ErrInvalidPayload "zip entry must be a file")
     else if negb (zf_UncompressedSize64 zf =? expected) then
       Err (Wrapped ErrInvalidPayload "zip uncompressed size %d != expected %d")
     else
       rc <- ext (zf_Open zf) ;;
       readAllLimit rc (wrap_int64 expected)
   | _ => Err (Wrapped ErrInvalidPayload "zip must contain exactly one entry")
   end)%result.

Definition zstdCompress (input : bytes) : result bytes := ext (zstd_EncodeAll input).

Definition zstdDecompress (input : bytes) (expected : Z) : result bytes :=
  (out <- ext (zstd_DecodeAll input) ;;
   if len out >? expected then
     Err (Wrapped ErrInvalidPayload "zstd expanded beyond expected size")
   else Ok out)%result.

Definition lz4Compress (input : bytes) : result bytes := ext (lz4_Compress input).

Definition lz4Decompress (input : bytes) (expected : Z) : result bytes :=
  (b <- readAllLimit (lz4_NewReader input) (wrap_int64 (wrap_int64 expected + 1)) ;;
   if len b >? expected then
     Err (Wrapped ErrInvalidPayload "lz4 expanded beyond expected size")
   else Ok b)%result.

Definition brotliCompress (input : bytes) : result bytes := ext (brotli_Compress input).

Definition brotliDecompress (input : bytes) (expected : Z) : result bytes :=
  (b <- readAllLimit (brotli_NewReader input) (wrap_int64 (wrap_int64 expected + 1)) ;;
   if len b >? expected then
     Err (Wrapped ErrInvalidPayload "brotli expanded beyond expected size")
   else Ok b)%result.

(** The [switch comp] of [compressPayload]; [None] is its [default]. *)
Definition compressor (comp : Z) : option (bytes -> result bytes) :=
  if comp =? CompZIP then Some zipCompress
  else if comp =? CompZSTD then Some zstdCompress
  else if comp =? CompLZ4 then Some lz4Compress
  else if comp =? CompBR then Some brotliCompress
  else None.

(** [compressPayload] returns the section flags and the payload. *)
Definition compressPayload (comp : Z) (gobBytes : bytes) : result (Z * bytes) :=
  if comp =? CompNone then Ok (CompNone, gobBytes)
  else
    match compressor comp with
    | None => Err (Wrapped ErrInvalidPayload "unknown compression %d")
    | Some f =>
      (compressed <- f gobBytes ;;
       let prefix := PutUint64 (len gobBytes) in
       Ok (Z.lor comp sectionFlagHasUncompressedLen, prefix ++ compressed))%result
    end.

(** The [switch comp] of [decompressPayload]; [None] is its [default]. *)
Definition decompressor (comp : Z) : option (bytes -> Z -> result bytes) :=
  if comp =? CompZIP then Some zipDecompress
  else if comp =? CompZSTD then Some zstdDecompress
  else if comp =? CompLZ4 then Some lz4Decompress
  else if comp =? CompBR then Some brotliDecompress
  else None.

(** [decompressPayload] returns its result and the decompression routines
    it has called. *)
Definition decompressPayload (comp sectionFlags : Z) (payload : bytes)
    (maxUncompressed : Z) : result bytes * list Event :=
  let hasLen := negb (Z.land sectionFlags sectionFlagHasUncompressedLen =? 0) in
  if comp =? CompNone then
    if hasLen then
      (Err (Wrapped ErrInvalidPayload "COMP_NONE with HAS_UNCOMPRESSED_LEN"), [])
    else (Ok payload, [])
  else if negb hasLen then
    (Err (Wrapped ErrInvalidPayload "missing HAS_UNCOMPRESSED_LEN"), [])
  else if len payload <? 8 then
    (Err (Wrapped ErrInvalidPayload "payload too short for uncompressed length"), [])
  else
    let uncompressedLen := Uint64 (take 8 payload) in
    if uncompressedLen >? maxUncompressed then
      (Err (Wrapped ErrLimitExceeded "uncompressed length %d exceeds limit"), [])
    else
      let compressedBytes := drop 8 payload in
      match decompressor comp with
      | None => (Err (Wrapped ErrInvalidPayload "unknown compression %d"), [])
      | Some f =>
        (match f compressedBytes uncompressedLen with
         | Err e => Err e
         | Ok out =>
           if negb (len out =? uncompressedLen) then
             Err (Wrapped ErrInvalidPayload "decompressed length %d != expected %d")
           else Ok out
         end,
         [EvCodec comp compressedBytes uncompressedLen])
      end.

End Compress.

(** ** The string functions of Go's standard library that [validate.go]
    uses: [strings.TrimSpace], [strings.HasPrefix], [strings.Contains],
    [path.Clean] and [utf8.Valid] *)

Definition strings_HasPrefix (s pre : string) : bool := String.prefix pre s.

Fixpoint containsByte (c : ascii) (s : string) : bool :=
  match s with
  | EmptyString => false
  | String c' s' => Ascii.eqb c' c || containsByte c s'
  end.

Definition asciiSpace (b : Z) : bool :=
  (b =? 0x09) || (b =? 0x0A) || (b =? 0x0B) || (b =? 0x0C) || (b =? 0x0D)
  || (b =? 0x20).

(** U+0085 and U+00A0 *)
Definition space2 (b0 b1 : Z) : bool :=
  (b0 =? 0xC2) && ((b1 =? 0x85) || (b1 =? 0xA0)).

(** U+1680, U+2000 to U+200A, U+2028, U+2029, U+202F, U+205F, U+3000 *)
Definition space3 (b0 b1 b2 : Z) : bool :=
  ((b0 =? 0xE1) && (b1 =? 0x9A) && (b2 =? 0x80))
  || ((b0 =? 0xE2) && (b1 =? 0x80)
      && (((0x80 <=? b2) && (b2 <=? 0x8A)) || (b2 =? 0xA8) || (b2 =? 0xA9)
          || (b2 =? 0xAF)))
  || ((b0 =? 0xE2) && (b1 =? 0x81) && (b2 =? 0x9F))
  || ((b0 =? 0xE3) && (b1 =? 0x80) && (b2 =? 0x80)).

(** Every rune of [s], as [utf8.DecodeRuneInString] finds them one after
    the other, is white space for [unicode.IsSpace]. *)
Fixpoint allWhiteSpace (s : list Z) : bool :=
  match s with
  | [] => true
  | b0 :: s1 =>
    if asciiSpace b0 then allWhiteSpace s1
    else match s1 with
    | [] => false
    | b1 :: s2 =>
      if space2 b0 b1 then allWhiteSpace s2
      else match s2 with
      | [] => false
      | b2 :: s3 => if space3 b0 b1 b2 then allWhiteSpace s3 else false
      end
    end
  end.

Definition codes (s : string) : list Z :=
  map Z_of_byte (list_byte_of_string s).

(** [strings.TrimSpace(s) == ""]: [s] is made of white-space runes only. *)
Definition isBlank (s : string) : bool := allWhiteSpace (codes s).

(** [path.Clean].  [rout] is the [lazybuf] in reverse, [out.w] its
    length; the rest of the path is [rest], so that [path[r]] is its head.
    [inElement] is set while the inner loop of the [default] case copies a
    path element. *)
Definition slash : ascii := "/"%char.
Definition dot : ascii := "."%char.

(** [out.w--; for out.w > dotdot && out.index(out.w) != '/' { out.w-- }] *)
Fixpoint backtrack (rout : list ascii) (dotdot : nat) : list ascii :=
  match rout with
  | [] => []
  | c :: rout' =>
    if (dotdot <? length rout')%nat && negb (Ascii.eqb c slash)
    then backtrack rout' dotdot
    else rout'
  end.

(** [r == n || path[r] == '/'] *)
Definition endOrSlash (rest : list ascii) : bool :=
  match rest with
  | [] => true
  | c :: _ => Ascii.eqb c slash
  end.

Fixpoint cleanLoop (rooted inElement : bool) (rest rout : list ascii)
    (dotdot : nat) : list ascii :=
  match rest with
  | [] => rout
  | c :: rest1 =>
    if inElement then
      if Ascii.eqb c slash then cleanLoop rooted false rest1 rout dotdot
      else cleanLoop rooted true rest1 (c :: rout) dotdot
    else if Ascii.eqb c slash then
      cleanLoop rooted false rest1 rout dotdot
    else if Ascii.eqb c dot && endOrSlash rest1 then
      cleanLoop rooted false rest1 rout dotdot
    else
      let element rout :=
        let rout1 :=
          if (rooted && negb (length rout =? 1)%nat)
             || (negb rooted && negb (length rout =? 0)%nat)
          then slash :: rout else rout in
        cleanLoop rooted true rest1 (c :: rout1) dotdot in
      match rest1 with
      | c1 :: rest2 =>
        if Ascii.eqb c dot && Ascii.eqb c1 dot && endOrSlash rest2 then
          if (dotdot <? length rout)%nat then
            cleanLoop rooted false rest2 (backtrack rout dotdot) dotdot
          else if negb rooted then
            let rout1 := if (0 <? length rout)%nat then slash :: rout else rout in
            let rout2 := dot :: dot :: rout1 in
            cleanLoop rooted false rest2 rout2 (length rout2)
          else cleanLoop rooted false rest2 rout dotdot
        else element rout
      | [] => element rout
      end
  end.

Definition path_Clean (p : string) : string :=
  match list_ascii_of_string p with
  | [] => "."
  | c :: rest1 =>
    let out :=
      if Ascii.eqb c slash then cleanLoop true false rest1 [slash] 1
      else cleanLoop false false (c :: rest1) [] 0 in
    match out with
    | [] => "."
    | _ => string_of_list_ascii (rev out)
    end
  end.

(** [utf8.Valid]: the well-formed byte sequences of the Unicode standard,
    table 3-7 (no overlong form, no surrogate, nothing above U+10FFFF). *)
Definition inRange (lo hi b : Z) : bool := (lo <=? b) && (b <=? hi).
Definition cont (b : Z) : bool := inRange 0x80 0xBF b.

Fixpoint utf8_ValidCodes (p : list Z) : bool :=
  match p with
  | [] => true
  | b0 :: p1 =>
    if b0 <? 0x80 then utf8_ValidCodes p1
    else match p1 with
    | [] => false
    | b1 :: p2 =>
      if inRange 0xC2 0xDF b0 then cont b1 && utf8_ValidCodes p2
      else match p2 with
      | [] => false
      | b2 :: p3 =>
        if b0 =? 0xE0 then inRange 0xA0 0xBF b1 && cont b2 && utf8_ValidCodes p3
        else if inRange 0xE1 0xEC b0 || inRange 0xEE 0xEF b0 then
          cont b1 && cont b2 && utf8_ValidCodes p3
        else if b0 =? 0xED then inRange 0x80 0x9F b1 && cont b2 && utf8_ValidCodes p3
        else match p3 with
        | [] => false
        | b3 :: p4 =>
          if b0 =? 0xF0 then
            inRange 0x90 0xBF b1 && cont b2 && cont b3 && utf8_ValidCodes p4
          else if inRange 0xF1 0xF3 b0 then
            cont b1 && cont b2 && cont b3 && utf8_ValidCodes p4
          else if b0 =? 0xF4 then
            inRange 0x80 0x8F b1 && cont b2 && cont b3 && utf8_ValidCodes p4
          else false
        end
      end
    end
  end.

Definition utf8_Valid (p : bytes) : bool := utf8_ValidCodes (map Z_of_byte p).

(** ** validate.go *)

Definition validateContainerPath (p : string) : result unit :=
  if isBlank p then Err (Plain "path is empty")
  else if strings_HasPrefix p "/" then Err (Plain "path must not be absolute")
  else if containsByte "\"%char p then Err (Plain "path must use forward slashes")
  else
    let clean := path_Clean p in
    if negb (String.eqb clean p) then Err (Plain "path must be normalized: %q")
    else if String.eqb clean "." then Err (Plain "path must not be current directory")
    else if String.eqb clean ".." || strings_HasPrefix clean "../" then
      Err (Plain "path must not escape")
    else Ok tt.

Section Validate.
Context `{L : Libs}.

Definition computedSHA256 (m : MediaItem) : bytes := sha256_Sum256 (mi_Data m).

(** The loop over [doc.Markdown.Files], with its [seenPaths]. *)
Fixpoint validateMarkdownFiles (limits : Limits) (seenPaths : gset string)
    (files : list MarkdownFile) : result unit :=
  match files with
  | [] => Ok tt
  | f :: files' =>
    match validateContainerPath (mf_Path f) with
    | Err _ => Err (Wrapped ErrValidation "markdown file %d path: %v")
    | Ok _ =>
      if bool_decide (mf_Path f ∈ seenPaths) then
        Err (Wrapped ErrValidation "duplicate markdown path %q")
      else if negb (utf8_Valid (mf_Content f)) then
        Err (Wrapped ErrValidation "markdown file %q content is not valid UTF-8")
      else if len (mf_Content f) >? MaxSingleMarkdownFileSize limits then
        Err (Wrapped ErrLimitExceeded "markdown file %q too large")
      else validateMarkdownFiles limits ({[mf_Path f]} ∪ seenPaths) files'
    end
  end.

(** The hash check of one media item. *)
Definition checkSHA256 (verifyHashes : bool) (it : MediaItem) : result unit :=
  if verifyHashes then
    if negb (bool_decide (mi_SHA256 it = zeroSHA256)) then
      let computed := computedSHA256 it in
      if negb (bool_decide (computed = mi_SHA256 it)) then
        Err (Wrapped ErrValidation "media item %q SHA256 mismatch")
      else Ok tt
    else Ok tt
  else Ok tt.

(** The loop over [doc.Media.Items], with its [seenIDs]. *)
Fixpoint validateMediaItems (limits : Limits) (verifyHashes : bool)
    (seenIDs : gset string) (items : list MediaItem) : result unit :=
  match items with
  | [] => Ok tt
  | it :: items' =>
    if isBlank (mi_ID it) then
      Err (Wrapped ErrValidation "media item %d has empty ID")
    else if bool_decide (mi_ID it ∈ seenIDs) then
      Err (Wrapped ErrValidation "duplicate media ID %q")
    else
      match (if negb (String.eqb (mi_Path it) "")
             then validateContainerPath (mi_Path it) else Ok tt) with
      | Err _ => Err (Wrapped ErrValidation "media item %q path: %v")
      | Ok _ =>
        if len (mi_Data it) >? MaxSingleMediaSize limits then
          Err (Wrapped ErrLimitExceeded "media item %q too large")
        else
          (checkSHA256 verifyHashes it ;;;
           validateMediaItems limits verifyHashes ({[mi_ID it]} ∪ seenIDs) items')%result
      end
  end.

(** [doc] is a pointer: [None] is nil. *)
Definition validateDocument (doc : option Document) (limits : Limits)
    (verifyHashes : bool) : result unit :=
  match doc with
  | None => Err (Wrapped ErrValidation "document is nil")
  | Some doc =>
    if negb (mb_BundleVersion (doc_Markdown doc) =? VersionV1) then
      Err (Wrapped ErrValidation "Markdown.BundleVersion must be %d")
    else if len (mb_Files (doc_Markdown doc)) =? 0 then
      Err (Wrapped ErrValidation "Markdown.Files must not be empty")
    else if len (mb_Files (doc_Markdown doc)) >? MaxMarkdownFiles limits then
      Err (Wrapped ErrLimitExceeded "too many markdown files")
    else
      match (if negb (String.eqb (mb_RootPath (doc_Markdown doc)) "")
             then validateContainerPath (mb_RootPath (doc_Markdown doc))
             else Ok tt) with
      | Err _ => Err (Wrapped ErrValidation "Markdown.RootPath: %v")
      | Ok _ =>
        (validateMarkdownFiles limits ∅ (mb_Files (doc_Markdown doc)) ;;;
         if negb (media_BundleVersion (doc_Media doc) =? VersionV1) then
           Err (Wrapped ErrValidation "Media.BundleVersion must be %d")
         else if len (media_Items (doc_Media doc)) >? MaxMediaItems limits then
           Err (Wrapped ErrLimitExceeded "too many media items")
         else
           validateMediaItems limits verifyHashes ∅ (media_Items (doc_Media doc)))%result
      end
  end.

End Validate.

(** ** options.go *)

Record readConfig := {
  rc_limits : Limits;
  rc_verifyHashes : bool
}.

Definition ReadOption : Type := readConfig -> readConfig.

Definition WithReadLimits (l : Limits) : ReadOption :=
  fun c => {| rc_limits := l; rc_verifyHashes := rc_verifyHashes c |}.

Definition WithVerifyHashes (v : bool) : ReadOption :=
  fun c => {| rc_limits := rc_limits c; rc_verifyHashes := v |}.

Record writeConfig := {
  wc_limits : Limits;
  wc_verifyHashes : bool;
  wc_autoPopulate : bool;
  wc_mdCompression : Z;
  wc_mediaCompression : Z
}.

Definition WriteOption : Type := writeConfig -> writeConfig.

Definition WithWriteLimits (l : Limits) : WriteOption :=
  fun c => {| wc_limits := l; wc_verifyHashes := wc_verifyHashes c;
              wc_autoPopulate := wc_autoPopulate c;
              wc_mdCompression := wc_mdCompression c;
              wc_mediaCompression := wc_mediaCompression c |}.

Definition WithVerifyHashesOnWrite (v : bool) : WriteOption :=
  fun c => {| wc_limits := wc_limits c; wc_verifyHashes := v;
              wc_autoPopulate := wc_autoPopulate c;
              wc_mdCompression := wc_mdCompression c;
              wc_mediaCompression := wc_mediaCompression c |}.

Definition WithAutoPopulateSHA256 (v : bool) : WriteOption :=
  fun c => {| wc_limits := wc_limits c; wc_verifyHashes := wc_verifyHashes c;
              wc_autoPopulate := v;
              wc_mdCompression := wc_mdCompression c;
              wc_mediaCompression := wc_mediaCompression c |}.

Definition WithMarkdownCompression (comp : Z) : WriteOption :=
  fun c => {| wc_limits := wc_limits c; wc_verifyHashes := wc_verifyHashes c;
              wc_autoPopulate := wc_autoPopulate c;
              wc_mdCompression := comp;
              wc_mediaCompression := wc_mediaCompression c |}.

Definition WithMediaCompression (comp : Z) : WriteOption :=
  fun c => {| wc_limits := wc_limits c; wc_verifyHashes := wc_verifyHashes c;
              wc_autoPopulate := wc_autoPopulate c;
              wc_mdCompression := wc_mdCompression c;
              wc_mediaCompression := comp |}.

(** [for _, opt := range opts { opt(&cfg) }] *)
Definition applyOptions {C} (cfg : C) (opts : list (C -> C)) : C :=
  fold_left (fun c opt => opt c) opts cfg.

(** ** encode.go and decode.go *)

Section Codec.
Context `{L : Libs}.

(** [json.Unmarshal(data, &metadata)] where [metadata] is a nil
    [map[string]any]: a syntax error is an error; [null] leaves the map
    nil; an object fills a new map, the last of two equal keys winning;
    any other value is an [*json.UnmarshalTypeError]. *)
Definition json_Unmarshal (data : bytes) : result (option (gmap string jsonValue)) :=
  match json_parse data with
  | None => Err (External "json: syntax error")
  | Some JNull => Ok None
  | Some (JObject kvs) => Ok (Some (list_to_map (reverse kvs)))
  | Some _ =>
    Err (External "json: cannot unmarshal into Go value of type map[string]interface {}")
  end.

Definition gobEncodeMarkdown (v : MarkdownBundle) : result bytes :=
  ext (gob_Encode_MarkdownBundle v).
Definition gobEncodeMedia (v : MediaBundle) : result bytes :=
  ext (gob_Encode_MediaBundle v).

Definition defaultWriteConfig : writeConfig :=
  {| wc_limits := defaultLimits;
     wc_verifyHashes := true;
     wc_autoPopulate := true;
     wc_mdCompression := CompZSTD;
     wc_mediaCompression := CompZSTD |}.

(** The body of the auto-population loop. *)
Definition populateItem (it : MediaItem) : MediaItem :=
  if bool_decide (mi_SHA256 it = zeroSHA256) then
    {| mi_ID := mi_ID it; mi_Path := mi_Path it; mi_MIMEType := mi_MIMEType it;
       mi_Data := mi_Data it; mi_SHA256 := computedSHA256 it;
       mi_Attributes := mi_Attributes it |}
  else it.

Definition populateSHA256 (doc : Document) : Document :=
  {| doc_Metadata := doc_Metadata doc;
     doc_Markdown := doc_Markdown doc;
     doc_Media :=
       {| media_BundleVersion := media_BundleVersion (doc_Media doc);
          media_Items := map populateItem (media_Items (doc_Media doc)) |} |}.

(** The metadata block and the header flags that go with it. *)
Definition marshalMetadata (limits : Limits)
    (metadata : option (gmap string jsonValue)) : result (bytes * Z) :=
  match metadata with
  | Some m =>
    (b <- ext (json_Marshal m) ;;
     if len b >? MaxMetadataLen limits then
       Err (Wrapped ErrLimitExceeded "metadata too large")
     else Ok (b, Z.lor 0 HeaderFlagMetadataJSON))%result
  | None => Ok ([], 0)
  end.

(** [Encode] from its call of [validateDocument] on; [doc] is read only. *)
Definition encodeDocument {W} `{Writer W} (cfg : writeConfig) (doc : Document)
    : WM W unit :=
  (wlift (validateDocument (Some doc) (wc_limits cfg) (wc_verifyHashes cfg)) ;;;
   meta <- wlift (marshalMetadata (wc_limits cfg) (doc_Metadata doc)) ;;
   let '(metadataBytes, headerFlags) := meta in
   mdGob <- wlift (gobEncodeMarkdown (doc_Markdown doc)) ;;
   mediaGob <- wlift (gobEncodeMedia (doc_Media doc)) ;;
   md <- wlift (compressPayload (wc_mdCompression cfg) mdGob) ;;
   let '(mdFlags, mdPayload) := md in
   media <- wlift (compressPayload (wc_mediaCompression cfg) mediaGob) ;;
   let '(mediaFlags, mediaPayload) := media in
   let h :=
     {| h_Magic := Magic;
        h_Version := VersionV1;
        h_HeaderFlags := headerFlags;
        h_FixedHdrSize := fixedHeaderSizeV1;
        h_MetadataLength := wrap_uint32 (len metadataBytes);
        h_Reserved0 := 0;
        h_Reserved1 := 0 |} in
   writeFixedHeader h ;;;
   (if len metadataBytes >? 0 then write metadataBytes else wlift (Ok tt)) ;;;
   let mdHeader :=
     {| sh_SectionType := SectionMarkdown;
        sh_SectionFlags := mdFlags;
        sh_PayloadLen := len mdPayload;
        sh_Reserved := 0 |} in
   writeSectionHeader mdHeader ;;;
   write mdPayload ;;;
   let mediaHeader :=
     {| sh_SectionType := SectionMedia;
        sh_SectionFlags := mediaFlags;
        sh_PayloadLen := len mediaPayload;
        sh_Reserved := 0 |} in
   writeSectionHeader mediaHeader ;;;
   write mediaPayload)%WM.

(** [Encode(w, doc, opts...)] returns its error, the writer as it has left
    it and the document as it has left it ([doc] is a pointer and the
    auto-population writes through it). *)
Definition Encode {W} `{Writer W} (w : W) (doc : option Document)
    (opts : list WriteOption) : result unit * W * option Document :=
  let cfg0 := applyOptions defaultWriteConfig opts in
  let cfg :=
    {| wc_limits := withDefaults (wc_limits cfg0);
       wc_verifyHashes := wc_verifyHashes cfg0;
       wc_autoPopulate := wc_autoPopulate cfg0;
       wc_mdCompression := wc_mdCompression cfg0;
       wc_mediaCompression := wc_mediaCompression cfg0 |} in
  match doc with
  | None => (Err (Wrapped ErrValidation "document is nil"), w, None)
  | Some d =>
    let d' := if wc_autoPopulate cfg then populateSHA256 d else d in
    let '(r, w') := encodeDocument cfg d' w in
    (r, w', Some d')
  end.

Definition defaultReadConfig : readConfig :=
  {| rc_limits := defaultLimits; rc_verifyHashes := true |}.

(** A call of [decompressPayload] from [Decode], written to the trace
    with the decompression routines it calls. *)
Definition callDecompressPayload (section comp sectionFlags : Z)
    (payload : bytes) (maxUncompressed : Z) : M bytes := fun r =>
  let '(res, evs) := decompressPayload comp sectionFlags payload maxUncompressed in
  (res,
   {| rd_rest := rd_rest r;
      rd_trace := rd_trace r
        ++ EvDecompressPayload section comp sectionFlags payload :: evs |}).

(** A call of [gobDecode] from [Decode], written to the trace. *)
Definition gobDecode {A} (section : Z) (decoder : bytes -> outcome A)
    (data : bytes) : M A := fun r =>
  (ext (decoder data),
   {| rd_rest := rd_rest r;
      rd_trace := rd_trace r ++ [EvGobDecode section data] |}).

Definition emptyMediaBundle : MediaBundle :=
  {| media_BundleVersion := VersionV1; media_Items := [] |}.

(** [Decode] is one Go function; it is cut here into its four steps. *)

(** Step 1 and 2: the fixed header and the metadata block. *)
Definition decodeHeader (limits : Limits) : M (option (gmap string jsonValue)) :=
  (h <- readFixedHeader ;;
   if negb (bool_decide (h_Magic h = Magic)) then
     mfail (Wrapped ErrInvalidMagic "")
   else if negb (h_FixedHdrSize h =? fixedHeaderSizeV1) then
     mfail (Wrapped ErrInvalidHeader "fixed header size %d")
   else if negb (h_Version h =? VersionV1) then
     mfail (Wrapped ErrUnsupportedVersion "")
   else if negb (h_Reserved0 h =? 0) || negb (h_Reserved1 h =? 0) then
     mfail (Wrapped ErrInvalidHeader "reserved must be zero")
   else if h_MetadataLength h >? MaxMetadataLen limits then
     mfail (Wrapped ErrLimitExceeded "metadata length %d")
   else if h_MetadataLength h >? 0 then
     mb <- io_ReadFull (h_MetadataLength h) ;;
     if Z.land (h_HeaderFlags h) HeaderFlagMetadataJSON =? 0 then
       mfail (Wrapped ErrInvalidHeader
                "metadata present but METADATA_JSON flag not set")
     else
       metadata <- mlift (json_Unmarshal mb) ;;
       match metadata with
       | None => mfail (Wrapped ErrInvalidHeader "metadata must be a JSON object")
       | Some m => mret (Some m)
       end
   else mret None)%M.

(** Step 3: the Markdown section. *)
Definition decodeMarkdownSection (limits : Limits) : M MarkdownBundle :=
  (mdSec <- readSectionHeader ;;
   mlift (validateSectionHeader mdSec SectionMarkdown) ;;;
   if sh_PayloadLen mdSec >? MaxMarkdownSectionLen limits then
     mfail (Wrapped ErrLimitExceeded "markdown section too large")
   else
     mdPayload <- io_ReadFull (sh_PayloadLen mdSec) ;;
     mdGob <- callDecompressPayload SectionMarkdown (compression mdSec)
                (sh_SectionFlags mdSec) mdPayload (MaxMarkdownUncompressed limits) ;;
     gobDecode SectionMarkdown gob_Decode_MarkdownBundle mdGob)%M.

(** Step 4: the Media section. *)
Definition decodeMediaSection (limits : Limits) : M MediaBundle :=
  (mediaSec <- readSectionHeader ;;
   mlift (validateSectionHeader mediaSec SectionMedia) ;;;
   if sh_PayloadLen mediaSec >? MaxMediaSectionLen limits then
     mfail (Wrapped ErrLimitExceeded "media section too large")
   else if sh_PayloadLen mediaSec =? 0 then mret emptyMediaBundle
   else
     mediaPayload <- io_ReadFull (sh_PayloadLen mediaSec) ;;
     mediaGob <- callDecompressPayload SectionMedia (compression mediaSec)
                   (sh_SectionFlags mediaSec) mediaPayload
                   (MaxMediaUncompressed limits) ;;
     gobDecode SectionMedia gob_Decode_MediaBundle mediaGob)%M.

(** Step 5: the document is put together and validated. *)
Definition decode (opts : list ReadOption) : M Document :=
  let cfg := applyOptions defaultReadConfig opts in
  let limits := withDefaults (rc_limits cfg) in
  (metadata <- decodeHeader limits ;;
   markdown <- decodeMarkdownSection limits ;;
   media <- decodeMediaSection limits ;;
   let doc :=
     {| doc_Metadata := metadata; doc_Markdown := markdown; doc_Media := media |} in
   mlift (validateDocument (Some doc) limits (rc_verifyHashes cfg)) ;;;
   mret doc)%M.

(** [Decode(bytes.NewReader(input), opts...)], with the trace of the run. *)
Definition Decode (input : bytes) (opts : list ReadOption)
    : result Document * list Event :=
  let '(res, r) := decode opts {| rd_rest := input; rd_trace := [] |} in
  (res, rd_trace r).

End Codec.

(** ** A test double for the libraries

    The package's tests replace the library calls through its function
    variables; [testLibs] does the same for all of them.  Its codecs store
    what they are given behind a one-byte tag, its bundle encoding is a
    plain length-prefixed layout, its digest is a 32-byte checksum, and
    its JSON knows the few texts the examples below use.  The examples
    run the embedding on it. *)

Module TestDouble.

Definition P (A : Type) : Type := bytes -> option (A * bytes).

Definition pret {A} (a : A) : P A := fun bs => Some (a, bs).
Definition pbind {A B} (p : P A) (k : A -> P B) : P B :=
  fun bs => match p bs with
            | Some (a, bs') => k a bs'
            | None => None
            end.

Definition putNat (n : nat) : bytes := PutUint64 (Z.of_nat n).
Definition getNat : P nat := fun bs =>
  if (length bs <? 8)%nat then None
  else Some (Z.to_nat (Uint64 bs), drop 8 bs).

Definition putBytes (b : bytes) : bytes := putNat (length b) ++ b.
Definition getBytes : P bytes :=
  pbind getNat (fun n bs =>
    if (length bs <? n)%nat then None else Some (take n bs, drop n bs)).

Definition putString (s : string) : bytes := putBytes (list_byte_of_string s).
Definition getString : P string :=
  pbind getBytes (fun b => pret (string_of_list_byte b)).

Definition putList {A} (put : A -> bytes) (xs : list A) : bytes :=
  putNat (length xs) ++ concat (map put xs).

Fixpoint getMany {A} (get : P A) (n : nat) : P (list A) :=
  match n with
  | O => pret []
  | S n' => pbind get (fun x => pbind (getMany get n') (fun xs => pret (x :: xs)))
  end.

Definition getList {A} (get : P A) : P (list A) := pbind getNat (getMany get).

Definition putAttributes (m : gmap string string) : bytes :=
  putList (fun kv => putString kv.1 ++ putString kv.2) (map_to_list m).
Definition getAttributes : P (gmap string string) :=
  pbind (getList (pbind getString (fun k => pbind getString (fun v => pret (k, v)))))
        (fun kvs => pret (list_to_map kvs)).

Definition putMarkdownFile (f : MarkdownFile) : bytes :=
  putString (mf_Path f) ++ putBytes (mf_Content f)
  ++ putList putString (mf_MediaRefs f) ++ putAttributes (mf_Attributes f).
Definition getMarkdownFile : P MarkdownFile :=
  pbind getString (fun p => pbind getBytes (fun c =>
  pbind (getList getString) (fun refs => pbind getAttributes (fun attrs =>
  pret {| mf_Path := p; mf_Content := c; mf_MediaRefs := refs;
          mf_Attributes := attrs |})))).

Definition putMarkdownBundle (b : MarkdownBundle) : bytes :=
  PutUint16 (mb_BundleVersion b) ++ putString (mb_RootPath b)
  ++ putList putMarkdownFile (mb_Files b).
Definition getMarkdownBundle : P MarkdownBundle := fun bs =>
  if (length bs <? 2)%nat then None
  else
    pbind getString (fun root => pbind (getList getMarkdownFile) (fun files =>
    pret {| mb_BundleVersion := Uint16 bs; mb_RootPath := root;
            mb_Files := files |})) (drop 2 bs).

Definition putMediaItem (it : MediaItem) : bytes :=
  putString (mi_ID it) ++ putString (mi_Path it) ++ putString (mi_MIMEType it)
  ++ putBytes (mi_Data it) ++ putBytes (mi_SHA256 it)
  ++ putAttributes (mi_Attributes it).
Definition getMediaItem : P MediaItem :=
  pbind getString (fun id => pbind getString (fun p => pbind getString (fun mime =>
  pbind getBytes (fun data => pbind getBytes (fun sha =>
  pbind getAttributes (fun attrs =>
  pret {| mi_ID := id; mi_Path := p; mi_MIMEType := mime; mi_Data := data;
          mi_SHA256 := sha; mi_Attributes := attrs |})))))).

Definition putMediaBundle (b : MediaBundle) : bytes :=
  PutUint16 (media_BundleVersion b) ++ putList putMediaItem (media_Items b).
Definition getMediaBundle : P MediaBundle := fun bs =>
  if (length bs <? 2)%nat then None
  else
    pbind (getList getMediaItem) (fun items =>
    pret {| media_BundleVersion := Uint16 bs; media_Items := items |}) (drop 2 bs).

Definition decodeWith {A} (p : P A) (bs : bytes) : outcome A :=
  match p bs with
  | Some (a, _) => Done a
  | None => Failed "gob: unexpected EOF"
  end.

Definition checksum (data : bytes) : bytes :=
  le_put 32 (fold_left (fun acc b => acc * 257 + Z_of_byte b + 1) data 1).

Definition marshal (m : gmap string jsonValue) : outcome bytes :=
  if bool_decide (map_to_list m = []) then Done (list_byte_of_string "{}")
  else Failed "json: unsupported value".

Definition parse (text : bytes) : option jsonValue :=
  let s := string_of_list_byte text in
  if String.eqb s "null" then Some JNull
  else if String.eqb s "true" then Some (JBool true)
  else if String.eqb s "false" then Some (JBool false)
  else if String.eqb s "0" then Some (JNumber "0")
  else if String.eqb s "[]" then Some (JArray [])
  else if String.eqb s "{}" then Some (JObject [])
  else None.

(** A stored "compression": a tag byte, then the data. *)
Definition store (tag : byte) (data : bytes) : outcome bytes := Done (tag :: data).
Definition unstore (tag : byte) (input : bytes) : outcome bytes :=
  match input with
  | t :: data => if bool_decide (t = tag) then Done data
                 else Failed "codec: bad magic"
  | [] => Failed "codec: unexpected EOF"
  end.
Definition unstoreStream (tag : byte) (input : bytes) : stream :=
  match unstore tag input with
  | Done data => {| st_data := data; st_err := None |}
  | Failed text => {| st_data := []; st_err := Some text |}
  end.

Definition archive (name : string) (data : bytes) : outcome bytes :=
  Done (putString name ++ data).
Definition unarchive (input : bytes) : outcome (list zipFile) :=
  match getString input with
  | Some (name, data) =>
    Done [ {| zf_Name := name; zf_IsDir := false;
              zf_UncompressedSize64 := len data;
              zf_Open := Done {| st_data := data; st_err := None |} |} ]
  | None => Failed "zip: not a valid zip file"
  end.

End TestDouble.

#[global] Instance testLibs : Libs := {|
  sha256_Sum256 := TestDouble.checksum;
  json_Marshal := TestDouble.marshal;
  json_parse := TestDouble.parse;
  gob_Encode_MarkdownBundle := fun b => Done (TestDouble.putMarkdownBundle b);
  gob_Encode_MediaBundle := fun b => Done (TestDouble.putMediaBundle b);
  gob_Decode_MarkdownBundle := TestDouble.decodeWith TestDouble.getMarkdownBundle;
  gob_Decode_MediaBundle := TestDouble.decodeWith TestDouble.getMediaBundle;
  zip_Archive := TestDouble.archive;
  zip_NewReader := TestDouble.unarchive;
  zstd_EncodeAll := TestDouble.store x28;
  zstd_DecodeAll := TestDouble.unstore x28;
  lz4_Compress := TestDouble.store x04;
  lz4_NewReader := TestDouble.unstoreStream x04;
  brotli_Compress := TestDouble.store xce;
  brotli_NewReader := TestDouble.unstoreStream xce
|}.

(** ** Example documents *)

(** The [sampleDoc] of the package's tests, with an empty metadata map. *)
Definition sampleDoc : Document :=
  {| doc_Metadata := Some ∅;
     doc_Markdown :=
       {| mb_BundleVersion := VersionV1;
          mb_RootPath := "docs/index.md";
          mb_Files :=
            [ {| mf_Path := "docs/index.md";
                 mf_Content := list_byte_of_string "# Hello";
                 mf_MediaRefs := ["logo"%string];
                 mf_Attributes := ∅ |};
              {| mf_Path := "docs/notes.md";
                 mf_Content := list_byte_of_string "Some notes";
                 mf_MediaRefs := [];
                 mf_Attributes := {[ "lang"%string := "en"%string ]} |} ] |};
     doc_Media :=
       {| media_BundleVersion := VersionV1;
          media_Items :=
            [ {| mi_ID := "logo";
                 mi_Path := "assets/logo.png";
                 mi_MIMEType := "image/png";
                 mi_Data := [x01; x02; x03];
                 mi_SHA256 := zeroSHA256;
                 mi_Attributes := ∅ |} ] |} |}.

(** The item of [sampleDoc] with the digest [[32]byte{1}] of the
    package's tests, which is not the digest of its data. *)
Definition badHashItem : MediaItem :=
  {| mi_ID := "logo";
     mi_Path := "assets/logo.png";
     mi_MIMEType := "image/png";
     mi_Data := [x01; x02; x03];
     mi_SHA256 := x01 :: replicate 31 x00;
     mi_Attributes := ∅ |}.

Definition badHashDoc : Document :=
  {| doc_Metadata := None;
     doc_Markdown := doc_Markdown sampleDoc;
     doc_Media := {| media_BundleVersion := VersionV1; media_Items := [badHashItem] |} |}.

(** The same item in a document of 10001 Markdown files. *)
Definition crowdedDoc : Document :=
  {| doc_Metadata := None;
     doc_Markdown :=
       {| mb_BundleVersion := VersionV1;
          mb_RootPath := "";
          mb_Files :=
            replicate (Z.to_nat 10001)
              {| mf_Path := "a.md"; mf_Content := []; mf_MediaRefs := [];
                 mf_Attributes := ∅ |} |};
     doc_Media := {| media_BundleVersion := VersionV1; media_Items := [badHashItem] |} |}.

(** ** Vocabulary of the statements *)

(** The error of the hash comparison in [validateDocument]. *)
Definition mismatchError : error :=
  Wrapped ErrValidation "media item %q SHA256 mismatch".

(** The libraries [L] with another digest function. *)
Definition withSHA256 (L : Libs) (digest : bytes -> bytes) : Libs :=
  {| sha256_Sum256 := digest;
     json_Marshal := @json_Marshal L;
     json_parse := @json_parse L;
     gob_Encode_MarkdownBundle := @gob_Encode_MarkdownBundle L;
     gob_Encode_MediaBundle := @gob_Encode_MediaBundle L;
     gob_Decode_MarkdownBundle := @gob_Decode_MarkdownBundle L;
     gob_Decode_MediaBundle := @gob_Decode_MediaBundle L;
     zip_Archive := @zip_Archive L;
     zip_NewReader := @zip_NewReader L;
     zstd_EncodeAll := @zstd_EncodeAll L;
     zstd_DecodeAll := @zstd_DecodeAll L;
     lz4_Compress := @lz4_Compress L;
     lz4_NewReader := @lz4_NewReader L;
     brotli_Compress := @brotli_Compress L;
     brotli_NewReader := @brotli_NewReader L |}.

(** A media item is as it was, but for a zero digest that has been set
    to the digest of its data. *)
Definition itemUnchangedButSHA256 `{L : Libs} (before after : MediaItem) : Prop :=
  mi_ID after = mi_ID before
  /\ mi_Path after = mi_Path before
  /\ mi_MIMEType after = mi_MIMEType before
  /\ mi_Data after = mi_Data before
  /\ mi_Attributes after = mi_Attributes before
  /\ (mi_SHA256 after = mi_SHA256 before
      \/ (mi_SHA256 before = zeroSHA256
          /\ mi_SHA256 after = sha256_Sum256 (mi_Data before))).

Definition unchangedButSHA256 `{L : Libs} (before after : option Document) : Prop :=
  match before, after with
  | None, None => True
  | Some d, Some d' =>
    doc_Metadata d' = doc_Metadata d
    /\ doc_Markdown d' = doc_Markdown d
    /\ media_BundleVersion (doc_Media d') = media_BundleVersion (doc_Media d)
    /\ Forall2 itemUnchangedButSHA256 (media_Items (doc_Media d))
         (media_Items (doc_Media d'))
  | _, _ => False
  end.

(** The errors of the validator are [ErrValidation] and [ErrLimitExceeded]. *)
Definition validatorError (e : error) : Prop :=
  exists k msg, e = Wrapped k msg /\ (k = ErrValidation \/ k = ErrLimitExceeded).

Definition okOrValidatorError (r : result unit) : Prop :=
  match r with
  | Ok _ => True
  | Err e => validatorError e
  end.


(** A computation that never ends in the error [e0]. *)
Definition neverEndsIn {A} (e0 : error) (m : M A) : Prop :=
  forall r, fst (m r) <> Err e0.

(** The errors of the compression envelope: those of the libraries and
    [ErrInvalidPayload]. *)
Definition envelopeError (e : error) : Prop :=
  (exists text, e = External text) \/ (exists msg, e = Wrapped ErrInvalidPayload msg).

(** The fixed header that [Encode] writes. *)
Definition headerOf (headerFlags metadataLength : Z) : fixedHeaderV1 :=
  {| h_Magic := Magic;
     h_Version := VersionV1;
     h_HeaderFlags := headerFlags;
     h_FixedHdrSize := fixedHeaderSizeV1;
     h_MetadataLength := metadataLength;
     h_Reserved0 := 0;
     h_Reserved1 := 0 |}.

Definition isNull (v : jsonValue) : bool :=
  match v with JNull => true | _ => false end.

Definition isObject (v : jsonValue) : bool :=
  match v with JObject _ => true | _ => false end.

(** The error of [json.Unmarshal] for a value that is no object. *)
Definition unmarshalTypeError : error :=
  External "json: cannot unmarshal into Go value of type map[string]interface {}".

(** The input of [TestDecode_MetadataInvalidJSON]: a header that declares
    two bytes of metadata, the text of an empty JSON array, and two empty
    uncompressed sections. *)
Definition arrayMetadataInput : bytes :=
  fixedHeaderBytes (headerOf HeaderFlagMetadataJSON 2)
  ++ list_byte_of_string "[]"
  ++ sectionHeaderBytes
       {| sh_SectionType := SectionMarkdown; sh_SectionFlags := CompNone;
          sh_PayloadLen := 0; sh_Reserved := 0 |}
  ++ sectionHeaderBytes
       {| sh_SectionType := SectionMedia; sh_SectionFlags := CompNone;
          sh_PayloadLen := 0; sh_Reserved := 0 |}.

(** A computation that only appends to the trace, and only events that
    satisfy [P]. *)
Definition logsOnly {A} (P : Event -> Prop) (m : M A) : Prop :=
  forall r, exists evs,
    rd_trace (snd (m r)) = rd_trace r ++ evs /\ Forall P evs.

(** A call of [decompressPayload] or of [gobDecode] for the Media
    section. *)
Definition mediaCall (ev : Event) : bool :=
  match ev with
  | EvDecompressPayload section _ _ _ => section =? SectionMedia
  | EvGobDecode section _ => section =? SectionMedia
  | EvCodec _ _ _ => false
  end.


(** The limits [l] with other ceilings for the uncompressed sizes. *)
Definition withUncompressed (l : Limits) (markdown media : Z) : Limits :=
  {| MaxMetadataLen := MaxMetadataLen l;
     MaxMarkdownSectionLen := MaxMarkdownSectionLen l;
     MaxMediaSectionLen := MaxMediaSectionLen l;
     MaxMarkdownUncompressed := markdown;
     MaxMediaUncompressed := media;
     MaxMarkdownFiles := MaxMarkdownFiles l;
     MaxMediaItems := MaxMediaItems l;
     MaxSingleMarkdownFileSize := MaxSingleMarkdownFileSize l;
     MaxSingleMediaSize := MaxSingleMediaSize l |}.

(** [sampleDoc] encoded with [CompNone] for both sections. *)
Definition uncompressedInput : bytes :=
  snd (fst (Encode (L := testLibs) (W := bytes) [] (Some sampleDoc)
              [WithMarkdownCompression CompNone; WithMediaCompression CompNone])).

(** The input of [TestDecode_EmptyMediaPayloadLenZero]: no metadata, the
    Markdown bundle of [sampleDoc] under [CompZSTD], and a Media section
    header with the flags of [CompZSTD] and a payload length of 0. *)
Definition emptyMediaHeader : sectionHeaderV1 :=
  {| sh_SectionType := SectionMedia;
     sh_SectionFlags := Z.lor CompZSTD sectionFlagHasUncompressedLen;
     sh_PayloadLen := 0;
     sh_Reserved := 0 |}.

Definition emptyMediaInput : bytes :=
  match compressPayload (L := testLibs) CompZSTD
          (TestDouble.putMarkdownBundle (doc_Markdown sampleDoc)) with
  | Ok (mdFlags, mdPayload) =>
    fixedHeaderBytes (headerOf 0 0)
    ++ sectionHeaderBytes
         {| sh_SectionType := SectionMarkdown; sh_SectionFlags := mdFlags;
            sh_PayloadLen := len mdPayload; sh_Reserved := 0 |}
    ++ mdPayload
    ++ sectionHeaderBytes emptyMediaHeader
  | Err _ => []
  end.


(** The decompression routine of the codec gives back what went into the
    envelope. *)
Definition survivesEnvelope `{L : Libs} (comp : Z) (gobBytes payload : bytes) : Prop :=
  comp = CompNone
  \/ exists routine,
       decompressor comp = Some routine
       /\ routine (drop 8 payload) (len gobBytes) = Ok gobBytes.





(** The file that [Encode] writes, from its parts. *)
Definition encodedBytes (headerFlags : Z) (metadataBytes : bytes)
    (mdFlags : Z) (mdPayload : bytes) (mediaFlags : Z) (mediaPayload : bytes)
    : bytes :=
  fixedHeaderBytes (headerOf headerFlags (wrap_uint32 (len metadataBytes)))
  ++ metadataBytes
  ++ sectionHeaderBytes
       {| sh_SectionType := SectionMarkdown; sh_SectionFlags := mdFlags;
          sh_PayloadLen := len mdPayload; sh_Reserved := 0 |}
  ++ mdPayload
  ++ sectionHeaderBytes
       {| sh_SectionType := SectionMedia; sh_SectionFlags := mediaFlags;
          sh_PayloadLen := len mediaPayload; sh_Reserved := 0 |}
  ++ mediaPayload.

(** ** Vocabulary of the further properties *)

(** No field of [l] is zero. *)
Definition noZeroField (l : Limits) : Prop :=
  MaxMetadataLen l <> 0
  /\ MaxMarkdownSectionLen l <> 0
  /\ MaxMediaSectionLen l <> 0
  /\ MaxMarkdownUncompressed l <> 0
  /\ MaxMediaUncompressed l <> 0
  /\ MaxMarkdownFiles l <> 0
  /\ MaxMediaItems l <> 0
  /\ MaxSingleMarkdownFileSize l <> 0
  /\ MaxSingleMediaSize l <> 0.

(** The limits of the validator in [l'] are at least those of [l]. *)
Definition validatorLimitsLe (l l' : Limits) : Prop :=
  MaxMarkdownFiles l <= MaxMarkdownFiles l'
  /\ MaxMediaItems l <= MaxMediaItems l'
  /\ MaxSingleMarkdownFileSize l <= MaxSingleMarkdownFileSize l'
  /\ MaxSingleMediaSize l <= MaxSingleMediaSize l'.

(** The fields of a header hold values of their Go types: [[8]byte],
    [uint16], [uint32] and [uint64]. *)
Definition fixedHeaderFits (h : fixedHeaderV1) : Prop :=
  length (h_Magic h) = 8%nat
  /\ 0 <= h_Version h < 2 ^ 16
  /\ 0 <= h_HeaderFlags h < 2 ^ 16
  /\ 0 <= h_FixedHdrSize h < 2 ^ 32
  /\ 0 <= h_MetadataLength h < 2 ^ 32
  /\ 0 <= h_Reserved0 h < 2 ^ 32
  /\ 0 <= h_Reserved1 h < 2 ^ 64.

Definition sectionHeaderFits (sh : sectionHeaderV1) : Prop :=
  0 <= sh_SectionType sh < 2 ^ 16
  /\ 0 <= sh_SectionFlags sh < 2 ^ 16
  /\ 0 <= sh_PayloadLen sh < 2 ^ 64
  /\ 0 <= sh_Reserved sh < 2 ^ 32.

(** The two errors of [io.ReadFull]. *)
Definition endOfInput (e : error) : Prop := e = IoEOF \/ e = IoErrUnexpectedEOF.

(** The one entry that [zipDecompress] accepts for [expected] bytes. *)
Definition payloadEntry (zf : zipFile) (expected : Z) : Prop :=
  zf_Name zf = "payload.gob"%string
  /\ zf_IsDir zf = false
  /\ zf_UncompressedSize64 zf = expected.

(** The library behind [comp] gives back [gobBytes] from what it has
    made of them: the archive has the one entry that was put into it, the
    other three streams end where the data ends. *)
Definition libraryRoundTrip `{L : Libs} (comp : Z) (gobBytes : bytes) : Prop :=
  if comp =? CompZIP then
    forall z, zip_Archive "payload.gob" gobBytes = Done z ->
      exists zf, zip_NewReader z = Done [zf]
                 /\ payloadEntry zf (len gobBytes)
                 /\ zf_Open zf = Done {| st_data := gobBytes; st_err := None |}
  else if comp =? CompZSTD then
    forall c, zstd_EncodeAll gobBytes = Done c -> zstd_DecodeAll c = Done gobBytes
  else if comp =? CompLZ4 then
    forall c, lz4_Compress gobBytes = Done c ->
      lz4_NewReader c = {| st_data := gobBytes; st_err := None |}
  else if comp =? CompBR then
    forall c, brotli_Compress gobBytes = Done c ->
      brotli_NewReader c = {| st_data := gobBytes; st_err := None |}
  else True.

(** A stream gives a number of bytes other than [declared]: more, or
    fewer before it ends without an error. *)
Definition yieldsOtherThan (s : stream) (declared : Z) : Prop :=
  declared < len (st_data s)
  \/ (len (st_data s) < declared /\ st_err s = None).

(** The libraries [L] with a ZIP reader that finds the entries [files] in
    whatever archive it is given. *)
Definition withZipFiles (L : Libs) (files : list zipFile) : Libs :=
  {| sha256_Sum256 := @sha256_Sum256 L;
     json_Marshal := @json_Marshal L;
     json_parse := @json_parse L;
     gob_Encode_MarkdownBundle := @gob_Encode_MarkdownBundle L;
     gob_Encode_MediaBundle := @gob_Encode_MediaBundle L;
     gob_Decode_MarkdownBundle := @gob_Decode_MarkdownBundle L;
     gob_Decode_MediaBundle := @gob_Decode_MediaBundle L;
     zip_Archive := @zip_Archive L;
     zip_NewReader := fun _ => Done files;
     zstd_EncodeAll := @zstd_EncodeAll L;
     zstd_DecodeAll := @zstd_DecodeAll L;
     lz4_Compress := @lz4_Compress L;
     lz4_NewReader := @lz4_NewReader L;
     brotli_Compress := @brotli_Compress L;
     brotli_NewReader := @brotli_NewReader L |}.

(** An archive entry [payload.gob] whose directory gives an uncompressed
    size of 3 and whose stream gives the four bytes [abcd]. *)
Definition overlongEntry : zipFile :=
  {| zf_Name := "payload.gob";
     zf_IsDir := false;
     zf_UncompressedSize64 := 3;
     zf_Open := Done {| st_data := ["a"; "b"; "c"; "d"]%byte; st_err := None |} |}.

(** The digest of a media item is wrong: neither zero nor the digest of
    its data. *)
Definition wrongDigest `{L : Libs} (it : MediaItem) : Prop :=
  mi_SHA256 it <> zeroSHA256 /\ mi_SHA256 it <> sha256_Sum256 (mi_Data it).

(** [doc] with the media items [items]. *)
Definition withMediaItems (doc : Document) (items : list MediaItem) : Document :=
  {| doc_Metadata := doc_Metadata doc;
     doc_Markdown := doc_Markdown doc;
     doc_Media :=
       {| media_BundleVersion := media_BundleVersion (doc_Media doc);
          media_Items := items |} |}.

(** Every check that [validateDocument] makes on [doc] before the hash
    check of the media item [first], which comes after the items [pre],
    passes: the checks of the Markdown bundle, of the version of the media
    bundle and of the number of its items, and the ID, path and size
    checks of [pre] and of [first]. *)
Definition passesUpTo `{L : Libs} (doc : Document) (limits : Limits)
    (pre : list MediaItem) (first : MediaItem) : Prop :=
  validateDocument (Some (withMediaItems doc (pre ++ [first]))) limits false = Ok tt
  /\ len (media_Items (doc_Media doc)) <= MaxMediaItems limits.

(** The header of a file in the first 32 bytes of [input]. *)
Definition headerIn (input : bytes) : fixedHeaderV1 :=
  parseFixedHeader (take 32 input).

(** What [validateDocument] looks at in a Markdown file and in a media
    item. *)
Definition checkedOfFile (f : MarkdownFile) : string * bytes :=
  (mf_Path f, mf_Content f).

Definition checkedOfItem (it : MediaItem) : string * string * bytes * bytes :=
  (mi_ID it, mi_Path it, mi_Data it, mi_SHA256 it).

(** What the loop over the Markdown files asks of one file. *)
Definition fileOk (limits : Limits) (f : MarkdownFile) : Prop :=
  validateContainerPath (mf_Path f) = Ok tt
  /\ utf8_Valid (mf_Content f) = true
  /\ len (mf_Content f) <= MaxSingleMarkdownFileSize limits.

(** What the loop over the media items asks of one item. *)
Definition itemOk `{L : Libs} (limits : Limits) (verifyHashes : bool) (it : MediaItem) : Prop :=
  isBlank (mi_ID it) = false
  /\ (mi_Path it = ""%string \/ validateContainerPath (mi_Path it) = Ok tt)
  /\ len (mi_Data it) <= MaxSingleMediaSize limits
  /\ (verifyHashes = true ->
      mi_SHA256 it = zeroSHA256 \/ sha256_Sum256 (mi_Data it) = mi_SHA256 it).

(** The configuration that [Encode] works with, and the document it
    validates and writes. *)
Definition writeConfigOf (opts : list WriteOption) : writeConfig :=
  let cfg0 := applyOptions defaultWriteConfig opts in
  {| wc_limits := withDefaults (wc_limits cfg0);
     wc_verifyHashes := wc_verifyHashes cfg0;
     wc_autoPopulate := wc_autoPopulate cfg0;
     wc_mdCompression := wc_mdCompression cfg0;
     wc_mediaCompression := wc_mediaCompression cfg0 |}.

Definition documentWritten `{L : Libs} (opts : list WriteOption) (doc : Document)
    : Document :=
  if wc_autoPopulate (writeConfigOf opts) then populateSHA256 doc else doc.

(** The configuration that [Decode] works with. *)
Definition readConfigOf (opts : list ReadOption) : readConfig :=
  let cfg := applyOptions defaultReadConfig opts in
  {| rc_limits := withDefaults (rc_limits cfg);
     rc_verifyHashes := rc_verifyHashes cfg |}.

(** The sentinels that the errors of a computation wrap are among [P]. *)
Definition kindsIn {A} (P : Sentinel -> Prop) (m : M A) : Prop :=
  forall r s, kind_of (fst (m r)) = Some s -> P s.

(** The sentinels of the steps of [Decode] that come after the header. *)
Definition sectionKind (s : Sentinel) : Prop :=
  s = ErrInvalidSection \/ s = ErrInvalidPayload \/ s = ErrLimitExceeded
  \/ s = ErrValidation.

(** A computation that reads its input from the front and looks at
    nothing behind what it reads: with more input behind, a run that
    succeeds is the same run and leaves the additional input unread, and
    a run that fails fails in the same way, unless it failed for want of
    input. *)
Definition frontReader {A} (m : M A) : Prop :=
  forall (a b : bytes) (tr : list Event),
    match m {| rd_rest := a; rd_trace := tr |} with
    | (Ok x, r1) =>
      m {| rd_rest := a ++ b; rd_trace := tr |}
      = (Ok x, {| rd_rest := rd_rest r1 ++ b; rd_trace := rd_trace r1 |})
    | (Err e, _) =>
      endOfInput e \/ fst (m {| rd_rest := a ++ b; rd_trace := tr |}) = Err e
    end.

(** ** The C exports of the shared library ([package main])

    [C.GoBytes(data, dataLen)] is the byte slice [data]; [C.int] is a
    32-bit integer.  A [MdocxResult] holds two C pointers, [NULL] being
    [None]; the C string of an error is the text of [err.Error()], kept
    here as the error itself. *)

(** [C.GoString(p)]: the bytes at [p] up to the first NUL.  The memory
    at [p] is a [string]; where it holds no NUL, all of it is the C
    string. *)
Fixpoint C_GoString (p : string) : string :=
  match p with
  | EmptyString => EmptyString
  | String c rest =>
    if Ascii.eqb c "000" then EmptyString else String c (C_GoString rest)
  end.

Definition wrap_int32 (z : Z) : Z := (z + 2 ^ 31) mod 2 ^ 32 - 2 ^ 31.

Inductive CString :=
| ErrorText (e : error)
| NotFound (id : string).

Record MdocxResult := {
  res_data : option bytes;
  res_data_len : Z;
  res_error : option CString
}.

Definition makeResult (data : bytes) : MdocxResult :=
  if len data >? 0 then
    {| res_data := Some data; res_data_len := wrap_int32 (len data);
       res_error := None |}
  else {| res_data := None; res_data_len := 0; res_error := None |}.

Definition makeError (e : error) : MdocxResult :=
  {| res_data := None; res_data_len := 0; res_error := Some (ErrorText e) |}.

Section CExports.
Context `{L : Libs}.

Definition MdocxGetMarkdownCount (data : bytes) : Z :=
  match fst (Decode data []) with
  | Err _ => -1
  | Ok doc => wrap_int32 (len (mb_Files (doc_Markdown doc)))
  end.

Definition MdocxGetMediaCount (data : bytes) : Z :=
  match fst (Decode data []) with
  | Err _ => -1
  | Ok doc => wrap_int32 (len (media_Items (doc_Media doc)))
  end.

(** [None] is the [NULL] of a success. *)
Definition MdocxValidate (data : bytes) : option CString :=
  match fst (Decode data []) with
  | Err e => Some (ErrorText e)
  | Ok _ => None
  end.

(** [id := C.GoString(mediaID)]; the loop over [doc.Media.Items] returns
    at the first item with that ID. *)
Definition MdocxDecodeGetMediaData (data : bytes) (mediaID : string) : MdocxResult :=
  let id := C_GoString mediaID in
  match fst (Decode data []) with
  | Err e => makeError e
  | Ok doc =>
    match List.find (fun item => String.eqb (mi_ID item) id)
            (media_Items (doc_Media doc)) with
    | Some item => makeResult (mi_Data item)
    | None =>
      {| res_data := None; res_data_len := 0; res_error := Some (NotFound id) |}
    end
  end.

End CExports.

(** ** Inputs of the further examples *)

(** [Limits{}] *)
Definition zeroLimits : Limits :=
  {| MaxMetadataLen := 0; MaxMarkdownSectionLen := 0; MaxMediaSectionLen := 0;
     MaxMarkdownUncompressed := 0; MaxMediaUncompressed := 0;
     MaxMarkdownFiles := 0; MaxMediaItems := 0;
     MaxSingleMarkdownFileSize := 0; MaxSingleMediaSize := 0 |}.

(** [sampleDoc] without its metadata, attributes and MIME type, and with
    a media reference that no media item answers. *)
Definition danglingDoc : Document :=
  {| doc_Metadata := None;
     doc_Markdown :=
       {| mb_BundleVersion := VersionV1;
          mb_RootPath := "docs/index.md";
          mb_Files :=
            [ {| mf_Path := "docs/index.md";
                 mf_Content := list_byte_of_string "# Hello";
                 mf_MediaRefs := ["nowhere"%string];
                 mf_Attributes := ∅ |};
              {| mf_Path := "docs/notes.md";
                 mf_Content := list_byte_of_string "Some notes";
                 mf_MediaRefs := [];
                 mf_Attributes := ∅ |} ] |};
     doc_Media :=
       {| media_BundleVersion := VersionV1;
          media_Items :=
            [ {| mi_ID := "logo";
                 mi_Path := "assets/logo.png";
                 mi_MIMEType := "";
                 mi_Data := [x01; x02; x03];
                 mi_SHA256 := zeroSHA256;
                 mi_Attributes := ∅ |} ] |} |}.

(** [badHashDoc] with its media item twice: the second is refused for its
    ID, with or without hash verification. *)
Definition twiceBadDoc : Document := withMediaItems badHashDoc [badHashItem; badHashItem].

(** The options of the package's tests that switch compression off. *)
Definition uncompressedOptions : list WriteOption :=
  [WithMarkdownCompression CompNone; WithMediaCompression CompNone].

(** The header of [TestWireRoundtrip]. *)
Definition wireHeader : fixedHeaderV1 := headerOf HeaderFlagMetadataJSON 123.

Definition wireSectionHeader : sectionHeaderV1 :=
  {| sh_SectionType := SectionMarkdown;
     sh_SectionFlags := Z.lor CompZSTD sectionFlagHasUncompressedLen;
     sh_PayloadLen := 5;
     sh_Reserved := 0 |}.

(** A fixed header of version 2 that declares 33 bytes. *)
Definition oddSizeInput : bytes :=
  fixedHeaderBytes
    {| h_Magic := Magic; h_Version := 2; h_HeaderFlags := 0; h_FixedHdrSize := 33;
       h_MetadataLength := 0; h_Reserved0 := 0; h_Reserved1 := 0 |}.

(** A Media section header where the Markdown section is expected. *)
Definition mediaFirstHeader : sectionHeaderV1 :=
  {| sh_SectionType := SectionMedia; sh_SectionFlags := CompNone;
     sh_PayloadLen := 0; sh_Reserved := 0 |}.

(** A Markdown section header that declares one byte more than 1 GiB. *)
Definition hugeSectionHeader : sectionHeaderV1 :=
  {| sh_SectionType := SectionMarkdown; sh_SectionFlags := CompNone;
     sh_PayloadLen := Z.shiftl 1 30 + 1; sh_Reserved := 0 |}.

(** * Properties *)

(** ** Integers, bytes and lists *)

Lemma len_nonneg {A} (l : list A) : 0 <= len l.
Proof. unfold len. lia. Qed.

Lemma len_app {A} (l1 l2 : list A) : len (l1 ++ l2) = len l1 + len l2.
Proof. unfold len. rewrite length_app. lia. Qed.

Lemma len_nil {A} : len (@nil A) = 0.
Proof. reflexivity. Qed.

Lemma len_cons {A} (x : A) (l : list A) : len (x :: l) = 1 + len l.
Proof. unfold len. cbn [length]. lia. Qed.

Lemma land_bit4 (a : Z) :
  Z.land a sectionFlagHasUncompressedLen = if Z.testbit a 4 then 16 else 0.
Proof.
  apply Z.bits_inj'. intros n Hn.
  rewrite Z.land_spec.
  change sectionFlagHasUncompressedLen with (2 ^ 4).
  rewrite Z.pow2_bits_eqb by lia.
  destruct (Z.eqb_spec 4 n) as [<- | Hne].
  - rewrite andb_true_r. destruct (Z.testbit a 4); reflexivity.
  - rewrite andb_false_r.
    destruct (Z.testbit a 4).
    + change 16 with (2 ^ 4). rewrite Z.pow2_bits_eqb by lia.
      symmetry. apply Z.eqb_neq. exact Hne.
    + symmetry. apply Z.bits_0.
Qed.

Lemma hasLen_testbit (flags : Z) :
  negb (Z.land flags sectionFlagHasUncompressedLen =? 0) = Z.testbit flags 4.
Proof. rewrite land_bit4. destruct (Z.testbit flags 4); reflexivity. Qed.

Lemma compression_mod16 (sh : sectionHeaderV1) :
  compression sh = sh_SectionFlags sh mod 16.
Proof.
  unfold compression. change sectionFlagCompressionMask with (Z.ones 4).
  rewrite Z.land_ones by lia. reflexivity.
Qed.

Lemma knownCompression_range (comp : Z) :
  knownCompression comp = true <-> 0 <= comp <= 4.
Proof.
  unfold knownCompression, CompNone, CompZIP, CompZSTD, CompLZ4, CompBR.
  rewrite !orb_true_iff, !Z.eqb_eq. lia.
Qed.

(** ** wire.go: the section header check *)

(** C4.  [validateSectionHeader] accepts a section header exactly when its
    reserved field is 0, its type is the expected one, the compression id
    in the low four bits of its flags is one of 0..4, and bit 0x0010 of the
    flags is clear for id 0 and set for every other id; every header it
    refuses is refused with [ErrInvalidSection]. *)
Theorem validateSectionHeader_accepts_iff (sh : sectionHeaderV1) (expected : Z) :
  (validateSectionHeader sh expected = Ok tt <->
     sh_Reserved sh = 0
     /\ sh_SectionType sh = expected
     /\ 0 <= sh_SectionFlags sh mod 16 <= 4
     /\ Z.testbit (sh_SectionFlags sh) 4 = negb (sh_SectionFlags sh mod 16 =? 0))
  /\ (validateSectionHeader sh expected = Ok tt
      \/ exists msg, validateSectionHeader sh expected
                     = Err (Wrapped ErrInvalidSection msg)).
Proof.
  unfold validateSectionHeader, hasUncompressedLen.
  rewrite hasLen_testbit, compression_mod16.
  destruct (Z.eqb_spec (sh_Reserved sh) 0) as [Hr | Hr]; cbn [negb].
  2: { split; [split; [discriminate | tauto] | right; eauto]. }
  destruct (Z.eqb_spec (sh_SectionType sh) expected) as [Ht | Ht]; cbn [negb].
  2: { split; [split; [discriminate | tauto] | right; eauto]. }
  destruct (knownCompression (sh_SectionFlags sh mod 16)) eqn:Hk; cbn [negb].
  2: { split; [split; [discriminate |] | right; eauto].
       intros (_ & _ & Hrange & _).
       apply knownCompression_range in Hrange. congruence. }
  apply knownCompression_range in Hk.
  unfold CompNone.
  destruct (Z.eqb_spec (sh_SectionFlags sh mod 16) 0) as [Hc | Hc];
    destruct (Z.testbit (sh_SectionFlags sh) 4); cbn [negb];
    (split; [split; [first [discriminate | tauto] | first [tauto | intros (_ & _ & _ & ?); discriminate]] | eauto]).
Qed.

(** ** compress.go: the envelope *)

Section CompressProperties.
Context `{L : Libs}.

Lemma decompressor_none : decompressor CompNone = None.
Proof. reflexivity. Qed.

(** What the four routines return never exceeds the expected size when it
    comes from a stream read under a limit. *)
Lemma readAllLimit_len (s : stream) (n : Z) (b : bytes) :
  readAllLimit s n = Ok b -> len b <= Z.max 0 n.
Proof.
  unfold readAllLimit.
  destruct (Z.leb_spec n 0) as [Hn | Hn].
  - intros [= <-]. rewrite len_nil. lia.
  - destruct (Z.leb_spec n (len (st_data s))) as [Hle | Hgt].
    + intros [= <-]. unfold len in *. rewrite length_take. lia.
    + destruct (st_err s); [discriminate |]. intros [= <-]. lia.
Qed.

(** C2.  For a compression other than [CompNone], flags with the
    uncompressed-length bit set and a payload of eight bytes at least whose
    declared uncompressed length exceeds [maxUncompressed],
    [decompressPayload] fails with [ErrLimitExceeded] and has called no
    decompression routine: its trace is empty, whatever the libraries are
    and whatever follows the eight bytes. *)
Theorem decompressPayload_bomb_guard (comp sectionFlags : Z) (payload : bytes)
    (maxUncompressed : Z) :
  comp <> CompNone ->
  Z.testbit sectionFlags 4 = true ->
  8 <= len payload ->
  maxUncompressed < le_get (take 8 payload) ->
  exists msg,
    decompressPayload comp sectionFlags payload maxUncompressed
    = (Err (Wrapped ErrLimitExceeded msg), []).
Proof.
  intros Hcomp Hbit Hlen Hmax.
  unfold decompressPayload.
  rewrite hasLen_testbit, Hbit.
  destruct (Z.eqb_spec comp CompNone) as [? | _]; [contradiction |].
  cbn [negb].
  destruct (Z.ltb_spec (len payload) 8) as [? | _]; [lia |].
  unfold Uint64. rewrite take_take, Nat.min_id.
  destruct (Z.gtb_spec (le_get (take 8 payload)) maxUncompressed) as [_ | ?]; [| lia].
  eauto.
Qed.

(** The last check of [decompressPayload]: what it returns on success
    has the length that the first eight bytes of the payload declare, and
    bytes of another length that a routine hands back are refused. *)
Lemma decompressPayload_length_checked (comp sectionFlags : Z)
    (payload : bytes) (maxUncompressed : Z) :
  comp <> CompNone ->
  (forall out,
     fst (decompressPayload comp sectionFlags payload maxUncompressed) = Ok out ->
     len out = le_get (take 8 payload))
  /\ (forall routine out,
        decompressor comp = Some routine ->
        le_get (take 8 payload) <= maxUncompressed ->
        routine (drop 8 payload) (le_get (take 8 payload)) = Ok out ->
        len out <> le_get (take 8 payload) ->
        exists msg,
          fst (decompressPayload comp sectionFlags payload maxUncompressed)
          = Err (Wrapped ErrInvalidPayload msg)).
Proof.
  intros Hcomp.
  unfold decompressPayload, Uint64. rewrite take_take, Nat.min_id.
  destruct (Z.eqb_spec comp CompNone) as [? | _]; [contradiction |].
  split.
  - intros out.
    destruct (negb (negb _)); [discriminate |].
    destruct (len payload <? 8); [discriminate |].
    destruct (le_get (take 8 payload) >? maxUncompressed); [discriminate |].
    destruct (decompressor comp) as [f |]; [| discriminate].
    cbn [fst].
    destruct (f _ _) as [out' | e]; [| discriminate].
    destruct (Z.eqb_spec (len out') (le_get (take 8 payload))) as [Heq | Hne];
      cbn [negb]; [| discriminate].
    intros [= <-]. exact Heq.
  - intros routine out Hroutine Hmax Hout Hne.
    destruct (negb (negb _)); [cbn; eauto |].
    destruct (len payload <? 8); [cbn; eauto |].
    destruct (Z.gtb_spec (le_get (take 8 payload)) maxUncompressed) as [? | _]; [lia |].
    rewrite Hroutine. cbn [fst]. rewrite Hout.
    destruct (Z.eqb_spec (len out) (le_get (take 8 payload))) as [? | _];
      [contradiction |].
    cbn [negb]. eauto.
Qed.



End CompressProperties.

Lemma decompressPayload_bomb_guard_witness :
  exists msg,
    decompressPayload (L := testLibs) CompZSTD 0x12 (PutUint64 10) 1
    = (Err (Wrapped ErrLimitExceeded msg), []).
Proof.
  apply (decompressPayload_bomb_guard (L := testLibs) CompZSTD 0x12 (PutUint64 10) 1).
  - discriminate.
  - reflexivity.
  - vm_compute. discriminate.
  - vm_compute. reflexivity.
Defined.

(** The four routines never hand back more than the expected size. *)
Lemma wrap_int64_le (expected : Z) :
  0 <= expected < 2 ^ 64 -> wrap_int64 expected <= expected.
Proof.
  intros Hr. unfold wrap_int64.
  destruct (Z.lt_ge_cases expected (2 ^ 63)) as [Hlt | Hge].
  - rewrite Z.mod_small by lia. lia.
  - replace (expected + 2 ^ 63) with (expected - 2 ^ 63 + 1 * 2 ^ 64) by lia.
    rewrite Z.mod_add by lia. rewrite Z.mod_small by lia. lia.
Qed.

Lemma decompressor_bounded `{L : Libs} (comp : Z)
    (routine : bytes -> Z -> result bytes) (input : bytes) (expected : Z)
    (out : bytes) :
  decompressor comp = Some routine ->
  0 <= expected < 2 ^ 64 ->
  routine input expected = Ok out ->
  len out <= expected.
Proof.
  unfold decompressor. intros Hroutine Hr.
  repeat (match type of Hroutine with
          | context [if ?b then _ else _] => destruct b
          end);
    injection Hroutine as <- || discriminate.
  - unfold zipDecompress.
    destruct (ext (zip_NewReader input)) as [files | e]; cbn [rbind]; [| discriminate].
    destruct files as [| zf [| ? ?]]; try discriminate.
    repeat (match goal with |- context [if ?b then _ else _] => destruct b end);
      try discriminate.
    destruct (ext (zf_Open zf)) as [rc | e]; cbn [rbind]; [| discriminate].
    intros Hread. apply readAllLimit_len in Hread.
    pose proof (wrap_int64_le expected Hr). lia.
  - unfold zstdDecompress.
    destruct (ext (zstd_DecodeAll input)) as [b | e]; cbn [rbind]; [| discriminate].
    destruct (Z.gtb_spec (len b) expected); [discriminate |].
    intros [= <-]. assumption.
  - unfold lz4Decompress.
    destruct (readAllLimit _ _) as [b | e]; cbn [rbind]; [| discriminate].
    destruct (Z.gtb_spec (len b) expected); [discriminate |].
    intros [= <-]. assumption.
  - unfold brotliDecompress.
    destruct (readAllLimit _ _) as [b | e]; cbn [rbind]; [| discriminate].
    destruct (Z.gtb_spec (len b) expected); [discriminate |].
    intros [= <-]. assumption.
Qed.

(** ** validate.go: container paths *)

(** C5.  [validateContainerPath] accepts ["docs/readme.md"]; it refuses
    the empty string, ["/abs"], [a\b], ["a//b"], ["a/./b"], ["a/../b"],
    ["."], [".."], ["../x"] and ["a/"]; and in general it accepts exactly
    the strings that are not blank, do not start with a slash, hold no
    backslash, are equal to their cleaned form, are neither ["."] nor
    [".."] and do not start with ["../"]. *)
Theorem validateContainerPath_accepts_iff :
  validateContainerPath "docs/readme.md" = Ok tt
  /\ Forall (fun p => exists msg, validateContainerPath p = Err (Plain msg))
       [""; "/abs"; "a\b"; "a//b"; "a/./b"; "a/../b"; "."; ".."; "../x"; "a/"]%string
  /\ forall p : string,
       validateContainerPath p = Ok tt <->
         isBlank p = false
         /\ strings_HasPrefix p "/" = false
         /\ containsByte "\"%char p = false
         /\ path_Clean p = p
         /\ p <> "."%string
         /\ p <> ".."%string
         /\ strings_HasPrefix p "../" = false.
Proof.
  split; [reflexivity |].
  split.
  { repeat (apply List.Forall_cons; [vm_compute; eexists; reflexivity |]).
    apply List.Forall_nil. }
  intros p. unfold validateContainerPath.
  destruct (isBlank p); [split; [discriminate | intros (? & _); discriminate] |].
  destruct (strings_HasPrefix p "/");
    [split; [discriminate | intros (_ & ? & _); discriminate] |].
  destruct (containsByte "\"%char p);
    [split; [discriminate | intros (_ & _ & ? & _); discriminate] |].
  destruct (String.eqb_spec (path_Clean p) p) as [Hclean | Hclean]; cbn [negb].
  2: { split; [discriminate | intros (_ & _ & _ & ? & _); contradiction]. }
  rewrite Hclean.
  destruct (String.eqb_spec p ".") as [Hdot | Hdot].
  { split; [discriminate | intros (_ & _ & _ & _ & ? & _); contradiction]. }
  destruct (String.eqb_spec p "..") as [Hdd | Hdd]; cbn [orb].
  { split; [discriminate | intros (_ & _ & _ & _ & _ & ? & _); contradiction]. }
  destruct (strings_HasPrefix p "../").
  { split; [discriminate | intros (_ & _ & _ & _ & _ & _ & ?); discriminate]. }
  tauto.
Qed.

(** ** encode.go: what [Encode] does to the document *)

Section EncodeFrame.
Context `{L : Libs}.

Lemma populateItem_unchanged (it : MediaItem) :
  itemUnchangedButSHA256 it (populateItem it).
Proof.
  unfold itemUnchangedButSHA256, populateItem.
  case_bool_decide as Hz; cbn; repeat split; auto.
Qed.

Lemma item_unchanged_refl (it : MediaItem) : itemUnchangedButSHA256 it it.
Proof. unfold itemUnchangedButSHA256. repeat split; auto. Qed.

Lemma snd_Encode {W} `{Writer W} (w : W) (doc : option Document)
    (opts : list WriteOption) :
  snd (Encode w doc opts)
  = if wc_autoPopulate (applyOptions defaultWriteConfig opts)
    then populateSHA256 <$> doc else doc.
Proof.
  unfold Encode. destruct doc as [d |]; cbv zeta.
  - match goal with
    | |- context [encodeDocument ?c ?x w] => destruct (encodeDocument c x w) as [r w']
    end.
    cbn. destruct (wc_autoPopulate _); reflexivity.
  - destruct (wc_autoPopulate _); reflexivity.
Qed.

(** C9.  Whatever the writer, the document and the options, and whether
    [Encode] succeeds or fails, the document it leaves is the document it
    was given but for digests that were zero and are now the digest of
    their item's data; and unless auto-population is on, the document is
    left as it was. *)
Theorem Encode_frame {W} `{Writer W} (w : W) (doc : option Document)
    (opts : list WriteOption) :
  unchangedButSHA256 doc (snd (Encode w doc opts))
  /\ (wc_autoPopulate (applyOptions defaultWriteConfig opts) = true
      \/ snd (Encode w doc opts) = doc).
Proof.
  rewrite snd_Encode.
  destruct (wc_autoPopulate _); (split; [| auto]).
  - destruct doc as [d |]; cbn; [| exact I].
    repeat split.
    induction (media_Items (doc_Media d)) as [| it items IH]; cbn.
    + constructor.
    + constructor; [apply populateItem_unchanged | exact IH].
  - destruct doc as [d |]; cbn; [| exact I].
    repeat split.
    induction (media_Items (doc_Media d)) as [| it items IH].
    + constructor.
    + constructor; [apply item_unchanged_refl | exact IH].
Qed.

End EncodeFrame.

(** [TestEncodeWriterError]: a writer that gives up after ten bytes makes
    [Encode] fail with the writer's error; the document has its digest
    set all the same. *)
Example Encode_failingWriter :
  Encode (L := testLibs) {| fw_n := 10 |} (Some sampleDoc)
    [WithMarkdownCompression CompNone; WithMediaCompression CompNone]
  = (Err (External "io: read/write on closed pipe"), {| fw_n := 0 |},
     Some (populateSHA256 (L := testLibs) sampleDoc)).
Proof. vm_compute. reflexivity. Qed.

(** ** validate.go: the errors of the validator and the hash check *)

Lemma validatorError_V (msg : string) : validatorError (Wrapped ErrValidation msg).
Proof. exists ErrValidation, msg. auto. Qed.

Lemma validatorError_L (msg : string) : validatorError (Wrapped ErrLimitExceeded msg).
Proof. exists ErrLimitExceeded, msg. auto. Qed.

Create HintDb validator.
#[local] Hint Resolve validatorError_V validatorError_L : validator.

Section ValidateProperties.
Context `{L : Libs}.

Lemma validateMarkdownFiles_kinds (limits : Limits) (files : list MarkdownFile) :
  forall seen, okOrValidatorError (validateMarkdownFiles limits seen files).
Proof.
  induction files as [| f files IH]; intros seen; cbn; [exact I |].
  destruct (validateContainerPath (mf_Path f)); cbn; auto with validator.
  case_bool_decide; cbn; auto with validator.
  destruct (utf8_Valid (mf_Content f)); cbn; auto with validator.
  destruct (len (mf_Content f) >? _); cbn; auto with validator.
Qed.

Lemma checkSHA256_kinds (verifyHashes : bool) (it : MediaItem) :
  okOrValidatorError (checkSHA256 verifyHashes it).
Proof.
  unfold checkSHA256.
  destruct verifyHashes; cbn; [| exact I].
  repeat (case_bool_decide; cbn); auto with validator.
Qed.

Lemma validateMediaItems_kinds (limits : Limits) (verifyHashes : bool)
    (items : list MediaItem) :
  forall seen, okOrValidatorError (validateMediaItems limits verifyHashes seen items).
Proof.
  induction items as [| it items IH]; intros seen; cbn; [exact I |].
  destruct (isBlank (mi_ID it)); cbn; auto with validator.
  case_bool_decide; cbn; auto with validator.
  destruct (if negb (String.eqb (mi_Path it) "") then _ else _);
    cbn; auto with validator.
  destruct (len (mi_Data it) >? _); cbn; auto with validator.
  pose proof (checkSHA256_kinds verifyHashes it) as Hc.
  destruct (checkSHA256 verifyHashes it); cbn; auto.
Qed.

Lemma validateDocument_kinds (doc : option Document) (limits : Limits)
    (verifyHashes : bool) :
  okOrValidatorError (validateDocument doc limits verifyHashes).
Proof.
  destruct doc as [doc |]; cbn; auto with validator.
  destruct (mb_BundleVersion (doc_Markdown doc) =? VersionV1);
    cbn; auto with validator.
  destruct (len (mb_Files (doc_Markdown doc)) =? 0); cbn; auto with validator.
  destruct (len (mb_Files (doc_Markdown doc)) >? _); cbn; auto with validator.
  destruct (if negb (String.eqb (mb_RootPath (doc_Markdown doc)) "") then _ else _);
    cbn; auto with validator.
  pose proof (validateMarkdownFiles_kinds limits (mb_Files (doc_Markdown doc)) ∅) as Hm.
  destruct (validateMarkdownFiles _ _ _); cbn; auto.
  destruct (media_BundleVersion (doc_Media doc) =? VersionV1);
    cbn; auto with validator.
  destruct (len (media_Items (doc_Media doc)) >? _); cbn; auto with validator.
  apply validateMediaItems_kinds.
Qed.

(** Without hash verification the validator never reports a mismatch. *)
Lemma validateMediaItems_off_no_mismatch (limits : Limits) (items : list MediaItem) :
  forall seen, validateMediaItems limits false seen items <> Err mismatchError.
Proof.
  induction items as [| it items IH]; intros seen; cbn; [discriminate |].
  destruct (isBlank (mi_ID it)); [discriminate |].
  case_bool_decide; [discriminate |].
  destruct (if negb (String.eqb (mi_Path it) "") then _ else _); [| discriminate].
  destruct (len (mi_Data it) >? _); [discriminate |].
  apply IH.
Qed.

Lemma validateMarkdownFiles_no_mismatch (limits : Limits) (files : list MarkdownFile) :
  forall seen, validateMarkdownFiles limits seen files <> Err mismatchError.
Proof.
  induction files as [| f files IH]; intros seen; cbn; [discriminate |].
  destruct (validateContainerPath (mf_Path f)); [| discriminate].
  case_bool_decide; [discriminate |].
  destruct (utf8_Valid (mf_Content f)); cbn; [| discriminate].
  destruct (len (mf_Content f) >? _); [discriminate |].
  apply IH.
Qed.

Lemma validateDocument_off_no_mismatch (doc : option Document) (limits : Limits) :
  validateDocument doc limits false <> Err mismatchError.
Proof.
  destruct doc as [doc |]; cbn; [| discriminate].
  destruct (mb_BundleVersion (doc_Markdown doc) =? VersionV1); cbn; [| discriminate].
  destruct (len (mb_Files (doc_Markdown doc)) =? 0); [discriminate |].
  destruct (len (mb_Files (doc_Markdown doc)) >? _); [discriminate |].
  destruct (if negb (String.eqb (mb_RootPath (doc_Markdown doc)) "") then _ else _);
    [| discriminate].
  pose proof (validateMarkdownFiles_no_mismatch limits (mb_Files (doc_Markdown doc)) ∅).
  destruct (validateMarkdownFiles _ _ _); cbn; [| congruence].
  destruct (media_BundleVersion (doc_Media doc) =? VersionV1); cbn; [| discriminate].
  destruct (len (media_Items (doc_Media doc)) >? _); [discriminate |].
  apply validateMediaItems_off_no_mismatch.
Qed.

(** Without hash verification the validator does not look at the digest
    function. *)
Lemma validateMediaItems_off_digest (digest : bytes -> bytes) (limits : Limits)
    (items : list MediaItem) :
  forall seen,
    validateMediaItems (L := withSHA256 L digest) limits false seen items
    = validateMediaItems limits false seen items.
Proof.
  induction items as [| it items IH]; intros seen; cbn; [reflexivity |].
  destruct (isBlank (mi_ID it)); [reflexivity |].
  case_bool_decide; [reflexivity |].
  destruct (if negb (String.eqb (mi_Path it) "") then _ else _); [| reflexivity].
  destruct (len (mi_Data it) >? _); [reflexivity |].
  apply IH.
Qed.

Lemma validateDocument_off_digest (digest : bytes -> bytes)
    (doc : option Document) (limits : Limits) :
  validateDocument (L := withSHA256 L digest) doc limits false
  = validateDocument doc limits false.
Proof.
  destruct doc as [doc |]; cbn; [| reflexivity].
  destruct (mb_BundleVersion (doc_Markdown doc) =? VersionV1); cbn; [| reflexivity].
  destruct (len (mb_Files (doc_Markdown doc)) =? 0); [reflexivity |].
  destruct (len (mb_Files (doc_Markdown doc)) >? _); [reflexivity |].
  destruct (if negb (String.eqb (mb_RootPath (doc_Markdown doc)) "") then _ else _);
    [| reflexivity].
  destruct (validateMarkdownFiles _ _ _); cbn; [| reflexivity].
  destruct (media_BundleVersion (doc_Media doc) =? VersionV1); cbn; [| reflexivity].
  destruct (len (media_Items (doc_Media doc)) >? _); [reflexivity |].
  apply validateMediaItems_off_digest.
Qed.

(** The hash check after auto-population. *)
Lemma checkSHA256_populateItem (it : MediaItem) :
  checkSHA256 true (populateItem it)
  = if bool_decide (mi_SHA256 it = zeroSHA256) then Ok tt
    else if bool_decide (sha256_Sum256 (mi_Data it) = mi_SHA256 it) then Ok tt
    else Err mismatchError.
Proof.
  unfold populateItem.
  destruct (decide (mi_SHA256 it = zeroSHA256)) as [Hz | Hz].
  - rewrite !(bool_decide_true _ Hz).
    unfold checkSHA256, computedSHA256. cbn [mi_SHA256 mi_Data].
    case_bool_decide; cbn [negb]; [reflexivity |].
    rewrite bool_decide_true by reflexivity. reflexivity.
  - rewrite !(bool_decide_false _ Hz).
    unfold checkSHA256, computedSHA256. rewrite (bool_decide_false _ Hz).
    cbn [negb]. case_bool_decide; reflexivity.
Qed.

Lemma populateItem_fields (it : MediaItem) :
  mi_ID (populateItem it) = mi_ID it
  /\ mi_Path (populateItem it) = mi_Path it
  /\ mi_Data (populateItem it) = mi_Data it.
Proof. unfold populateItem. case_bool_decide; auto. Qed.

(** With hash verification, the validator on the auto-populated items
    gives what it gives on the items without hash verification, unless it
    meets a mismatch first; and it does not accept a mismatch. *)
Lemma validateMediaItems_populated (limits : Limits) (items : list MediaItem) :
  forall seen,
    let r1 := validateMediaItems limits true seen (map populateItem items) in
    let r0 := validateMediaItems limits false seen items in
    (r1 = r0 \/ r1 = Err mismatchError)
    /\ ((exists it, it ∈ items /\ mi_SHA256 it <> zeroSHA256
                    /\ mi_SHA256 it <> sha256_Sum256 (mi_Data it))
        -> r1 <> Ok tt).
Proof.
  induction items as [| it items IH]; intros seen; cbn zeta.
  { split; [left; reflexivity |]. intros (it & Hin & _). inversion Hin. }
  cbn [map validateMediaItems].
  destruct (populateItem_fields it) as (-> & -> & ->).
  destruct (isBlank (mi_ID it)); [split; [auto | discriminate] |].
  case_bool_decide; [split; [auto | discriminate] |].
  destruct (if negb (String.eqb (mi_Path it) "") then _ else _);
    [| split; [auto | discriminate]].
  destruct (len (mi_Data it) >? _); [split; [auto | discriminate] |].
  rewrite checkSHA256_populateItem.
  change (checkSHA256 false it) with (Ok tt).
  specialize (IH ({[mi_ID it]} ∪ seen)). cbn zeta in IH. destruct IH as [IH1 IH2].
  case_bool_decide as Hz; cbn [rbind].
  - split; [exact IH1 |].
    intros (it' & Hin & Hnz & Hne). apply IH2.
    apply elem_of_cons in Hin as [-> | Hin]; [contradiction |]. eauto.
  - case_bool_decide as Hd; cbn [rbind].
    + split; [exact IH1 |].
      intros (it' & Hin & Hnz & Hne). apply IH2.
      apply elem_of_cons in Hin as [-> | Hin]; [congruence |]. eauto.
    + split; [right; reflexivity | discriminate].
Qed.

Lemma validateDocument_populated (doc : Document) (limits : Limits) :
  let r1 := validateDocument (Some (populateSHA256 doc)) limits true in
  let r0 := validateDocument (Some doc) limits false in
  (r1 = r0 \/ r1 = Err mismatchError)
  /\ ((exists it, it ∈ media_Items (doc_Media doc) /\ mi_SHA256 it <> zeroSHA256
                  /\ mi_SHA256 it <> sha256_Sum256 (mi_Data it))
      -> r1 <> Ok tt).
Proof.
  cbn.
  destruct (mb_BundleVersion (doc_Markdown doc) =? VersionV1); cbn;
    [| split; [auto | discriminate]].
  destruct (len (mb_Files (doc_Markdown doc)) =? 0); [split; [auto | discriminate] |].
  destruct (len (mb_Files (doc_Markdown doc)) >? _); [split; [auto | discriminate] |].
  destruct (if negb (String.eqb (mb_RootPath (doc_Markdown doc)) "") then _ else _);
    [| split; [auto | discriminate]].
  destruct (validateMarkdownFiles _ _ _); cbn; [| split; [auto | discriminate]].
  destruct (media_BundleVersion (doc_Media doc) =? VersionV1); cbn;
    [| split; [auto | discriminate]].
  replace (len (map populateItem (media_Items (doc_Media doc))))
    with (len (media_Items (doc_Media doc)))
    by (unfold len; rewrite length_map; reflexivity).
  destruct (len (media_Items (doc_Media doc)) >? _); [split; [auto | discriminate] |].
  apply validateMediaItems_populated.
Qed.

End ValidateProperties.

(** ** decode.go: which errors each step can end in *)

Section DecodeErrors.
Context `{L : Libs}.

Lemma never_mbind {A B} (e0 : error) (m : M A) (k : A -> M B) :
  neverEndsIn e0 m -> (forall a, neverEndsIn e0 (k a)) -> neverEndsIn e0 (mbind m k).
Proof.
  intros Hm Hk r. unfold mbind.
  specialize (Hm r). destruct (m r) as [[a | e] r']; cbn in *.
  - apply Hk.
  - intros [= ->]. apply Hm. reflexivity.
Qed.

Lemma never_mret {A} (e0 : error) (a : A) : neverEndsIn e0 (mret a).
Proof. intros r. discriminate. Qed.

Lemma never_mfail {A} (e0 e : error) : e <> e0 -> neverEndsIn e0 (@mfail A e).
Proof. intros Hne r. cbn. congruence. Qed.

Lemma never_mlift {A} (e0 : error) (x : result A) :
  x <> Err e0 -> neverEndsIn e0 (mlift x).
Proof. intros Hne r. exact Hne. Qed.

Lemma never_io_ReadFull (s : Sentinel) (msg : string) (n : Z) :
  neverEndsIn (Wrapped s msg) (io_ReadFull n).
Proof.
  intros r. unfold io_ReadFull.
  repeat (match goal with |- context [if ?b then _ else _] => destruct b end);
    discriminate.
Qed.

Lemma never_readSectionHeader (s : Sentinel) (msg : string) :
  neverEndsIn (Wrapped s msg) readSectionHeader.
Proof.
  apply never_mbind; [apply never_io_ReadFull | intros; apply never_mret].
Qed.

Lemma validateSectionHeader_error (sh : sectionHeaderV1) (expected : Z) (e : error) :
  validateSectionHeader sh expected = Err e ->
  exists msg, e = Wrapped ErrInvalidSection msg.
Proof.
  unfold validateSectionHeader.
  repeat (match goal with |- context [if ?b then _ else _] => destruct b end);
    intros [= <-]; eauto.
Qed.

Lemma ext_error {A} (o : outcome A) (e : error) :
  ext o = Err e -> exists text, e = External text.
Proof. destruct o; intros [= <-]; eauto. Qed.

Lemma readAllLimit_error (s : stream) (n : Z) (e : error) :
  readAllLimit s n = Err e -> exists text, e = External text.
Proof.
  unfold readAllLimit.
  destruct (n <=? 0); [discriminate |].
  destruct (n <=? len (st_data s)); [discriminate |].
  destruct (st_err s); intros [= <-]; eauto.
Qed.

Lemma decompressor_error (comp : Z) (routine : bytes -> Z -> result bytes)
    (input : bytes) (expected : Z) (e : error) :
  decompressor comp = Some routine ->
  routine input expected = Err e ->
  envelopeError e.
Proof.
  unfold decompressor, envelopeError.
  repeat (match goal with |- context [if ?b then _ else _] => destruct b end);
    intros [= <-]; try discriminate.
  - unfold zipDecompress.
    destruct (ext (zip_NewReader input)) as [files | e'] eqn:Hfiles; cbn.
    2: { intros [= <-]. left. eapply ext_error, Hfiles. }
    destruct files as [| zf [| ? ?]]; try (intros [= <-]; eauto).
    repeat (match goal with |- context [if ?b then _ else _] => destruct b end);
      try (intros [= <-]; eauto).
    destruct (ext (zf_Open zf)) as [rc | e'] eqn:Hopen; cbn.
    2: { intros [= <-]. left. eapply ext_error, Hopen. }
    intros He. left. eapply readAllLimit_error, He.
  - unfold zstdDecompress.
    destruct (ext (zstd_DecodeAll input)) as [out | e'] eqn:Hout; cbn.
    2: { intros [= <-]. left. eapply ext_error, Hout. }
    destruct (len out >? expected); intros [= <-]; eauto.
  - unfold lz4Decompress.
    destruct (readAllLimit _ _) as [b | e'] eqn:Hb; cbn.
    2: { intros [= <-]. left. eapply readAllLimit_error, Hb. }
    destruct (len b >? expected); intros [= <-]; eauto.
  - unfold brotliDecompress.
    destruct (readAllLimit _ _) as [b | e'] eqn:Hb; cbn.
    2: { intros [= <-]. left. eapply readAllLimit_error, Hb. }
    destruct (len b >? expected); intros [= <-]; eauto.
Qed.

Lemma decompressPayload_error (comp sectionFlags : Z) (payload : bytes)
    (maxUncompressed : Z) (e : error) :
  fst (decompressPayload comp sectionFlags payload maxUncompressed) = Err e ->
  envelopeError e \/ exists msg, e = Wrapped ErrLimitExceeded msg.
Proof.
  unfold decompressPayload, envelopeError.
  destruct (comp =? CompNone).
  { destruct (negb _); cbn; [intros [= <-]; eauto | discriminate]. }
  destruct (negb (negb _)); cbn; [intros [= <-]; eauto |].
  destruct (len payload <? 8); cbn; [intros [= <-]; eauto |].
  destruct (Uint64 (take 8 payload) >? maxUncompressed); cbn; [intros [= <-]; eauto |].
  destruct (decompressor comp) as [routine |] eqn:Hr; cbn; [| intros [= <-]; eauto].
  destruct (routine _ _) as [out | e'] eqn:Hout.
  - destruct (negb _); intros [= <-]; eauto.
  - intros [= <-]. left. eapply decompressor_error; eauto.
Qed.

Lemma never_callDecompressPayload (msg : string) (section comp sectionFlags : Z)
    (payload : bytes) (maxUncompressed : Z) :
  neverEndsIn (Wrapped ErrValidation msg)
    (callDecompressPayload section comp sectionFlags payload maxUncompressed).
Proof.
  intros r. unfold callDecompressPayload.
  destruct (decompressPayload _ _ _ _) as [res evs] eqn:Hd. cbn.
  intros ->.
  assert (Hfst : fst (decompressPayload comp sectionFlags payload maxUncompressed)
                 = Err (Wrapped ErrValidation msg)) by (rewrite Hd; reflexivity).
  apply decompressPayload_error in Hfst as [[[t He] | [m He]] | [m He]]; discriminate.
Qed.

Lemma never_gobDecode {A} (s : Sentinel) (msg : string) (section : Z)
    (decoder : bytes -> outcome A) (data : bytes) :
  neverEndsIn (Wrapped s msg) (gobDecode section decoder data).
Proof.
  intros r. unfold gobDecode. cbn. destruct (decoder data); discriminate.
Qed.

Lemma json_Unmarshal_error (data : bytes) (e : error) :
  json_Unmarshal data = Err e -> exists text, e = External text.
Proof.
  unfold json_Unmarshal.
  destruct (json_parse data) as [[] |]; intros [= <-]; eauto.
Qed.

Lemma never_json_Unmarshal (s : Sentinel) (msg : string) (data : bytes) :
  neverEndsIn (Wrapped s msg) (mlift (json_Unmarshal data)).
Proof.
  apply never_mlift. intros He.
  apply json_Unmarshal_error in He as [t He]. discriminate.
Qed.

Lemma never_decodeHeader (msg : string) (limits : Limits) :
  neverEndsIn (Wrapped ErrValidation msg) (decodeHeader limits).
Proof.
  unfold decodeHeader, readFixedHeader.
  repeat first
    [ apply never_mret
    | apply never_mfail; discriminate
    | apply never_io_ReadFull
    | apply never_json_Unmarshal
    | apply never_mbind; [| intros ?]
    | match goal with
      | |- context [if ?b then _ else _] => destruct b
      | |- context [match ?x with Some _ => _ | None => _ end] => destruct x
      end ].
Qed.

Lemma never_validateSectionHeader (msg : string) (sh : sectionHeaderV1) (expected : Z) :
  neverEndsIn (Wrapped ErrValidation msg) (mlift (validateSectionHeader sh expected)).
Proof.
  apply never_mlift. intros He.
  apply validateSectionHeader_error in He as [m He]. discriminate.
Qed.

Lemma never_decodeMarkdownSection (msg : string) (limits : Limits) :
  neverEndsIn (Wrapped ErrValidation msg) (decodeMarkdownSection limits).
Proof.
  unfold decodeMarkdownSection.
  apply never_mbind; [apply never_readSectionHeader | intros sh].
  apply never_mbind; [apply never_validateSectionHeader | intros _].
  match goal with |- context [if ?b then _ else _] => destruct b end;
    [apply never_mfail; discriminate |].
  apply never_mbind; [apply never_io_ReadFull | intros payload].
  apply never_mbind; [apply never_callDecompressPayload | intros gob].
  apply never_gobDecode.
Qed.

Lemma never_decodeMediaSection (msg : string) (limits : Limits) :
  neverEndsIn (Wrapped ErrValidation msg) (decodeMediaSection limits).
Proof.
  unfold decodeMediaSection.
  apply never_mbind; [apply never_readSectionHeader | intros sh].
  apply never_mbind; [apply never_validateSectionHeader | intros _].
  match goal with |- context [if ?b then _ else _] => destruct b end;
    [apply never_mfail; discriminate |].
  match goal with |- context [if ?b then _ else _] => destruct b end;
    [apply never_mret |].
  apply never_mbind; [apply never_io_ReadFull | intros payload].
  apply never_mbind; [apply never_callDecompressPayload | intros gob].
  apply never_gobDecode.
Qed.

Lemma applyOptions_snoc {C} (cfg : C) (opts : list (C -> C)) (o : C -> C) :
  applyOptions cfg (opts ++ [o]) = o (applyOptions cfg opts).
Proof. unfold applyOptions. rewrite fold_left_app. reflexivity. Qed.

Lemma verifyHashes_off (opts : list ReadOption) :
  applyOptions defaultReadConfig (opts ++ [WithVerifyHashes false])
  = {| rc_limits := rc_limits (applyOptions defaultReadConfig opts);
       rc_verifyHashes := false |}.
Proof. apply (applyOptions_snoc defaultReadConfig opts (WithVerifyHashes false)). Qed.

(** With hash verification off, [Decode] never reports a mismatch. *)
Lemma Decode_off_no_mismatch (input : bytes) (opts : list ReadOption) :
  fst (Decode input (opts ++ [WithVerifyHashes false])) <> Err mismatchError.
Proof.
  unfold Decode.
  assert (Hn : neverEndsIn mismatchError (decode (opts ++ [WithVerifyHashes false]))).
  { unfold decode. rewrite verifyHashes_off. cbn [rc_limits rc_verifyHashes].
    apply never_mbind; [apply never_decodeHeader | intros metadata].
    apply never_mbind; [apply never_decodeMarkdownSection | intros markdown].
    apply never_mbind; [apply never_decodeMediaSection | intros media].
    apply never_mbind; [| intros; apply never_mret].
    apply never_mlift. apply validateDocument_off_no_mismatch. }
  specialize (Hn {| rd_rest := input; rd_trace := [] |}).
  destruct (decode _ _) as [res r]. exact Hn.
Qed.

(** With hash verification off, [Decode] does not look at the digest
    function. *)
Lemma Decode_off_digest (digest : bytes -> bytes) (input : bytes)
    (opts : list ReadOption) :
  Decode (L := withSHA256 L digest) input (opts ++ [WithVerifyHashes false])
  = Decode input (opts ++ [WithVerifyHashes false]).
Proof.
  unfold Decode, decode. rewrite verifyHashes_off. cbn [rc_limits rc_verifyHashes].
  set (limits := withDefaults _).
  change (decodeHeader (L := withSHA256 L digest)) with (decodeHeader (L := L)).
  change (decodeMarkdownSection (L := withSHA256 L digest))
    with (decodeMarkdownSection (L := L)).
  change (decodeMediaSection (L := withSHA256 L digest))
    with (decodeMediaSection (L := L)).
  unfold mbind.
  destruct (decodeHeader limits _) as [[metadata | e] r1]; [| reflexivity].
  destruct (decodeMarkdownSection limits r1) as [[markdown | e] r2]; [| reflexivity].
  destruct (decodeMediaSection limits r2) as [[media | e] r3]; [| reflexivity].
  unfold mlift. rewrite validateDocument_off_digest. reflexivity.
Qed.

End DecodeErrors.

(** ** encode.go: validation comes before any write *)

Lemma withDefaults_defaultLimits : withDefaults defaultLimits = defaultLimits.
Proof. reflexivity. Qed.

Section EncodeValidation.
Context `{L : Libs}.

Lemma encodeDocument_invalid {W} `{Writer W} (cfg : writeConfig) (doc : Document)
    (w : W) (e : error) :
  validateDocument (Some doc) (wc_limits cfg) (wc_verifyHashes cfg) = Err e ->
  encodeDocument cfg doc w = (Err e, w).
Proof.
  intros Hv. unfold encodeDocument, wbind, wlift. rewrite Hv. reflexivity.
Qed.

Lemma Encode_default_invalid {W} `{Writer W} (w : W) (doc : Document) (e : error) :
  validateDocument (Some (populateSHA256 doc)) defaultLimits true = Err e ->
  Encode w (Some doc) [] = (Err e, w, Some (populateSHA256 doc)).
Proof.
  intros Hv. unfold Encode. cbn [applyOptions fold_left].
  cbn [defaultWriteConfig wc_limits wc_verifyHashes wc_autoPopulate
       wc_mdCompression wc_mediaCompression].
  rewrite withDefaults_defaultLimits.
  rewrite (encodeDocument_invalid _ _ w e); [reflexivity |].
  exact Hv.
Qed.

(** *** The first item with a wrong digest *)

Lemma wrongDigest_dec (it : MediaItem) : {wrongDigest it} + {~ wrongDigest it}.
Proof.
  unfold wrongDigest.
  destruct (decide (mi_SHA256 it = zeroSHA256)) as [Hz | Hz];
    [right; intros [? _]; contradiction |].
  destruct (decide (mi_SHA256 it = sha256_Sum256 (mi_Data it))) as [Hs | Hs];
    [right; intros [_ ?]; contradiction |].
  left. split; assumption.
Qed.

Lemma first_wrongDigest (items : list MediaItem) (it : MediaItem) :
  it ∈ items ->
  wrongDigest it ->
  exists pre first post,
    items = pre ++ first :: post
    /\ Forall (fun x => ~ wrongDigest x) pre
    /\ wrongDigest first.
Proof.
  induction items as [| x items IH]; intros Hin Hwrong.
  - apply elem_of_nil in Hin. contradiction.
  - destruct (wrongDigest_dec x) as [Hx | Hx].
    + exists [], x, items. repeat split; [constructor | apply Hx | apply Hx].
    + apply elem_of_cons in Hin as [-> | Hin]; [contradiction |].
      destruct (IH Hin Hwrong) as (pre & first & post & -> & Hpre & Hfirst).
      exists (x :: pre), first, post.
      repeat split; [constructor; assumption | apply Hfirst | apply Hfirst].
Qed.

Lemma checkSHA256_wrong (it : MediaItem) :
  wrongDigest it -> checkSHA256 true it = Err mismatchError.
Proof.
  intros [Hz Hs]. unfold checkSHA256, computedSHA256.
  rewrite bool_decide_eq_false_2 by assumption. cbn [negb].
  rewrite bool_decide_eq_false_2 by congruence. reflexivity.
Qed.

Lemma checkSHA256_populated_right (it : MediaItem) :
  ~ wrongDigest it -> checkSHA256 true (populateItem it) = Ok tt.
Proof.
  intros Hright. rewrite checkSHA256_populateItem.
  case_bool_decide as Hz; [reflexivity |].
  case_bool_decide as Hs; [reflexivity |].
  exfalso. apply Hright. split; congruence.
Qed.

Lemma populateItem_wrong (it : MediaItem) : wrongDigest it -> populateItem it = it.
Proof.
  intros [Hz _]. unfold populateItem.
  rewrite bool_decide_eq_false_2 by assumption. reflexivity.
Qed.

(** With hashes verified, the items before the first wrong digest are
    checked as they are without, and then the mismatch is the error. *)
Lemma validateMediaItems_first_wrong (limits : Limits) (pre : list MediaItem)
    (first : MediaItem) (post : list MediaItem) :
  Forall (fun x => checkSHA256 true x = Ok tt) pre ->
  checkSHA256 true first = Err mismatchError ->
  forall seen,
    validateMediaItems limits true seen (pre ++ first :: post)
    = match validateMediaItems limits false seen (pre ++ [first]) with
      | Ok _ => Err mismatchError
      | Err e => Err e
      end.
Proof.
  intros Hpre Hfirst. induction Hpre as [| x pre Hx _ IH]; intros seen.
  - cbn [app validateMediaItems].
    destruct (isBlank (mi_ID first)); [reflexivity |].
    case_bool_decide; [reflexivity |].
    destruct (if negb (String.eqb (mi_Path first) "") then _ else _);
      [| reflexivity].
    destruct (len (mi_Data first) >? _); [reflexivity |].
    rewrite Hfirst. reflexivity.
  - cbn [app validateMediaItems].
    destruct (isBlank (mi_ID x)); [reflexivity |].
    case_bool_decide; [reflexivity |].
    destruct (if negb (String.eqb (mi_Path x) "") then _ else _);
      [| reflexivity].
    destruct (len (mi_Data x) >? _); [reflexivity |].
    rewrite Hx. cbn [checkSHA256 rbind]. apply IH.
Qed.

Lemma validateMediaItems_off_populated (limits : Limits) (items : list MediaItem) :
  forall seen,
    validateMediaItems limits false seen (map populateItem items)
    = validateMediaItems limits false seen items.
Proof.
  induction items as [| x items IH]; intros seen; [reflexivity |].
  cbn [map validateMediaItems].
  destruct (populateItem_fields x) as (-> & -> & ->).
  cbn [checkSHA256 rbind]. rewrite IH. reflexivity.
Qed.

Lemma validateMediaItems_off_prefix (limits : Limits) (l1 l2 : list MediaItem)
    (e : error) :
  forall seen,
    validateMediaItems limits false seen l1 = Err e ->
    validateMediaItems limits false seen (l1 ++ l2) = Err e.
Proof.
  induction l1 as [| x l1 IH]; intros seen; [discriminate |].
  cbn [app validateMediaItems].
  destruct (isBlank (mi_ID x)); [auto |].
  case_bool_decide; [auto |].
  destruct (if negb (String.eqb (mi_Path x) "") then _ else _); [| auto].
  destruct (len (mi_Data x) >? _); [auto |].
  cbn [checkSHA256 rbind]. apply IH.
Qed.

(** Which error the validator gives for a document whose first media item
    with a wrong digest is [first]. *)
Lemma validateDocument_first_wrong (doc : Document) (limits : Limits)
    (pre : list MediaItem) (first : MediaItem) (post : list MediaItem) :
  media_Items (doc_Media doc) = pre ++ first :: post ->
  Forall (fun x => ~ wrongDigest x) pre ->
  wrongDigest first ->
  (passesUpTo doc limits pre first ->
   validateDocument (Some (populateSHA256 doc)) limits true = Err mismatchError)
  /\ (~ passesUpTo doc limits pre first ->
      exists e,
        validateDocument (Some (populateSHA256 doc)) limits true = Err e
        /\ validateDocument (Some doc) limits false = Err e).
Proof.
  intros Hitems Hpre Hfirst.
  assert (Hmedia :
    forall seen,
      validateMediaItems limits true seen (map populateItem (pre ++ first :: post))
      = match validateMediaItems limits false seen (pre ++ [first]) with
        | Ok _ => Err mismatchError
        | Err e => Err e
        end).
  { intros seen. rewrite map_app. cbn [map].
    rewrite (populateItem_wrong first Hfirst).
    rewrite validateMediaItems_first_wrong.
    - replace (map populateItem pre ++ [first])
        with (map populateItem (pre ++ [first]))
        by (rewrite map_app; cbn [map]; rewrite (populateItem_wrong first Hfirst);
            reflexivity).
      rewrite validateMediaItems_off_populated. reflexivity.
    - clear -Hpre. induction Hpre as [| x pre Hx _ IH]; cbn [map]; constructor.
      + apply checkSHA256_populated_right, Hx.
      + exact IH.
    - apply checkSHA256_wrong, Hfirst. }
  assert (Hshort : len (pre ++ [first]) <= len (media_Items (doc_Media doc))).
  { rewrite Hitems, !len_app, !len_cons, len_nil.
    pose proof (len_nonneg post). lia. }
  assert (Hlen : len (map populateItem (media_Items (doc_Media doc)))
                 = len (media_Items (doc_Media doc))).
  { unfold len. rewrite length_map. reflexivity. }
  unfold passesUpTo, validateDocument.
  cbn [populateSHA256 withMediaItems doc_Metadata doc_Markdown doc_Media
       media_BundleVersion media_Items].
  rewrite Hlen.
  destruct (negb (mb_BundleVersion (doc_Markdown doc) =? VersionV1));
    [split; [intros [[=] _] | eauto] |].
  destruct (len (mb_Files (doc_Markdown doc)) =? 0);
    [split; [intros [[=] _] | eauto] |].
  destruct (len (mb_Files (doc_Markdown doc)) >? MaxMarkdownFiles limits);
    [split; [intros [[=] _] | eauto] |].
  destruct (if negb (mb_RootPath (doc_Markdown doc) =? "")%string
            then validateContainerPath (mb_RootPath (doc_Markdown doc))
            else Ok tt) as [[] | e0];
    [| split; [intros [[=] _] | eauto]].
  destruct (validateMarkdownFiles limits ∅ (mb_Files (doc_Markdown doc)))
    as [[] | e0]; cbn [rbind];
    [| split; [intros [[=] _] | eauto]].
  destruct (negb (media_BundleVersion (doc_Media doc) =? VersionV1));
    [split; [intros [[=] _] | eauto] |].
  destruct (Z.gtb_spec (len (media_Items (doc_Media doc))) (MaxMediaItems limits))
    as [Hmany | Hfew].
  { split; [intros [_ ?]; lia | eauto]. }
  destruct (Z.gtb_spec (len (pre ++ [first])) (MaxMediaItems limits)); [lia |].
  rewrite Hitems, Hmedia.
  destruct (validateMediaItems limits false ∅ (pre ++ [first])) as [[] | e0] eqn:Hv.
  - split; [reflexivity |]. intros Hnot. exfalso. apply Hnot.
    split; [reflexivity | rewrite <- Hitems; assumption].
  - split; [intros [[=] _] |]. intros _. exists e0. split; [reflexivity |].
    change (pre ++ first :: post) with (pre ++ [first] ++ post).
    rewrite app_assoc. apply validateMediaItems_off_prefix, Hv.
Qed.

(** C6, as the code has it.  Under the default write options a document
    with a media item whose digest is neither zero nor the digest of its
    data is refused before anything is written, and the error is that of
    the first check that fails.  Let [first] be the first media item with
    such a digest.  When every check that the validator makes before the
    hash check of [first] passes, the error is the mismatch error of
    [ErrValidation]; otherwise it is the error of the check that fails
    before, which is the error that the validator gives without hash
    verification, of kind [ErrValidation] or [ErrLimitExceeded].  With
    hash verification off, the validator and [Decode] do not consult the
    digest function and never report a mismatch.  A zero digest passes
    the hash check whatever the data. *)
Theorem hash_integrity {W} `{Writer W} (w : W) (doc : Document) (it : MediaItem)
    (digest : bytes -> bytes) (anyDoc : option Document) (limits : Limits)
    (input : bytes) (opts : list ReadOption)
    (verifyHashes : bool) (id path mime : string) (data : bytes)
    (attrs : gmap string string) :
  it ∈ media_Items (doc_Media doc) ->
  mi_SHA256 it <> zeroSHA256 ->
  mi_SHA256 it <> sha256_Sum256 (mi_Data it) ->
  (exists pre first post e,
     media_Items (doc_Media doc) = pre ++ first :: post
     /\ Forall (fun x => ~ wrongDigest x) pre
     /\ wrongDigest first
     /\ Encode w (Some doc) [] = (Err e, w, Some (populateSHA256 doc))
     /\ (passesUpTo doc defaultLimits pre first -> e = mismatchError)
     /\ (~ passesUpTo doc defaultLimits pre first ->
         validateDocument (Some doc) defaultLimits false = Err e)
     /\ validatorError e)
  /\ validateDocument (L := withSHA256 L digest) anyDoc limits false
     = validateDocument anyDoc limits false
  /\ validateDocument anyDoc limits false <> Err mismatchError
  /\ Decode (L := withSHA256 L digest) input (opts ++ [WithVerifyHashes false])
     = Decode input (opts ++ [WithVerifyHashes false])
  /\ fst (Decode input (opts ++ [WithVerifyHashes false])) <> Err mismatchError
  /\ checkSHA256 verifyHashes
       {| mi_ID := id; mi_Path := path; mi_MIMEType := mime; mi_Data := data;
          mi_SHA256 := zeroSHA256; mi_Attributes := attrs |} = Ok tt.
Proof.
  intros Hin Hnz Hne.
  split; [| split; [| split; [| split; [| split]]]].
  - destruct (first_wrongDigest _ it Hin (conj Hnz Hne))
      as (pre & first & post & Hitems & Hpre & Hfirst).
    destruct (validateDocument_first_wrong doc defaultLimits pre first post
                Hitems Hpre Hfirst) as [Hpass Hfail].
    pose proof (validateDocument_kinds (Some (populateSHA256 doc)) defaultLimits true)
      as Hkind.
    assert (Hdec : passesUpTo doc defaultLimits pre first
                   \/ ~ passesUpTo doc defaultLimits pre first).
    { unfold passesUpTo.
      destruct (validateDocument
                  (Some (withMediaItems doc (pre ++ [first]))) defaultLimits false)
        as [[] | e0]; [| right; intros [[=] _]].
      destruct (Z_le_dec (len (media_Items (doc_Media doc)))
                  (MaxMediaItems defaultLimits)); [left; auto | right; intros [_ ?]; auto]. }
    destruct Hdec as [Hp | Hnp].
    + specialize (Hpass Hp). rewrite Hpass in Hkind.
      exists pre, first, post, mismatchError.
      split; [exact Hitems |]. split; [exact Hpre |]. split; [exact Hfirst |].
      split; [apply Encode_default_invalid, Hpass |].
      split; [reflexivity |].
      split; [intros Hnp; contradiction | exact Hkind].
    + destruct (Hfail Hnp) as (e & He1 & He0). rewrite He1 in Hkind.
      exists pre, first, post, e.
      split; [exact Hitems |]. split; [exact Hpre |]. split; [exact Hfirst |].
      split; [apply Encode_default_invalid, He1 |].
      split; [intros Hp; contradiction |].
      split; [intros _; exact He0 | exact Hkind].
  - apply validateDocument_off_digest.
  - apply validateDocument_off_no_mismatch.
  - apply Decode_off_digest.
  - apply Decode_off_no_mismatch.
  - unfold checkSHA256. cbn [mi_SHA256].
    rewrite bool_decide_true by reflexivity. destruct verifyHashes; reflexivity.
Qed.

End EncodeValidation.

Lemma badHashItem_mismatch :
  badHashItem ∈ media_Items (doc_Media badHashDoc)
  /\ mi_SHA256 badHashItem <> zeroSHA256
  /\ mi_SHA256 badHashItem <> @sha256_Sum256 testLibs (mi_Data badHashItem).
Proof.
  split; [apply list_elem_of_here |].
  split; vm_compute; discriminate.
Defined.

(** [twiceBadDoc]: the first item has a wrong digest and the second
    repeats its ID.  The checks before the hash check of the first item
    pass, so the error is the mismatch, although the validator without
    hash verification refuses the document for the repeated ID. *)
Lemma hash_integrity_witness :
  Encode (L := testLibs) (W := bytes) [] (Some twiceBadDoc) []
  = (Err mismatchError, [], Some (populateSHA256 (L := testLibs) twiceBadDoc))
  /\ validateDocument (L := testLibs) (Some twiceBadDoc) defaultLimits false
     = Err (Wrapped ErrValidation "duplicate media ID %q").
Proof.
  split; [| vm_compute; reflexivity].
  destruct (hash_integrity (L := testLibs) (W := bytes) [] twiceBadDoc badHashItem
              TestDouble.checksum None defaultLimits [] [] true "" "" "" [] ∅)
    as ((pre & first & post & e & Hitems & Hpre & Hfirst & HEncode & Hpass & _) & _).
  - apply list_elem_of_here.
  - apply badHashItem_mismatch.
  - apply badHashItem_mismatch.
  - destruct pre as [| x pre].
    + injection Hitems as <- <-. rewrite HEncode, Hpass; [reflexivity |].
      split; [vm_compute; reflexivity | vm_compute; discriminate].
    + exfalso. injection Hitems as <- _.
      apply Forall_cons in Hpre as [Hx _]. apply Hx.
      split; apply badHashItem_mismatch.
Defined.

(** C6 as it is stated fails on [crowdedDoc]: its media item has a digest
    that is neither zero nor the digest of its data, and [Encode] under the
    default options fails with [ErrLimitExceeded], not [ErrValidation]. *)
Lemma hash_integrity_counterexample :
  (exists it, it ∈ media_Items (doc_Media crowdedDoc)
     /\ mi_SHA256 it <> zeroSHA256
     /\ mi_SHA256 it <> @sha256_Sum256 testLibs (mi_Data it))
  /\ fst (fst (Encode (L := testLibs) (W := bytes) [] (Some crowdedDoc) []))
     = Err (Wrapped ErrLimitExceeded "too many markdown files")
  /\ errors_Is (Wrapped ErrLimitExceeded "too many markdown files") ErrValidation
     = false.
Proof.
  split; [exists badHashItem; apply badHashItem_mismatch |].
  split; [vm_compute; reflexivity | reflexivity].
Qed.

(** ** wire.go: what is written is what is read *)

Lemma Z_of_byte_range (b : byte) : 0 <= Z_of_byte b < 256.
Proof.
  unfold Z_of_byte. pose proof (Byte.to_N_bounded b). lia.
Qed.

Lemma Z_of_byte_of_Z (z : Z) : Z_of_byte (byte_of_Z z) = z mod 256.
Proof.
  unfold Z_of_byte, byte_of_Z.
  assert (Hr : 0 <= z mod 256 < 256) by (apply Z.mod_pos_bound; lia).
  destruct (Byte.of_N (Z.to_N (z mod 256))) as [b |] eqn:Hb; cbn.
  - apply Byte.to_of_N in Hb. rewrite Hb. lia.
  - apply Byte.of_N_None_iff in Hb. lia.
Qed.

Lemma length_le_put (n : nat) (v : Z) : length (le_put n v) = n.
Proof. revert v. induction n as [| n IH]; intros v; cbn; [| rewrite IH]; reflexivity. Qed.

Lemma le_get_le_put (n : nat) (v : Z) : le_get (le_put n v) = v mod 256 ^ Z.of_nat n.
Proof.
  revert v. induction n as [| n IH]; intros v.
  - cbn. rewrite Z.mod_1_r. reflexivity.
  - cbn [le_put le_get]. rewrite Z_of_byte_of_Z, IH.
    rewrite Nat2Z.inj_succ, Z.pow_succ_r by lia.
    rewrite Z.rem_mul_r by lia. reflexivity.
Qed.

Lemma le_get_le_put_small (n : nat) (v : Z) :
  0 <= v < 256 ^ Z.of_nat n -> le_get (le_put n v) = v.
Proof. intros Hv. rewrite le_get_le_put. apply Z.mod_small, Hv. Qed.

Lemma length_fixedHeaderBytes (h : fixedHeaderV1) :
  length (fixedHeaderBytes h) = 32%nat.
Proof.
  unfold fixedHeaderBytes, PutUint16, PutUint32, PutUint64.
  rewrite !length_app, !length_le_put, length_take, length_app, length_replicate.
  lia.
Qed.

Lemma length_sectionHeaderBytes (sh : sectionHeaderV1) :
  length (sectionHeaderBytes sh) = 16%nat.
Proof.
  unfold sectionHeaderBytes, PutUint16, PutUint32, PutUint64.
  rewrite !length_app, !length_le_put. reflexivity.
Qed.

Lemma parseSectionHeader_bytes (sh : sectionHeaderV1) :
  parseSectionHeader (sectionHeaderBytes sh)
  = {| sh_SectionType := sh_SectionType sh mod 2 ^ 16;
       sh_SectionFlags := sh_SectionFlags sh mod 2 ^ 16;
       sh_PayloadLen := sh_PayloadLen sh mod 2 ^ 64;
       sh_Reserved := sh_Reserved sh mod 2 ^ 32 |}.
Proof.
  destruct sh as [t f p r].
  unfold parseSectionHeader, sectionHeaderBytes, Uint16, Uint32, Uint64,
    PutUint16, PutUint32, PutUint64, slice.
  cbn [sh_SectionType sh_SectionFlags sh_PayloadLen sh_Reserved].
  cbn [le_put app drop take Nat.sub].
  change [byte_of_Z t; byte_of_Z (t / 256)] with (le_put 2 t).
  change [byte_of_Z f; byte_of_Z (f / 256)] with (le_put 2 f).
  change [byte_of_Z p; byte_of_Z (p / 256); byte_of_Z (p / 256 / 256);
          byte_of_Z (p / 256 / 256 / 256); byte_of_Z (p / 256 / 256 / 256 / 256);
          byte_of_Z (p / 256 / 256 / 256 / 256 / 256);
          byte_of_Z (p / 256 / 256 / 256 / 256 / 256 / 256);
          byte_of_Z (p / 256 / 256 / 256 / 256 / 256 / 256 / 256)]
    with (le_put 8 p).
  change [byte_of_Z r; byte_of_Z (r / 256); byte_of_Z (r / 256 / 256);
          byte_of_Z (r / 256 / 256 / 256)] with (le_put 4 r).
  rewrite !le_get_le_put. reflexivity.
Qed.

Lemma parseFixedHeader_bytes (h : fixedHeaderV1) :
  h_Magic h = Magic ->
  parseFixedHeader (fixedHeaderBytes h)
  = {| h_Magic := Magic;
       h_Version := h_Version h mod 2 ^ 16;
       h_HeaderFlags := h_HeaderFlags h mod 2 ^ 16;
       h_FixedHdrSize := h_FixedHdrSize h mod 2 ^ 32;
       h_MetadataLength := h_MetadataLength h mod 2 ^ 32;
       h_Reserved0 := h_Reserved0 h mod 2 ^ 32;
       h_Reserved1 := h_Reserved1 h mod 2 ^ 64 |}.
Proof.
  destruct h as [m v f s ml r0 r1]. cbn [h_Magic]. intros ->.
  unfold parseFixedHeader, fixedHeaderBytes, Uint16, Uint32, Uint64,
    PutUint16, PutUint32, PutUint64, slice, Magic.
  cbn [h_Magic h_Version h_HeaderFlags h_FixedHdrSize h_MetadataLength
       h_Reserved0 h_Reserved1].
  cbn [le_put app drop take Nat.sub replicate].
  change [byte_of_Z v; byte_of_Z (v / 256)] with (le_put 2 v).
  change [byte_of_Z f; byte_of_Z (f / 256)] with (le_put 2 f).
  change [byte_of_Z s; byte_of_Z (s / 256); byte_of_Z (s / 256 / 256);
          byte_of_Z (s / 256 / 256 / 256)] with (le_put 4 s).
  change [byte_of_Z ml; byte_of_Z (ml / 256); byte_of_Z (ml / 256 / 256);
          byte_of_Z (ml / 256 / 256 / 256)] with (le_put 4 ml).
  change [byte_of_Z r0; byte_of_Z (r0 / 256); byte_of_Z (r0 / 256 / 256);
          byte_of_Z (r0 / 256 / 256 / 256)] with (le_put 4 r0).
  change [byte_of_Z r1; byte_of_Z (r1 / 256); byte_of_Z (r1 / 256 / 256);
          byte_of_Z (r1 / 256 / 256 / 256); byte_of_Z (r1 / 256 / 256 / 256 / 256);
          byte_of_Z (r1 / 256 / 256 / 256 / 256 / 256);
          byte_of_Z (r1 / 256 / 256 / 256 / 256 / 256 / 256);
          byte_of_Z (r1 / 256 / 256 / 256 / 256 / 256 / 256 / 256)]
    with (le_put 8 r1).
  rewrite !le_get_le_put. reflexivity.
Qed.

Lemma io_ReadFull_app (a rest : bytes) (tr : list Event) (n : Z) :
  n = len a ->
  io_ReadFull n {| rd_rest := a ++ rest; rd_trace := tr |}
  = (Ok a, {| rd_rest := rest; rd_trace := tr |}).
Proof.
  intros ->. unfold io_ReadFull. cbn [rd_rest rd_trace].
  destruct (Z.leb_spec (len a) 0) as [Hz | Hpos].
  - assert (a = []) as -> by (destruct a; [reflexivity | rewrite len_cons in Hz;
      pose proof (len_nonneg a); lia]).
    reflexivity.
  - rewrite len_app.
    destruct (Z.leb_spec (len a) (len a + len rest)) as [_ | Hlt];
      [| pose proof (len_nonneg rest); lia].
    unfold len. rewrite Nat2Z.id, take_app_length, drop_app_length. reflexivity.
Qed.

Lemma readFixedHeader_bytes (h : fixedHeaderV1) (rest : bytes) (tr : list Event) :
  readFixedHeader {| rd_rest := fixedHeaderBytes h ++ rest; rd_trace := tr |}
  = (Ok (parseFixedHeader (fixedHeaderBytes h)),
     {| rd_rest := rest; rd_trace := tr |}).
Proof.
  unfold readFixedHeader, mbind.
  rewrite io_ReadFull_app; [reflexivity |].
  unfold len. rewrite length_fixedHeaderBytes. reflexivity.
Qed.

Lemma readSectionHeader_bytes (sh : sectionHeaderV1) (rest : bytes) (tr : list Event) :
  readSectionHeader {| rd_rest := sectionHeaderBytes sh ++ rest; rd_trace := tr |}
  = (Ok (parseSectionHeader (sectionHeaderBytes sh)),
     {| rd_rest := rest; rd_trace := tr |}).
Proof.
  unfold readSectionHeader, mbind.
  rewrite io_ReadFull_app; [reflexivity |].
  unfold len. rewrite length_sectionHeaderBytes. reflexivity.
Qed.

(** ** decode.go: the metadata block *)

Lemma land_bit0 (a : Z) :
  Z.land a HeaderFlagMetadataJSON = if Z.testbit a 0 then 1 else 0.
Proof.
  change HeaderFlagMetadataJSON with (Z.ones 1).
  rewrite Z.land_ones by lia. rewrite Z.pow_1_r, <- Z.bit0_mod.
  destruct (Z.testbit a 0); reflexivity.
Qed.

Section DecodeMetadata.
Context `{L : Libs}.

(** [decodeHeader] on a well-formed header followed by its metadata. *)
Lemma decodeHeader_metadata (limits : Limits) (flags : Z) (mb rest : bytes)
    (tr : list Event) :
  0 <= flags < 2 ^ 16 ->
  Z.testbit flags 0 = true ->
  0 < len mb ->
  len mb <= MaxMetadataLen limits ->
  len mb < 2 ^ 32 ->
  decodeHeader limits
    {| rd_rest := fixedHeaderBytes (headerOf flags (len mb)) ++ mb ++ rest;
       rd_trace := tr |}
  = (match json_Unmarshal mb with
     | Err e => Err e
     | Ok None => Err (Wrapped ErrInvalidHeader "metadata must be a JSON object")
     | Ok (Some m) => Ok (Some m)
     end,
     {| rd_rest := rest; rd_trace := tr |}).
Proof.
  intros Hflags Hbit Hpos Hmax Hlen.
  unfold decodeHeader. unfold mbind at 1.
  rewrite readFixedHeader_bytes, parseFixedHeader_bytes by reflexivity.
  cbn [headerOf h_Magic h_Version h_HeaderFlags h_FixedHdrSize h_MetadataLength
       h_Reserved0 h_Reserved1].
  rewrite bool_decide_true by reflexivity.
  rewrite (Z.mod_small (len mb)) by lia.
  rewrite (Z.mod_small flags) by lia.
  change (negb true) with false. cbv iota.
  change (negb (fixedHeaderSizeV1 mod 2 ^ 32 =? fixedHeaderSizeV1)) with false.
  change (negb (VersionV1 mod 2 ^ 16 =? VersionV1)) with false.
  change (negb (0 mod 2 ^ 32 =? 0) || negb (0 mod 2 ^ 64 =? 0)) with false.
  cbv iota.
  destruct (Z.gtb_spec (len mb) (MaxMetadataLen limits)) as [? | _]; [lia |].
  destruct (Z.gtb_spec (len mb) 0) as [_ | ?]; [| lia].
  unfold mbind. rewrite io_ReadFull_app by reflexivity.
  rewrite land_bit0, Hbit. change (1 =? 0) with false. cbv iota.
  unfold mlift.
  destruct (json_Unmarshal mb) as [[m |] | e]; reflexivity.
Qed.

(** C7, which the code breaks.  On an input with a well-formed fixed
    header whose metadata flag is set and whose metadata length is
    positive and within the ceiling, followed by that many bytes that are
    the text of a JSON value which is no object, [Decode] fails, having
    called neither [decompressPayload] nor [gobDecode].  The error is
    [ErrInvalidHeader] when the value is [null], as the claim has it, by
    the check that follows [json.Unmarshal].  When the value is an array,
    a string, a number or a boolean, that check is never reached: the
    type error of [json.Unmarshal] is returned as it is, and it wraps no
    sentinel, where the claim asks for [ErrInvalidHeader]. *)
Theorem metadata_not_an_object (flags : Z) (mb rest : bytes)
    (opts : list ReadOption) (v : jsonValue) :
  0 <= flags < 2 ^ 16 ->
  Z.testbit flags 0 = true ->
  0 < len mb ->
  len mb <= MaxMetadataLen (withDefaults (rc_limits (applyOptions defaultReadConfig opts))) ->
  len mb < 2 ^ 32 ->
  json_parse mb = Some v ->
  isObject v = false ->
  Decode (fixedHeaderBytes (headerOf flags (len mb)) ++ mb ++ rest) opts
  = (if isNull v
     then Err (Wrapped ErrInvalidHeader "metadata must be a JSON object")
     else Err unmarshalTypeError,
     []).
Proof.
  intros Hflags Hbit Hpos Hmax Hlen Hparse Hobj.
  unfold Decode, decode. unfold mbind at 1.
  rewrite decodeHeader_metadata by assumption.
  unfold json_Unmarshal. rewrite Hparse.
  destruct v; try discriminate; reflexivity.
Qed.

End DecodeMetadata.

(** The input of the package's own test [TestDecode_MetadataInvalidJSON],
    whose metadata is the JSON array [[]], and the same header before the
    text [null]. *)
Lemma metadata_not_an_object_witness :
  Decode (L := testLibs) arrayMetadataInput [] = (Err unmarshalTypeError, [])
  /\ errors_Is unmarshalTypeError ErrInvalidHeader = false
  /\ Decode (L := testLibs)
       (fixedHeaderBytes (headerOf 1 (len (list_byte_of_string "null")))
        ++ list_byte_of_string "null" ++ []) []
     = (Err (Wrapped ErrInvalidHeader "metadata must be a JSON object"), []).
Proof.
  split; [| split; [reflexivity |]].
  - apply (metadata_not_an_object (L := testLibs) 1 (list_byte_of_string "[]")
             (sectionHeaderBytes
                {| sh_SectionType := SectionMarkdown; sh_SectionFlags := CompNone;
                   sh_PayloadLen := 0; sh_Reserved := 0 |}
              ++ sectionHeaderBytes
                   {| sh_SectionType := SectionMedia; sh_SectionFlags := CompNone;
                      sh_PayloadLen := 0; sh_Reserved := 0 |})
             [] (JArray [])).
    + lia.
    + reflexivity.
    + vm_compute. reflexivity.
    + vm_compute. discriminate.
    + vm_compute. reflexivity.
    + reflexivity.
    + reflexivity.
  - apply (metadata_not_an_object (L := testLibs) 1 (list_byte_of_string "null")
             [] [] JNull).
    + lia.
    + reflexivity.
    + vm_compute. reflexivity.
    + vm_compute. discriminate.
    + vm_compute. reflexivity.
    + reflexivity.
    + reflexivity.
Defined.

(** ** decode.go: what each step writes to the trace *)

Section DecodeTrace.
Context `{L : Libs}.

Lemma logsOnly_mbind {A B} (P : Event -> Prop) (m : M A) (k : A -> M B) :
  logsOnly P m -> (forall a, logsOnly P (k a)) -> logsOnly P (mbind m k).
Proof.
  intros Hm Hk r. unfold mbind.
  destruct (Hm r) as (evs & Htr & Hall).
  destruct (m r) as [[a | e] r']; cbn [snd] in *.
  - destruct (Hk a r') as (evs' & Htr' & Hall').
    exists (evs ++ evs'). rewrite Htr', Htr, app_assoc.
    split; [reflexivity | apply Forall_app; auto].
  - eauto.
Qed.

Lemma logsOnly_silent {A} (P : Event -> Prop) (m : M A) :
  (forall r, rd_trace (snd (m r)) = rd_trace r) -> logsOnly P m.
Proof.
  intros Hm r. exists []. rewrite Hm, app_nil_r. split; [reflexivity | constructor].
Qed.

Lemma logsOnly_mret {A} (P : Event -> Prop) (a : A) : logsOnly P (mret a).
Proof. apply logsOnly_silent. reflexivity. Qed.

Lemma logsOnly_mfail {A} (P : Event -> Prop) (e : error) : logsOnly P (@mfail A e).
Proof. apply logsOnly_silent. reflexivity. Qed.

Lemma logsOnly_mlift {A} (P : Event -> Prop) (x : result A) : logsOnly P (mlift x).
Proof. apply logsOnly_silent. reflexivity. Qed.

Lemma logsOnly_io_ReadFull (P : Event -> Prop) (n : Z) : logsOnly P (io_ReadFull n).
Proof.
  apply logsOnly_silent. intros r. unfold io_ReadFull.
  repeat (match goal with |- context [if ?b then _ else _] => destruct b end);
    reflexivity.
Qed.

Lemma logsOnly_readSectionHeader (P : Event -> Prop) : logsOnly P readSectionHeader.
Proof.
  apply logsOnly_mbind; [apply logsOnly_io_ReadFull | intros; apply logsOnly_mret].
Qed.

Lemma decompressPayload_events (comp sectionFlags : Z) (payload : bytes)
    (maxUncompressed : Z) :
  Forall (fun ev => mediaCall ev = false)
    (snd (decompressPayload comp sectionFlags payload maxUncompressed)).
Proof.
  unfold decompressPayload.
  repeat (match goal with
          | |- context [if ?b then _ else _] => destruct b
          | |- context [match ?x with Some _ => _ | None => _ end] => destruct x
          end; cbn [snd]);
    repeat constructor.
Qed.

Lemma logsOnly_callDecompressPayload (P : Event -> Prop)
    (section comp sectionFlags : Z) (payload : bytes) (maxUncompressed : Z) :
  P (EvDecompressPayload section comp sectionFlags payload) ->
  Forall P (snd (decompressPayload comp sectionFlags payload maxUncompressed)) ->
  logsOnly P (callDecompressPayload section comp sectionFlags payload maxUncompressed).
Proof.
  intros Hev Hevs r. unfold callDecompressPayload.
  destruct (decompressPayload _ _ _ _) as [res evs]. cbn [snd rd_trace] in *.
  eexists. split; [reflexivity |]. constructor; assumption.
Qed.

Lemma logsOnly_gobDecode {A} (P : Event -> Prop) (section : Z)
    (decoder : bytes -> outcome A) (data : bytes) :
  P (EvGobDecode section data) -> logsOnly P (gobDecode section decoder data).
Proof.
  intros Hev r. unfold gobDecode. cbn [snd rd_trace].
  eexists. split; [reflexivity |]. repeat constructor. exact Hev.
Qed.

Lemma logsOnly_decodeHeader (P : Event -> Prop) (limits : Limits) :
  logsOnly P (decodeHeader limits).
Proof.
  unfold decodeHeader, readFixedHeader.
  repeat first
    [ apply logsOnly_mret
    | apply logsOnly_mfail
    | apply logsOnly_mlift
    | apply logsOnly_io_ReadFull
    | apply logsOnly_mbind; [| intros ?]
    | match goal with
      | |- context [if ?b then _ else _] => destruct b
      | |- context [match ?x with Some _ => _ | None => _ end] => destruct x
      end ].
Qed.

Lemma logsOnly_decodeMarkdownSection (limits : Limits) :
  logsOnly (fun ev => mediaCall ev = false) (decodeMarkdownSection limits).
Proof.
  unfold decodeMarkdownSection.
  apply logsOnly_mbind; [apply logsOnly_readSectionHeader | intros sh].
  apply logsOnly_mbind; [apply logsOnly_mlift | intros _].
  match goal with |- context [if ?b then _ else _] => destruct b end;
    [apply logsOnly_mfail |].
  apply logsOnly_mbind; [apply logsOnly_io_ReadFull | intros payload].
  apply logsOnly_mbind; [| intros gob; apply logsOnly_gobDecode; reflexivity].
  apply logsOnly_callDecompressPayload; [reflexivity |].
  apply decompressPayload_events.
Qed.


(** ** decode.go: the empty Media section *)

(** C8.  When [Decode] has read the fixed header, the metadata and the
    Markdown section and the Media section header that follows passes
    [validateSectionHeader] and declares a payload length of 0, then,
    whatever the compression id in its flags, the Media bundle is
    [{BundleVersion: 1}] with no item, nothing is read after the header,
    and the trace of the whole run holds no call of [decompressPayload] or
    [gobDecode] for the Media section; [Decode] returns the document with
    that bundle if the validator accepts it. *)
Theorem empty_media_fast_path (input : bytes) (opts : list ReadOption)
    (metadata : option (gmap string jsonValue)) (markdown : MarkdownBundle)
    (r1 r2 r3 : reader) (mediaSec : sectionHeaderV1) :
  let cfg := applyOptions defaultReadConfig opts in
  let limits := withDefaults (rc_limits cfg) in
  let doc := {| doc_Metadata := metadata; doc_Markdown := markdown;
                doc_Media := emptyMediaBundle |} in
  0 <= MaxMediaSectionLen limits ->
  decodeHeader limits {| rd_rest := input; rd_trace := [] |} = (Ok metadata, r1) ->
  decodeMarkdownSection limits r1 = (Ok markdown, r2) ->
  readSectionHeader r2 = (Ok mediaSec, r3) ->
  validateSectionHeader mediaSec SectionMedia = Ok tt ->
  sh_PayloadLen mediaSec = 0 ->
  decodeMediaSection limits r2 = (Ok emptyMediaBundle, r3)
  /\ rd_trace r3 = rd_trace r2
  /\ fst (Decode input opts)
     = rbind (validateDocument (Some doc) limits (rc_verifyHashes cfg))
         (fun _ => Ok doc)
  /\ snd (Decode input opts) = rd_trace r2
  /\ Forall (fun ev => mediaCall ev = false) (snd (Decode input opts)).
Proof.
  intros cfg limits doc Hlim Hheader Hmarkdown Hread Hvalid Hlen.
  assert (Hmedia : decodeMediaSection limits r2 = (Ok emptyMediaBundle, r3)).
  { unfold decodeMediaSection. unfold mbind at 1. rewrite Hread.
    unfold mbind, mlift. rewrite Hvalid, Hlen.
    destruct (Z.gtb_spec 0 (MaxMediaSectionLen limits)) as [? | _]; [lia |].
    reflexivity. }
  assert (Htr3 : rd_trace r3 = rd_trace r2).
  { destruct (logsOnly_readSectionHeader (fun _ => True) r2) as (evs & Htr & _).
    revert Hread Htr. unfold readSectionHeader, mbind, io_ReadFull, mret.
    repeat (match goal with |- context [if ?b then _ else _] => destruct b end);
      intros [= _ <-]; reflexivity. }
  assert (Hdecode : Decode input opts
                    = (rbind (validateDocument (Some doc) limits (rc_verifyHashes cfg))
                         (fun _ => Ok doc), rd_trace r2)).
  { unfold Decode, decode. fold cfg. fold limits.
    unfold mbind at 1. rewrite Hheader.
    unfold mbind at 1. rewrite Hmarkdown.
    unfold mbind at 1. rewrite Hmedia.
    unfold mbind, mlift, mret. fold doc.
    destruct (validateDocument (Some doc) limits (rc_verifyHashes cfg)) as [[] | e];
      cbn [rbind]; rewrite Htr3; reflexivity. }
  repeat split; try assumption.
  - rewrite Hdecode. reflexivity.
  - rewrite Hdecode. reflexivity.
  - rewrite Hdecode. cbn [snd].
    destruct (logsOnly_decodeHeader (fun ev => mediaCall ev = false) limits
                {| rd_rest := input; rd_trace := [] |}) as (evs1 & Htr1 & Hall1).
    destruct (logsOnly_decodeMarkdownSection limits r1) as (evs2 & Htr2 & Hall2).
    rewrite Hheader in Htr1. rewrite Hmarkdown in Htr2. cbn [snd rd_trace] in *.
    rewrite Htr2, Htr1. cbn [app]. apply Forall_app. auto.
Qed.

End DecodeTrace.

(** ** decode.go: sections with [CompNone] and the uncompressed ceilings *)

Section UncompressedSections.
Context `{L : Libs}.







Lemma readLimits_last (opts : list ReadOption) (l : Limits) :
  applyOptions defaultReadConfig (opts ++ [WithReadLimits l])
  = {| rc_limits := l;
       rc_verifyHashes := rc_verifyHashes (applyOptions defaultReadConfig opts) |}.
Proof. apply (applyOptions_snoc defaultReadConfig opts (WithReadLimits l)). Qed.


End UncompressedSections.

Lemma empty_media_fast_path_witness :
  fst (Decode (L := testLibs) emptyMediaInput [])
  = Ok {| doc_Metadata := None; doc_Markdown := doc_Markdown sampleDoc;
          doc_Media := emptyMediaBundle |}
  /\ Forall (fun ev => mediaCall ev = false)
       (snd (Decode (L := testLibs) emptyMediaInput [])).
Proof.
  pose (r0 := {| rd_rest := emptyMediaInput; rd_trace := [] |}).
  pose (r1 := snd (decodeHeader (L := testLibs) defaultLimits r0)).
  pose (r2 := snd (decodeMarkdownSection (L := testLibs) defaultLimits r1)).
  pose (r3 := snd (readSectionHeader r2)).
  destruct (empty_media_fast_path (L := testLibs) emptyMediaInput [] None
              (doc_Markdown sampleDoc) r1 r2 r3 emptyMediaHeader)
    as (_ & _ & Hres & _ & Hcalls).
  - vm_compute. discriminate.
  - vm_compute. reflexivity.
  - vm_compute. reflexivity.
  - vm_compute. reflexivity.
  - vm_compute. reflexivity.
  - reflexivity.
  - split; [rewrite Hres; vm_compute; reflexivity | exact Hcalls].
Defined.


(** ** encode.go and decode.go: the round trip *)

Lemma mbind_ok {A B} (m : M A) (k : A -> M B) (r r' : reader) (a : A) :
  m r = (Ok a, r') -> mbind m k r = k a r'.
Proof. intros Hm. unfold mbind. rewrite Hm. reflexivity. Qed.

Lemma known_cases (comp : Z) :
  knownCompression comp = true ->
  comp = CompNone \/ comp = CompZIP \/ comp = CompZSTD \/ comp = CompLZ4
  \/ comp = CompBR.
Proof.
  intros Hk. apply knownCompression_range in Hk.
  unfold CompNone, CompZIP, CompZSTD, CompLZ4, CompBR. lia.
Qed.

Lemma compressed_flags (comp : Z) :
  knownCompression comp = true ->
  comp <> CompNone ->
  Z.land (Z.lor comp sectionFlagHasUncompressedLen) sectionFlagCompressionMask = comp
  /\ Z.testbit (Z.lor comp sectionFlagHasUncompressedLen) 4 = true
  /\ 0 <= Z.lor comp sectionFlagHasUncompressedLen < 2 ^ 16.
Proof.
  intros Hk Hne.
  destruct (known_cases comp Hk) as [-> | [-> | [-> | [-> | ->]]]];
    [contradiction | | | |]; (split; [reflexivity | split; [reflexivity | ]]);
    vm_compute; (split; [discriminate | reflexivity]).
Qed.

Section RoundTrip.
Context `{L : Libs}.

(** What [compressPayload] makes of a known compression. *)
Lemma compressPayload_shape (comp : Z) (gobBytes : bytes) (flags : Z)
    (payload : bytes) :
  compressPayload comp gobBytes = Ok (flags, payload) ->
  (comp = CompNone /\ flags = CompNone /\ payload = gobBytes)
  \/ (comp <> CompNone
      /\ flags = Z.lor comp sectionFlagHasUncompressedLen
      /\ exists compressed, payload = PutUint64 (len gobBytes) ++ compressed).
Proof.
  unfold compressPayload.
  destruct (Z.eqb_spec comp CompNone) as [-> | Hne].
  - intros [= <- <-]. left. auto.
  - destruct (compressor comp) as [f |]; [| discriminate].
    destruct (f gobBytes) as [compressed | e]; cbn [rbind]; [| discriminate].
    intros [= <- <-]. right. eauto.
Qed.

Lemma take_PutUint64 (v : Z) (rest : bytes) : take 8 (PutUint64 v ++ rest) = PutUint64 v.
Proof. apply take_app_length'. unfold PutUint64. rewrite length_le_put. reflexivity. Qed.

Lemma drop_PutUint64 (v : Z) (rest : bytes) : drop 8 (PutUint64 v ++ rest) = rest.
Proof. apply drop_app_length'. unfold PutUint64. rewrite length_le_put. reflexivity. Qed.

Lemma declared_length (v : Z) (rest : bytes) :
  0 <= v < 2 ^ 64 -> le_get (take 8 (PutUint64 v ++ rest)) = v.
Proof.
  intros Hv. rewrite take_PutUint64. unfold PutUint64.
  apply le_get_le_put_small. exact Hv.
Qed.


(** [decompressPayload] undoes [compressPayload]. *)
Lemma decompress_compressed (comp : Z) (gobBytes : bytes) (flags : Z)
    (payload : bytes) (maxUncompressed : Z) :
  knownCompression comp = true ->
  compressPayload comp gobBytes = Ok (flags, payload) ->
  survivesEnvelope comp gobBytes payload ->
  comp = CompNone \/ len gobBytes <= maxUncompressed ->
  len gobBytes < 2 ^ 64 ->
  fst (decompressPayload comp flags payload maxUncompressed) = Ok gobBytes.
Proof.
  intros Hk Hc Hsurv Hmax Hlen.
  pose proof (len_nonneg gobBytes) as Hnn.
  apply compressPayload_shape in Hc
    as [(-> & -> & ->) | (Hne & -> & compressed & ->)].
  - reflexivity.
  - destruct Hsurv as [? | (routine & Hroutine & Hout)]; [contradiction |].
    destruct Hmax as [? | Hmax]; [contradiction |].
    destruct (compressed_flags comp Hk Hne) as (_ & Hbit & _).
    unfold decompressPayload.
    rewrite hasLen_testbit, Hbit.
    destruct (Z.eqb_spec comp CompNone) as [? | _]; [contradiction |].
    cbn [negb].
    rewrite len_app.
    assert (Hp : len (PutUint64 (len gobBytes)) = 8)
      by (unfold len, PutUint64; rewrite length_le_put; reflexivity).
    rewrite Hp.
    destruct (Z.ltb_spec (8 + len compressed) 8) as [? | _];
      [pose proof (len_nonneg compressed); lia |].
    unfold Uint64. rewrite take_take, Nat.min_id.
    rewrite declared_length by lia.
    destruct (Z.gtb_spec (len gobBytes) maxUncompressed) as [? | _]; [lia |].
    rewrite Hroutine. cbn [fst]. rewrite Hout.
    rewrite Z.eqb_refl. reflexivity.
Qed.



End RoundTrip.


Section RoundTripSteps.
Context `{L : Libs}.





End RoundTripSteps.

Section RoundTripTheorem.
Context `{L : Libs}.







End RoundTripTheorem.

(** ** The round trip and the ceilings of [Decode] *)

Section OverCeiling.
Context `{L : Libs}.


End OverCeiling.









(** ** limits.go: defaults *)

Lemma orDefault_nonzero (v d : Z) : d <> 0 -> orDefault v d <> 0.
Proof. unfold orDefault. destruct (Z.eqb_spec v 0); intros; assumption. Qed.

Lemma orDefault_fixed (v d : Z) : d <> 0 -> (orDefault v d = v <-> v <> 0).
Proof.
  unfold orDefault. destruct (Z.eqb_spec v 0) as [-> | Hv]; intros Hd.
  - split; intros H; [congruence | contradiction].
  - split; intros; [assumption | reflexivity].
Qed.

Lemma withDefaults_noZeroField (l : Limits) : noZeroField (withDefaults l).
Proof.
  unfold noZeroField, withDefaults.
  cbn [MaxMetadataLen MaxMarkdownSectionLen MaxMediaSectionLen
       MaxMarkdownUncompressed MaxMediaUncompressed MaxMarkdownFiles
       MaxMediaItems MaxSingleMarkdownFileSize MaxSingleMediaSize].
  repeat split; apply orDefault_nonzero; vm_compute; discriminate.
Qed.

Lemma withDefaults_fixed (l : Limits) : noZeroField l -> withDefaults l = l.
Proof.
  destruct l. unfold noZeroField, withDefaults.
  cbn [MaxMetadataLen MaxMarkdownSectionLen MaxMediaSectionLen
       MaxMarkdownUncompressed MaxMediaUncompressed MaxMarkdownFiles
       MaxMediaItems MaxSingleMarkdownFileSize MaxSingleMediaSize].
  intros (H1 & H2 & H3 & H4 & H5 & H6 & H7 & H8 & H9).
  f_equal; apply orDefault_fixed; (assumption || (vm_compute; discriminate)).
Qed.

Lemma withDefaults_twice (l : Limits) : withDefaults (withDefaults l) = withDefaults l.
Proof. apply withDefaults_fixed, withDefaults_noZeroField. Qed.

(** X1.  [withDefaults] (limits.go) leaves no field zero, is the identity
    exactly on the limits that have no zero field, and so changes nothing
    when it is applied a second time. *)
Theorem withDefaults_fills_zero_fields_only (l : Limits) :
  noZeroField (withDefaults l)
  /\ (withDefaults l = l <-> noZeroField l)
  /\ withDefaults (withDefaults l) = withDefaults l.
Proof.
  split; [apply withDefaults_noZeroField |].
  split; [| apply withDefaults_twice].
  split; [| apply withDefaults_fixed].
  intros <-. apply withDefaults_noZeroField.
Qed.

(** ** wire.go: headers written and read back *)

Lemma parseFixedHeader_fits (h : fixedHeaderV1) :
  fixedHeaderFits h -> parseFixedHeader (fixedHeaderBytes h) = h.
Proof.
  destruct h as [m v f s ml r0 r1]. unfold fixedHeaderFits.
  cbn [h_Magic h_Version h_HeaderFlags h_FixedHdrSize h_MetadataLength
       h_Reserved0 h_Reserved1].
  intros (Hm & Hv & Hf & Hs & Hml & Hr0 & Hr1).
  do 8 (destruct m as [| ? m]; [discriminate Hm |]).
  destruct m; [| discriminate Hm].
  unfold parseFixedHeader, fixedHeaderBytes, Uint16, Uint32, Uint64,
    PutUint16, PutUint32, PutUint64, slice.
  cbn [h_Magic h_Version h_HeaderFlags h_FixedHdrSize h_MetadataLength
       h_Reserved0 h_Reserved1].
  cbn [le_put app drop take Nat.sub replicate].
  change [byte_of_Z v; byte_of_Z (v / 256)] with (le_put 2 v).
  change [byte_of_Z f; byte_of_Z (f / 256)] with (le_put 2 f).
  change [byte_of_Z s; byte_of_Z (s / 256); byte_of_Z (s / 256 / 256);
          byte_of_Z (s / 256 / 256 / 256)] with (le_put 4 s).
  change [byte_of_Z ml; byte_of_Z (ml / 256); byte_of_Z (ml / 256 / 256);
          byte_of_Z (ml / 256 / 256 / 256)] with (le_put 4 ml).
  change [byte_of_Z r0; byte_of_Z (r0 / 256); byte_of_Z (r0 / 256 / 256);
          byte_of_Z (r0 / 256 / 256 / 256)] with (le_put 4 r0).
  change [byte_of_Z r1; byte_of_Z (r1 / 256); byte_of_Z (r1 / 256 / 256);
          byte_of_Z (r1 / 256 / 256 / 256); byte_of_Z (r1 / 256 / 256 / 256 / 256);
          byte_of_Z (r1 / 256 / 256 / 256 / 256 / 256);
          byte_of_Z (r1 / 256 / 256 / 256 / 256 / 256 / 256);
          byte_of_Z (r1 / 256 / 256 / 256 / 256 / 256 / 256 / 256)]
    with (le_put 8 r1).
  rewrite !le_get_le_put_small by (cbn; lia). reflexivity.
Qed.

Lemma parseSectionHeader_fits (sh : sectionHeaderV1) :
  sectionHeaderFits sh -> parseSectionHeader (sectionHeaderBytes sh) = sh.
Proof.
  intros (Ht & Hf & Hp & Hr). rewrite parseSectionHeader_bytes.
  destruct sh as [t f p r].
  cbn [sh_SectionType sh_SectionFlags sh_PayloadLen sh_Reserved] in *.
  rewrite !Z.mod_small by lia. reflexivity.
Qed.

(** X2.  [writeFixedHeader] then [readFixedHeader] (wire.go): a header
    whose fields hold values of their Go types is written to a buffer as
    exactly 32 bytes, and reading them back, whatever follows them, gives
    the same header and consumes these 32 bytes only. *)
Theorem fixed_header_write_read (h : fixedHeaderV1) (buf rest : bytes)
    (tr : list Event) :
  fixedHeaderFits h ->
  exists out,
    writeFixedHeader (W := bytes) h buf = (Ok tt, buf ++ out)
    /\ len out = 32
    /\ readFixedHeader {| rd_rest := out ++ rest; rd_trace := tr |}
       = (Ok h, {| rd_rest := rest; rd_trace := tr |}).
Proof.
  intros Hfits. exists (fixedHeaderBytes h). split; [reflexivity |].
  split; [unfold len; rewrite length_fixedHeaderBytes; reflexivity |].
  rewrite readFixedHeader_bytes, parseFixedHeader_fits by assumption.
  reflexivity.
Qed.

(** X3.  [writeSectionHeader] then [readSectionHeader] (wire.go): a
    section header whose fields hold values of their Go types is written
    as exactly 16 bytes, and reading them back gives the same header and
    consumes these 16 bytes only. *)
Theorem section_header_write_read (sh : sectionHeaderV1) (buf rest : bytes)
    (tr : list Event) :
  sectionHeaderFits sh ->
  exists out,
    writeSectionHeader (W := bytes) sh buf = (Ok tt, buf ++ out)
    /\ len out = 16
    /\ readSectionHeader {| rd_rest := out ++ rest; rd_trace := tr |}
       = (Ok sh, {| rd_rest := rest; rd_trace := tr |}).
Proof.
  intros Hfits. exists (sectionHeaderBytes sh). split; [reflexivity |].
  split; [unfold len; rewrite length_sectionHeaderBytes; reflexivity |].
  rewrite readSectionHeader_bytes, parseSectionHeader_fits by assumption.
  reflexivity.
Qed.

(** A reader that has fewer bytes than a header fails with one of the two
    errors of [io.ReadFull], and [io.EOF] is for the empty input. *)
Lemma io_ReadFull_short (n : Z) (r : reader) :
  len (rd_rest r) < n ->
  fst (io_ReadFull n r)
  = Err (if len (rd_rest r) =? 0 then IoEOF else IoErrUnexpectedEOF).
Proof.
  intros Hlt. unfold io_ReadFull. pose proof (len_nonneg (rd_rest r)).
  destruct (Z.leb_spec n 0); [lia |].
  destruct (Z.leb_spec n (len (rd_rest r))); [lia |].
  destruct (len (rd_rest r) =? 0); reflexivity.
Qed.

(** ** compress.go: the envelope *)

Lemma wrap_int64_small (z : Z) : 0 <= z < 2 ^ 63 -> wrap_int64 z = z.
Proof.
  intros Hz. unfold wrap_int64.
  replace (z + 2 ^ 63) with (z + 2 ^ 63 + 0 * 2 ^ 64) by lia.
  rewrite Z.mod_small by lia. lia.
Qed.

Lemma Uint64_PutUint64 (v : Z) (rest : bytes) :
  Uint64 (take 8 (PutUint64 v ++ rest)) = v mod 2 ^ 64.
Proof.
  unfold Uint64. rewrite take_PutUint64, take_ge
    by (unfold PutUint64; rewrite length_le_put; lia).
  unfold PutUint64. rewrite le_get_le_put. reflexivity.
Qed.

Section Envelope.
Context `{L : Libs}.

Lemma compressor_known (comp : Z) :
  comp <> CompNone ->
  (exists f, compressor comp = Some f) <-> knownCompression comp = true.
Proof.
  intros Hne. unfold compressor, knownCompression.
  destruct (Z.eqb_spec comp CompNone) as [? | _]; [contradiction |].
  repeat (match goal with |- context [?a =? ?b] => destruct (a =? b) end;
          cbn [orb]; [split; eauto |]).
  split; [intros [f [=]] | discriminate].
Qed.

Lemma compressPayload_known (comp : Z) (gobBytes : bytes) (flags : Z)
    (payload : bytes) :
  compressPayload comp gobBytes = Ok (flags, payload) ->
  knownCompression comp = true.
Proof.
  unfold compressPayload.
  destruct (Z.eqb_spec comp CompNone) as [-> | Hne]; [reflexivity |].
  destruct (compressor comp) as [f |] eqn:Hf; [| discriminate].
  intros _. apply compressor_known; eauto.
Qed.

(** X4.  [compressPayload] and [validateSectionHeader] (compress.go,
    wire.go): the flags and the payload that [compressPayload] returns
    make a section header that [validateSectionHeader] accepts and that
    carries the compression asked for; the payload of [CompNone] is the
    input itself, and every other payload begins with the length of the
    input in eight little-endian bytes. *)
Theorem compressPayload_makes_valid_section (comp : Z) (gobBytes : bytes)
    (flags : Z) (payload : bytes) (sectionType : Z) :
  compressPayload comp gobBytes = Ok (flags, payload) ->
  let sh := {| sh_SectionType := sectionType; sh_SectionFlags := flags;
               sh_PayloadLen := len payload; sh_Reserved := 0 |} in
  validateSectionHeader sh sectionType = Ok tt
  /\ compression sh = comp
  /\ hasUncompressedLen sh = negb (comp =? CompNone)
  /\ (comp = CompNone -> payload = gobBytes)
  /\ (comp <> CompNone ->
      8 <= len payload /\ Uint64 (take 8 payload) = len gobBytes mod 2 ^ 64).
Proof.
  intros Hc sh.
  pose proof (compressPayload_known _ _ _ _ Hc) as Hk.
  apply compressPayload_shape in Hc
    as [(-> & -> & ->) | (Hne & -> & compressed & ->)].
  - subst sh. unfold validateSectionHeader, compression, hasUncompressedLen.
    cbn [sh_Reserved sh_SectionType sh_SectionFlags].
    rewrite !Z.eqb_refl. cbn.
    repeat split; first [reflexivity | congruence | intros; congruence].
  - destruct (compressed_flags comp Hk Hne) as (Hland & Hbit & _).
    assert (Hhas : hasUncompressedLen sh = true).
    { unfold hasUncompressedLen. subst sh. cbn [sh_SectionFlags].
      rewrite hasLen_testbit. exact Hbit. }
    assert (Hcomp : compression sh = comp) by exact Hland.
    split.
    { unfold validateSectionHeader.
      rewrite Hcomp, Hk, Hhas. subst sh. cbn [sh_Reserved sh_SectionType].
      rewrite !Z.eqb_refl. cbn.
      destruct (Z.eqb_spec comp CompNone); [contradiction | reflexivity]. }
    split; [exact Hcomp |].
    split.
    { rewrite Hhas. destruct (Z.eqb_spec comp CompNone); [contradiction | reflexivity]. }
    split; [intros; contradiction |].
    intros _. split.
    + rewrite len_app. unfold len at 1, PutUint64. rewrite length_le_put.
      pose proof (len_nonneg compressed). lia.
    + apply Uint64_PutUint64.
Qed.

(** X5.  [compressPayload] (compress.go): its only error that wraps a
    sentinel is [ErrInvalidPayload], and it is returned exactly for a
    compression that is none of the five known ones; an error of a
    compression library is passed on as it is. *)
Theorem compressPayload_sentinel_iff (comp : Z) (gobBytes : bytes) (s : Sentinel) :
  kind_of (compressPayload comp gobBytes) = Some s
  <-> s = ErrInvalidPayload /\ knownCompression comp = false.
Proof.
  unfold compressPayload, compressor, knownCompression,
    zipCompress, zipCompressNamed, zstdCompress, lz4Compress, brotliCompress.
  destruct (comp =? CompNone); cbn [orb kind_of];
    [split; [discriminate | intros [_ [=]]] |].
  destruct (comp =? CompZIP); cbn [orb].
  { destruct (zip_Archive _ _); cbn; split; (discriminate || intros [_ [=]]). }
  destruct (comp =? CompZSTD); cbn [orb].
  { destruct (zstd_EncodeAll _); cbn; split; (discriminate || intros [_ [=]]). }
  destruct (comp =? CompLZ4); cbn [orb].
  { destruct (lz4_Compress _); cbn; split; (discriminate || intros [_ [=]]). }
  destruct (comp =? CompBR); cbn [orb].
  { destruct (brotli_Compress _); cbn; split; (discriminate || intros [_ [=]]). }
  cbn. split; [intros [= <-]; auto | intros [-> _]; reflexivity].
Qed.

Lemma decompressor_known (comp : Z) :
  comp <> CompNone ->
  (exists f, decompressor comp = Some f) <-> knownCompression comp = true.
Proof.
  intros Hne. unfold decompressor, knownCompression.
  destruct (Z.eqb_spec comp CompNone) as [? | _]; [contradiction |].
  repeat (match goal with |- context [?a =? ?b] => destruct (a =? b) end;
          cbn [orb]; [split; eauto |]).
  split; [intros [f [=]] | discriminate].
Qed.

(** X6.  [decompressPayload] (compress.go) hands the payload to a
    decompression routine exactly when the compression is one of ZIP,
    ZSTD, LZ4 and Brotli, the flag [HAS_UNCOMPRESSED_LEN] is set, the
    payload has its eight bytes of length and the length they declare is
    within the limit; the routine then gets the payload without these
    eight bytes, and the declared length.  In every other case no routine
    runs at all. *)
Theorem decompressPayload_runs_routine_iff (comp sectionFlags : Z)
    (payload : bytes) (maxUncompressed : Z) :
  let wellFormed :=
    knownCompression comp = true /\ comp <> CompNone
    /\ Z.testbit sectionFlags 4 = true
    /\ 8 <= len payload
    /\ Uint64 (take 8 payload) <= maxUncompressed in
  let calls := snd (decompressPayload comp sectionFlags payload maxUncompressed) in
  (wellFormed ->
   calls = [EvCodec comp (drop 8 payload) (Uint64 (take 8 payload))])
  /\ (~ wellFormed -> calls = []).
Proof.
  cbv zeta. unfold decompressPayload. rewrite hasLen_testbit.
  destruct (Z.eqb_spec comp CompNone) as [-> | Hne].
  { split; [intros (_ & H & _); contradiction |].
    intros _. destruct (Z.testbit sectionFlags 4); reflexivity. }
  destruct (Z.testbit sectionFlags 4); cbn [negb];
    [| split; [intros (_ & _ & [=] & _) | reflexivity]].
  destruct (Z.ltb_spec (len payload) 8) as [Hshort | Hlong];
    [split; [intros (_ & _ & _ & H & _); lia | reflexivity] |].
  destruct (Z.gtb_spec (Uint64 (take 8 payload)) maxUncompressed) as [Hover | Hfits];
    [split; [intros (_ & _ & _ & _ & H); lia | reflexivity] |].
  destruct (decompressor comp) as [f |] eqn:Hf.
  - split; [reflexivity |]. intros Hnot. exfalso. apply Hnot.
    repeat split; try assumption. apply decompressor_known; eauto.
  - split; [| reflexivity]. intros (Hk & _).
    apply decompressor_known in Hk as [f Hf']; [congruence | assumption].
Qed.

Lemma readAllLimit_whole (data : bytes) (n : Z) :
  len data < n ->
  readAllLimit {| st_data := data; st_err := None |} n = Ok data.
Proof.
  intros Hn. unfold readAllLimit. cbn [st_data st_err].
  pose proof (len_nonneg data).
  destruct (Z.leb_spec n 0); [lia |].
  destruct (Z.leb_spec n (len data)); [lia | reflexivity].
Qed.

Lemma readAllLimit_exact (data : bytes) :
  readAllLimit {| st_data := data; st_err := None |} (len data) = Ok data.
Proof.
  unfold readAllLimit. cbn [st_data st_err].
  destruct (Z.leb_spec (len data) 0) as [Hz | Hpos].
  - destruct data; [reflexivity |]. rewrite len_cons in Hz.
    pose proof (len_nonneg data). lia.
  - rewrite Z.leb_refl. unfold len. rewrite Nat2Z.id, firstn_all. reflexivity.
Qed.

Lemma routine_inverts (comp : Z) (f : bytes -> result bytes) (gobBytes compressed : bytes) :
  compressor comp = Some f ->
  f gobBytes = Ok compressed ->
  libraryRoundTrip comp gobBytes ->
  len gobBytes < 2 ^ 63 - 1 ->
  exists routine,
    decompressor comp = Some routine
    /\ routine compressed (len gobBytes) = Ok gobBytes.
Proof.
  unfold compressor, decompressor, libraryRoundTrip.
  intros Hf Hc Hlib Hlen. pose proof (len_nonneg gobBytes) as Hpos.
  destruct (comp =? CompZIP).
  { injection Hf as <-. eexists; split; [reflexivity |].
    unfold zipCompress, zipCompressNamed in Hc.
    destruct (zip_Archive _ _) as [z |] eqn:Hz; [| discriminate].
    injection Hc as <-.
    destruct (Hlib z eq_refl) as (zf & Hr & (Hname & Hdir & Hsize) & Hopen).
    unfold zipDecompress. rewrite Hr. cbn [ext rbind].
    rewrite Hname, Hdir, Hsize, Hopen, Z.eqb_refl. cbn [ext rbind negb].
    change (("payload.gob" =? "payload.gob")%string) with true. cbn [negb].
    rewrite wrap_int64_small by lia. apply readAllLimit_exact. }
  destruct (comp =? CompZSTD).
  { injection Hf as <-. eexists; split; [reflexivity |].
    unfold zstdCompress in Hc.
    destruct (zstd_EncodeAll _) as [c |] eqn:Hz; [| discriminate].
    injection Hc as <-.
    unfold zstdDecompress. rewrite (Hlib c eq_refl). cbn [ext rbind].
    destruct (Z.gtb_spec (len gobBytes) (len gobBytes)); [lia | reflexivity]. }
  destruct (comp =? CompLZ4).
  { injection Hf as <-. eexists; split; [reflexivity |].
    unfold lz4Compress in Hc.
    destruct (lz4_Compress _) as [c |] eqn:Hz; [| discriminate].
    injection Hc as <-.
    unfold lz4Decompress. rewrite (Hlib c eq_refl).
    rewrite (wrap_int64_small (len gobBytes)), wrap_int64_small by lia.
    rewrite readAllLimit_whole by lia. cbn [rbind].
    destruct (Z.gtb_spec (len gobBytes) (len gobBytes)); [lia | reflexivity]. }
  destruct (comp =? CompBR); [| discriminate].
  injection Hf as <-. eexists; split; [reflexivity |].
  unfold brotliCompress in Hc.
  destruct (brotli_Compress _) as [c |] eqn:Hz; [| discriminate].
  injection Hc as <-.
  unfold brotliDecompress. rewrite (Hlib c eq_refl).
  rewrite (wrap_int64_small (len gobBytes)), wrap_int64_small by lia.
  rewrite readAllLimit_whole by lia. cbn [rbind].
  destruct (Z.gtb_spec (len gobBytes) (len gobBytes)); [lia | reflexivity].
Qed.

(** X7.  [compressPayload] then [decompressPayload] (compress.go): when
    the compression library gives back what was put into it,
    [decompressPayload] on the flags and the payload of [compressPayload]
    returns the input, provided the input is within the limit (a limit
    that [CompNone] does not look at). *)
Theorem decompressPayload_inverts_compressPayload (comp : Z)
    (gobBytes : bytes) (flags : Z) (payload : bytes) (maxUncompressed : Z) :
  compressPayload comp gobBytes = Ok (flags, payload) ->
  libraryRoundTrip comp gobBytes ->
  len gobBytes < 2 ^ 63 - 1 ->
  comp = CompNone \/ len gobBytes <= maxUncompressed ->
  fst (decompressPayload comp flags payload maxUncompressed) = Ok gobBytes.
Proof.
  intros Hc Hlib Hlen Hmax.
  pose proof (compressPayload_known _ _ _ _ Hc) as Hk.
  apply (decompress_compressed comp gobBytes flags payload maxUncompressed);
    try assumption; [| lia].
  unfold survivesEnvelope.
  destruct (Z.eq_dec comp CompNone) as [-> | Hne]; [left; reflexivity | right].
  revert Hc. unfold compressPayload.
  destruct (Z.eqb_spec comp CompNone) as [? | _]; [contradiction |].
  destruct (compressor comp) as [f |] eqn:Hf; [| discriminate].
  destruct (f gobBytes) as [compressed |] eqn:Hfc; cbn [rbind]; [| discriminate].
  intros [= _ <-].
  destruct (routine_inverts comp f gobBytes compressed Hf Hfc Hlib Hlen)
    as (routine & Hroutine & Hout).
  exists routine. split; [exact Hroutine | exact Hout].
Qed.

(** X8.  [zipDecompress] (compress.go): its only error that wraps a
    sentinel is [ErrInvalidPayload], and it is returned exactly when the
    archive can be opened and is not made of the single file
    [payload.gob] of the expected uncompressed size; what the archive
    reader and the entry's stream report is passed on as it is. *)
Theorem zipDecompress_sentinel_iff (zipBytes : bytes) (expected : Z) (s : Sentinel) :
  kind_of (zipDecompress zipBytes expected) = Some s
  <-> s = ErrInvalidPayload
      /\ exists files,
           zip_NewReader zipBytes = Done files
           /\ ~ exists zf, files = [zf] /\ payloadEntry zf expected.
Proof.
  unfold zipDecompress, payloadEntry.
  destruct (zip_NewReader zipBytes) as [files | text]; cbn [ext rbind].
  2: { cbn. split; [discriminate | intros (_ & files & [=] & _)]. }
  destruct files as [| zf [| zf' files]].
  - cbn. split.
    + intros [= <-]. split; [reflexivity |]. exists []. split; [reflexivity |].
      intros (zf & [=] & _).
    + intros (-> & _). reflexivity.
  - destruct (String.eqb_spec (zf_Name zf) "payload.gob") as [Hname | Hname];
      cbn [negb].
    2: { cbn. split.
         - intros [= <-]. split; [reflexivity |]. exists [zf].
           split; [reflexivity |]. intros (zf0 & [= <-] & Hn & _). contradiction.
         - intros (-> & _). reflexivity. }
    destruct (zf_IsDir zf) eqn:Hdir.
    { cbn. split.
      - intros [= <-]. split; [reflexivity |]. exists [zf].
        split; [reflexivity |]. intros (zf0 & [= <-] & _ & Hd & _). congruence.
      - intros (-> & _). reflexivity. }
    destruct (Z.eqb_spec (zf_UncompressedSize64 zf) expected) as [Hsize | Hsize];
      cbn [negb].
    2: { cbn. split.
         - intros [= <-]. split; [reflexivity |]. exists [zf].
           split; [reflexivity |]. intros (zf0 & [= <-] & _ & _ & Hs). contradiction.
         - intros (-> & _). reflexivity. }
    split.
    + intros Hkind. exfalso.
      destruct (zf_Open zf) as [rc | text]; cbn [ext rbind] in Hkind;
        [| discriminate].
      destruct (readAllLimit rc (wrap_int64 expected)) as [out | e] eqn:Hread;
        [discriminate |].
      apply readAllLimit_error in Hread as [text ->]. discriminate.
    + intros (_ & files & [= <-] & Hnot). exfalso. apply Hnot.
      exists zf. auto.
  - cbn. split.
    + intros [= <-]. split; [reflexivity |]. exists (zf :: zf' :: files).
      split; [reflexivity |]. intros (zf0 & [=] & _).
    + intros (-> & _). reflexivity.
Qed.

(** X9.  The four decompression routines (compress.go): none of
    [zipDecompress], [zstdDecompress], [lz4Decompress] and
    [brotliDecompress] returns more bytes than the expected number it was
    called with. *)
Theorem decompression_routines_bounded (input : bytes) (expected : Z) (out : bytes) :
  0 <= expected < 2 ^ 64 ->
  zipDecompress input expected = Ok out
  \/ zstdDecompress input expected = Ok out
  \/ lz4Decompress input expected = Ok out
  \/ brotliDecompress input expected = Ok out ->
  len out <= expected.
Proof.
  intros Hr [H | [H | [H | H]]].
  - exact (decompressor_bounded CompZIP _ input expected out eq_refl Hr H).
  - exact (decompressor_bounded CompZSTD _ input expected out eq_refl Hr H).
  - exact (decompressor_bounded CompLZ4 _ input expected out eq_refl Hr H).
  - exact (decompressor_bounded CompBR _ input expected out eq_refl Hr H).
Qed.

End Envelope.

(** ** validate.go: what the validator accepts *)

Section ValidatorAccepts.
Context `{L : Libs}.

Lemma result_unit_Ok (r : result unit) : is_Ok r = true -> r = Ok tt.
Proof. destruct r as [[] | e]; [reflexivity | discriminate]. Qed.

Lemma validateMarkdownFiles_accepts (limits : Limits) (files : list MarkdownFile) :
  forall seen,
    validateMarkdownFiles limits seen files = Ok tt
    <-> NoDup (map mf_Path files)
        /\ Forall (fun f => mf_Path f ∉ seen) files
        /\ Forall (fileOk limits) files.
Proof.
  induction files as [| f files IH]; intros seen.
  - cbn. split; [intros _; repeat split; constructor | reflexivity].
  - cbn [validateMarkdownFiles map].
    change (map mf_Path files) with (mf_Path <$> files).
    rewrite NoDup_cons, !Forall_cons. unfold fileOk at 1.
    destruct (validateContainerPath (mf_Path f)) as [[] | e];
      [| split; [discriminate | intros (_ & _ & ([=] & _) & _)]].
    case_bool_decide as Hseen;
      [split; [discriminate | intros (_ & (Hn & _) & _); contradiction] |].
    destruct (utf8_Valid (mf_Content f)); cbn [negb];
      [| split; [discriminate | intros (_ & _ & (_ & [=] & _) & _)]].
    destruct (Z.gtb_spec (len (mf_Content f)) (MaxSingleMarkdownFileSize limits))
      as [Hbig | Hfits];
      [split; [discriminate | intros (_ & _ & (_ & _ & Hle) & _); lia] |].
    rewrite IH. change (map mf_Path files) with (mf_Path <$> files).
    split.
    + intros (Hnd & Hnotin & Hok).
      repeat split; try assumption.
      * intros (f' & Heq & Hin)%list_elem_of_fmap.
        rewrite Forall_forall in Hnotin. apply (Hnotin f' Hin).
        rewrite Heq. apply elem_of_union_l, elem_of_singleton. reflexivity.
      * eapply Forall_impl; [exact Hnotin |]. cbn. intros f' Hf' Hin.
        apply Hf', elem_of_union_r, Hin.
    + intros ((Hfresh & Hnd) & (_ & Hnotin) & (_ & Hok)).
      repeat split; try assumption.
      rewrite Forall_forall in Hnotin |- *. intros f' Hin.
      specialize (Hnotin f' Hin).
      assert (mf_Path f' <> mf_Path f) as Hne.
      { intros Heq. apply Hfresh. apply list_elem_of_fmap. eauto. }
      rewrite elem_of_union, elem_of_singleton. intros [? | ?]; contradiction.
Qed.

Lemma checkSHA256_accepts (verifyHashes : bool) (it : MediaItem) :
  checkSHA256 verifyHashes it = Ok tt
  <-> (verifyHashes = true ->
       mi_SHA256 it = zeroSHA256 \/ sha256_Sum256 (mi_Data it) = mi_SHA256 it).
Proof.
  unfold checkSHA256, computedSHA256.
  destruct verifyHashes; [| split; [discriminate | reflexivity]].
  case_bool_decide as Hzero; cbn [negb]; [split; auto |].
  case_bool_decide as Hsum; cbn [negb]; [split; auto |].
  split; [discriminate |]. intros H. destruct (H eq_refl); contradiction.
Qed.

Lemma validateMediaItems_accepts (limits : Limits) (verifyHashes : bool)
    (items : list MediaItem) :
  forall seen,
    validateMediaItems limits verifyHashes seen items = Ok tt
    <-> NoDup (map mi_ID items)
        /\ Forall (fun it => mi_ID it ∉ seen) items
        /\ Forall (itemOk limits verifyHashes) items.
Proof.
  induction items as [| it items IH]; intros seen.
  - cbn. split; [intros _; repeat split; constructor | reflexivity].
  - cbn [validateMediaItems map].
    change (map mi_ID items) with (mi_ID <$> items).
    rewrite NoDup_cons, !Forall_cons. unfold itemOk at 1.
    destruct (isBlank (mi_ID it));
      [split; [discriminate | intros (_ & _ & ([=] & _) & _)] |].
    case_bool_decide as Hseen;
      [split; [discriminate | intros (_ & (Hn & _) & _); contradiction] |].
    assert (Hpath :
      is_Ok (if negb (mi_Path it =? "")%string
             then validateContainerPath (mi_Path it) else Ok tt) = true
      <-> mi_Path it = ""%string \/ validateContainerPath (mi_Path it) = Ok tt).
    { destruct (String.eqb_spec (mi_Path it) "") as [He | Hne]; cbn [negb].
      - split; auto.
      - split.
        + intros H. right. apply result_unit_Ok, H.
        + intros [? | ->]; [contradiction | reflexivity]. }
    destruct (if negb (mi_Path it =? "")%string
              then validateContainerPath (mi_Path it) else Ok tt) as [[] | e].
    2: { split; [discriminate |]. intros (_ & _ & (_ & Hp & _) & _).
         apply Hpath in Hp. discriminate. }
    destruct (Z.gtb_spec (len (mi_Data it)) (MaxSingleMediaSize limits))
      as [Hbig | Hfits];
      [split; [discriminate | intros (_ & _ & (_ & _ & Hle & _) & _); lia] |].
    pose proof (checkSHA256_accepts verifyHashes it) as Hsha.
    destruct (checkSHA256 verifyHashes it) as [[] | e]; cbn [rbind].
    2: { split; [discriminate |]. intros (_ & _ & (_ & _ & _ & Hh) & _).
         apply Hsha in Hh. discriminate. }
    rewrite IH. change (map mi_ID items) with (mi_ID <$> items).
    split.
    + intros (Hnd & Hnotin & Hok).
      repeat split; try assumption.
      * intros (it' & Heq & Hin)%list_elem_of_fmap.
        rewrite Forall_forall in Hnotin. apply (Hnotin it' Hin).
        rewrite Heq. apply elem_of_union_l, elem_of_singleton. reflexivity.
      * eapply Forall_impl; [exact Hnotin |]. cbn. intros it' Hit' Hin.
        apply Hit', elem_of_union_r, Hin.
      * apply Hpath. reflexivity.
      * apply Hsha. reflexivity.
    + intros ((Hfresh & Hnd) & (_ & Hnotin) & (_ & Hok)).
      repeat split; try assumption.
      rewrite Forall_forall in Hnotin |- *. intros it' Hin.
      specialize (Hnotin it' Hin).
      assert (mi_ID it' <> mi_ID it) as Hne.
      { intros Heq. apply Hfresh. apply list_elem_of_fmap. eauto. }
      rewrite elem_of_union, elem_of_singleton. intros [? | ?]; contradiction.
Qed.

Lemma Forall_not_in_empty {A} (key : A -> string) (l : list A) :
  Forall (fun x => key x ∉ (∅ : gset string)) l.
Proof. apply Forall_forall. intros x _. apply not_elem_of_empty. Qed.

Lemma validateDocument_accepts (doc : Document) (limits : Limits)
    (verifyHashes : bool) :
  validateDocument (Some doc) limits verifyHashes = Ok tt
  <-> mb_BundleVersion (doc_Markdown doc) = VersionV1
      /\ 0 < len (mb_Files (doc_Markdown doc)) <= MaxMarkdownFiles limits
      /\ (mb_RootPath (doc_Markdown doc) = ""%string
          \/ validateContainerPath (mb_RootPath (doc_Markdown doc)) = Ok tt)
      /\ NoDup (map mf_Path (mb_Files (doc_Markdown doc)))
      /\ Forall (fileOk limits) (mb_Files (doc_Markdown doc))
      /\ media_BundleVersion (doc_Media doc) = VersionV1
      /\ len (media_Items (doc_Media doc)) <= MaxMediaItems limits
      /\ NoDup (map mi_ID (media_Items (doc_Media doc)))
      /\ Forall (itemOk limits verifyHashes) (media_Items (doc_Media doc)).
Proof.
  unfold validateDocument.
  pose proof (len_nonneg (mb_Files (doc_Markdown doc))) as Hnn.
  destruct (Z.eqb_spec (mb_BundleVersion (doc_Markdown doc)) VersionV1)
    as [Hv | Hv]; cbn [negb];
    [| split; [discriminate | intros (? & _); contradiction]].
  destruct (Z.eqb_spec (len (mb_Files (doc_Markdown doc))) 0) as [Hz | Hnz];
    [split; [discriminate | intros (_ & ? & _); lia] |].
  destruct (Z.gtb_spec (len (mb_Files (doc_Markdown doc))) (MaxMarkdownFiles limits))
    as [Hmany | Hfew];
    [split; [discriminate | intros (_ & ? & _); lia] |].
  assert (Hroot :
    is_Ok (if negb (mb_RootPath (doc_Markdown doc) =? "")%string
           then validateContainerPath (mb_RootPath (doc_Markdown doc))
           else Ok tt) = true
    <-> mb_RootPath (doc_Markdown doc) = ""%string
        \/ validateContainerPath (mb_RootPath (doc_Markdown doc)) = Ok tt).
  { destruct (String.eqb_spec (mb_RootPath (doc_Markdown doc)) "") as [He | Hne];
      cbn [negb].
    - split; auto.
    - split.
      + intros H. right. apply result_unit_Ok, H.
      + intros [? | ->]; [contradiction | reflexivity]. }
  destruct (if negb (mb_RootPath (doc_Markdown doc) =? "")%string
            then validateContainerPath (mb_RootPath (doc_Markdown doc))
            else Ok tt) as [[] | e].
  2: { split; [discriminate |]. intros (_ & _ & Hp & _).
       apply Hroot in Hp. discriminate. }
  pose proof (validateMarkdownFiles_accepts limits (mb_Files (doc_Markdown doc)) ∅)
    as Hmd.
  destruct (validateMarkdownFiles limits ∅ (mb_Files (doc_Markdown doc)))
    as [[] | e]; cbn [rbind].
  2: { split; [discriminate |]. intros (_ & _ & _ & Hnd & Hok & _).
       assert (Err e = Ok tt) as [=].
       apply Hmd. repeat split; try assumption. apply Forall_not_in_empty. }
  destruct (Z.eqb_spec (media_BundleVersion (doc_Media doc)) VersionV1)
    as [Hmv | Hmv]; cbn [negb];
    [| split; [discriminate | intros (_ & _ & _ & _ & _ & ? & _); contradiction]].
  destruct (Z.gtb_spec (len (media_Items (doc_Media doc))) (MaxMediaItems limits))
    as [Hmany' | Hfew'];
    [split; [discriminate | intros (_ & _ & _ & _ & _ & _ & ? & _); lia] |].
  rewrite validateMediaItems_accepts.
  destruct Hmd as [Hmd _]. destruct (Hmd eq_refl) as (Hnd & _ & Hok).
  split.
  - intros (Hnd' & _ & Hok'). repeat split; try assumption; try lia.
    apply Hroot. reflexivity.
  - intros (_ & _ & _ & _ & _ & _ & _ & Hnd' & Hok').
    repeat split; try assumption. apply Forall_not_in_empty.
Qed.

(** X10.  [validateDocument] (validate.go) accepts a document exactly
    when: both bundle versions are 1; there is at least one Markdown file
    and no more files and media items than the limits allow; the root
    path, when it is set, and the path of every file and of every media
    item that has one are legal container paths; no two files have the
    same path and no two media items the same ID; every content is valid
    UTF-8 and within the size limit; every ID has a character that is
    not white space; every media item is within its size limit; and, when
    hashes are verified, every digest is all zero or is the digest of its
    data. *)
Theorem validateDocument_accepts_iff (doc : Document) (limits : Limits)
    (verifyHashes : bool) :
  validateDocument (Some doc) limits verifyHashes = Ok tt
  <-> mb_BundleVersion (doc_Markdown doc) = VersionV1
      /\ 0 < len (mb_Files (doc_Markdown doc)) <= MaxMarkdownFiles limits
      /\ (mb_RootPath (doc_Markdown doc) = ""%string
          \/ validateContainerPath (mb_RootPath (doc_Markdown doc)) = Ok tt)
      /\ NoDup (map mf_Path (mb_Files (doc_Markdown doc)))
      /\ Forall (fun f =>
                   validateContainerPath (mf_Path f) = Ok tt
                   /\ utf8_Valid (mf_Content f) = true
                   /\ len (mf_Content f) <= MaxSingleMarkdownFileSize limits)
           (mb_Files (doc_Markdown doc))
      /\ media_BundleVersion (doc_Media doc) = VersionV1
      /\ len (media_Items (doc_Media doc)) <= MaxMediaItems limits
      /\ NoDup (map mi_ID (media_Items (doc_Media doc)))
      /\ Forall (fun it =>
                   isBlank (mi_ID it) = false
                   /\ (mi_Path it = ""%string
                       \/ validateContainerPath (mi_Path it) = Ok tt)
                   /\ len (mi_Data it) <= MaxSingleMediaSize limits
                   /\ (verifyHashes = true ->
                       mi_SHA256 it = zeroSHA256
                       \/ sha256_Sum256 (mi_Data it) = mi_SHA256 it))
           (media_Items (doc_Media doc)).
Proof. exact (validateDocument_accepts doc limits verifyHashes). Qed.

(** X11.  [validateDocument] (validate.go) never rejects a document for
    larger limits or for hash verification switched off: a document that
    is accepted stays accepted when the four limits of the validator are
    raised and when [verifyHashes] goes from true to false. *)
Theorem validateDocument_loosened (doc : Document) (limits limits' : Limits)
    (verifyHashes verifyHashes' : bool) :
  validatorLimitsLe limits limits' ->
  (verifyHashes' = true -> verifyHashes = true) ->
  validateDocument (Some doc) limits verifyHashes = Ok tt ->
  validateDocument (Some doc) limits' verifyHashes' = Ok tt.
Proof.
  intros (Hf & Hi & Hfs & His) Hv.
  rewrite !validateDocument_accepts.
  intros (H1 & H2 & H3 & H4 & H5 & H6 & H7 & H8 & H9).
  repeat split; try assumption; try lia.
  - eapply Forall_impl; [exact H5 |]. unfold fileOk. cbn.
    intros f (? & ? & ?). repeat split; try assumption. lia.
  - eapply Forall_impl; [exact H9 |]. unfold itemOk. cbn.
    intros it (? & ? & ? & Hh). repeat split; try assumption; [lia |].
    intros Hv'. apply Hh, Hv, Hv'.
Qed.

Lemma validateMarkdownFiles_checked (limits : Limits) (files files' : list MarkdownFile) :
  map checkedOfFile files = map checkedOfFile files' ->
  forall seen,
    validateMarkdownFiles limits seen files
    = validateMarkdownFiles limits seen files'.
Proof.
  revert files'. induction files as [| f files IH]; intros [| f' files'];
    try discriminate; [reflexivity |].
  cbn [map]. unfold checkedOfFile at 1 3. intros [= Hp Hc Hrest] seen.
  cbn [validateMarkdownFiles]. rewrite Hp, Hc, (IH files' Hrest). reflexivity.
Qed.

Lemma validateMediaItems_checked (limits : Limits) (verifyHashes : bool)
    (items items' : list MediaItem) :
  map checkedOfItem items = map checkedOfItem items' ->
  forall seen,
    validateMediaItems limits verifyHashes seen items
    = validateMediaItems limits verifyHashes seen items'.
Proof.
  revert items'. induction items as [| it items IH]; intros [| it' items'];
    try discriminate; [reflexivity |].
  cbn [map]. unfold checkedOfItem at 1 3. intros [= Hid Hp Hd Hs Hrest] seen.
  cbn [validateMediaItems]. unfold checkSHA256, computedSHA256.
  rewrite Hid, Hp, Hd, Hs, (IH items' Hrest). reflexivity.
Qed.

Lemma map_length_eq {A B} (f : A -> B) (l l' : list A) :
  map f l = map f l' -> len l = len l'.
Proof.
  intros H. unfold len. f_equal.
  rewrite <- (length_map f l), <- (length_map f l'), H. reflexivity.
Qed.

(** X12.  [validateDocument] (validate.go) looks at the bundle versions,
    the root path, the path and content of every Markdown file and the ID,
    path, data and digest of every media item, and at nothing else: two
    documents that agree there get the same verdict.  The metadata, the
    attributes, the MIME types and the media references of the Markdown
    files are never checked; a reference to a media ID that no item has
    is not an error. *)
Theorem validateDocument_checked_fields_only (doc doc' : Document)
    (limits : Limits) (verifyHashes : bool) :
  mb_BundleVersion (doc_Markdown doc) = mb_BundleVersion (doc_Markdown doc') ->
  mb_RootPath (doc_Markdown doc) = mb_RootPath (doc_Markdown doc') ->
  map checkedOfFile (mb_Files (doc_Markdown doc))
  = map checkedOfFile (mb_Files (doc_Markdown doc')) ->
  media_BundleVersion (doc_Media doc) = media_BundleVersion (doc_Media doc') ->
  map checkedOfItem (media_Items (doc_Media doc))
  = map checkedOfItem (media_Items (doc_Media doc')) ->
  validateDocument (Some doc) limits verifyHashes
  = validateDocument (Some doc') limits verifyHashes.
Proof.
  intros Hv Hr Hf Hmv Hi. unfold validateDocument.
  rewrite Hv, Hr, Hmv, (map_length_eq _ _ _ Hf), (map_length_eq _ _ _ Hi),
    (validateMarkdownFiles_checked limits _ _ Hf),
    (validateMediaItems_checked limits verifyHashes _ _ Hi).
  reflexivity.
Qed.

End ValidatorAccepts.

(** ** encode.go: what [Encode] writes, and when *)

Section EncodeWrites.
Context `{L : Libs}.

Lemma Encode_unfold {W} `{Writer W} (w : W) (doc : Document)
    (opts : list WriteOption) :
  Encode w (Some doc) opts
  = (fst (encodeDocument (writeConfigOf opts) (documentWritten opts doc) w),
     snd (encodeDocument (writeConfigOf opts) (documentWritten opts doc) w),
     Some (documentWritten opts doc)).
Proof.
  unfold Encode, documentWritten. cbv zeta.
  change {| wc_limits := withDefaults (wc_limits (applyOptions defaultWriteConfig opts));
            wc_verifyHashes := wc_verifyHashes (applyOptions defaultWriteConfig opts);
            wc_autoPopulate := wc_autoPopulate (applyOptions defaultWriteConfig opts);
            wc_mdCompression := wc_mdCompression (applyOptions defaultWriteConfig opts);
            wc_mediaCompression :=
              wc_mediaCompression (applyOptions defaultWriteConfig opts) |}
    with (writeConfigOf opts).
  destruct (encodeDocument _ _ w) as [r w']. reflexivity.
Qed.

(** The steps of [Encode] before its first write. *)
Ltac encode_steps :=
  unfold encodeDocument, wbind, wlift;
  repeat match goal with
    | |- context [validateDocument ?d ?l ?v] =>
      destruct (validateDocument d l v) as [[] | ?] eqn:?Hvalid
    | |- context [marshalMetadata ?l ?m] =>
      destruct (marshalMetadata l m) as [[? ?] | ?] eqn:?Hmeta
    | |- context [gobEncodeMarkdown ?b] =>
      destruct (gobEncodeMarkdown b) as [? | ?] eqn:?Hmd
    | |- context [gobEncodeMedia ?b] =>
      destruct (gobEncodeMedia b) as [? | ?] eqn:?Hmedia
    | |- context [compressPayload ?c ?g] =>
      destruct (compressPayload c g) as [[? ?] | ?] eqn:?Hcomp
    end.

(** The writes of [Encode], one after the other; an error of a write is
    the error of [Encode]. *)
Ltac encode_writes :=
  unfold writeFixedHeader, writeSectionHeader, write;
  repeat match goal with
    | |- context [if ?c >? 0 then _ else _] => destruct (c >? 0)
    | |- context [w_Write ?w ?p] =>
      let Hw := fresh "Hw" in
      destruct (w_Write w p) as [? [? |]] eqn:Hw;
      [intros [= <- _]; right; eauto |]
    end.

Lemma encodeDocument_error {W} `{Writer W} (cfg : writeConfig)
    (doc : Document) (w w' : W) (e : error) :
  encodeDocument cfg doc w = (Err e, w') ->
  w' = w \/ exists wi p wj, w_Write wi p = (wj, Some e).
Proof.
  encode_steps; try (intros [= _ <-]; left; reflexivity).
  encode_writes; discriminate.
Qed.

(** X13.  [Encode] (encode.go) makes all its checks before its first
    write and returns a writer's error as it is: whatever the writer, when
    [Encode] fails, either the writer is as it was, nothing having been
    written, or the error is one that a call of the writer's [Write] has
    returned.  So an error that is not the writer's own leaves the writer
    untouched. *)
Theorem Encode_error_is_early_or_the_writers {W} `{Writer W} (w w' : W)
    (doc doc' : option Document) (opts : list WriteOption) (e : error) :
  Encode w doc opts = (Err e, w', doc') ->
  w' = w \/ exists wi p wj, w_Write wi p = (wj, Some e).
Proof.
  destruct doc as [d |]; [| intros [= _ <- _]; left; reflexivity].
  rewrite Encode_unfold.
  destruct (encodeDocument (writeConfigOf opts) (documentWritten opts d) w)
    as [r w1] eqn:He. cbn [fst snd].
  intros [= -> <- _]. exact (encodeDocument_error _ _ _ _ _ He).
Qed.

Lemma len_zero_nil {A} (l : list A) : (len l >? 0) = false -> l = [].
Proof.
  destruct l as [| x l]; [reflexivity |]. rewrite len_cons.
  pose proof (len_nonneg l). destruct (Z.gtb_spec (1 + len l) 0); [discriminate | lia].
Qed.

Lemma encodeDocument_buffer (cfg : writeConfig) (doc : Document) (buf : bytes) :
  match encodeDocument (W := bytes) cfg doc buf with
  | (Err _, out) => out = buf
  | (Ok _, out) =>
    exists metadataBytes headerFlags mdGob mediaGob mdFlags mdPayload
           mediaFlags mediaPayload,
      validateDocument (Some doc) (wc_limits cfg) (wc_verifyHashes cfg) = Ok tt
      /\ marshalMetadata (wc_limits cfg) (doc_Metadata doc)
         = Ok (metadataBytes, headerFlags)
      /\ gobEncodeMarkdown (doc_Markdown doc) = Ok mdGob
      /\ gobEncodeMedia (doc_Media doc) = Ok mediaGob
      /\ compressPayload (wc_mdCompression cfg) mdGob = Ok (mdFlags, mdPayload)
      /\ compressPayload (wc_mediaCompression cfg) mediaGob
         = Ok (mediaFlags, mediaPayload)
      /\ out = buf ++ encodedBytes headerFlags metadataBytes mdFlags mdPayload
                        mediaFlags mediaPayload
  end.
Proof.
  encode_steps; try reflexivity.
  unfold writeFixedHeader, writeSectionHeader, write, w_Write, bytes_Buffer.
  match goal with
  | |- context [if ?c >? 0 then _ else _] => destruct (c >? 0) eqn:Hlen
  end.
  - do 8 eexists. repeat (split; [first [reflexivity | eassumption] |]).
    unfold encodedBytes, headerOf. rewrite <- !app_assoc. reflexivity.
  - apply len_zero_nil in Hlen. subst.
    do 8 eexists. repeat (split; [first [reflexivity | eassumption] |]).
    unfold encodedBytes, headerOf. rewrite <- !app_assoc. reflexivity.
Qed.

(** X14.  [Encode] into a [bytes.Buffer] (encode.go) is all or nothing:
    when it fails, the buffer is as it was. *)
Theorem Encode_buffer_untouched_on_error (buf : bytes) (doc : option Document)
    (opts : list WriteOption) (e : error) :
  fst (fst (Encode (W := bytes) buf doc opts)) = Err e ->
  snd (fst (Encode (W := bytes) buf doc opts)) = buf.
Proof.
  destruct doc as [d |]; [| reflexivity].
  rewrite Encode_unfold. cbn [fst snd].
  pose proof (encodeDocument_buffer (writeConfigOf opts) (documentWritten opts d) buf)
    as Hb.
  destruct (encodeDocument _ _ buf) as [[[] | e'] out]; cbn [fst snd];
    [discriminate | intros _; exact Hb].
Qed.

(** X15.  The file that [Encode] writes (encode.go): when [Encode]
    succeeds on a buffer, it has appended the 32 bytes of the fixed header
    with the magic, version 1, header size 32 and the length of the
    metadata, then the JSON text of the metadata, then the 16 bytes of the
    Markdown section header and the payload that [compressPayload] made of
    the gob encoding of the Markdown bundle, then the same for the Media
    bundle; the document that went into them had passed
    [validateDocument]. *)
Theorem Encode_file_layout (buf out : bytes) (doc : Document)
    (opts : list WriteOption) (doc' : option Document) :
  Encode (W := bytes) buf (Some doc) opts = (Ok tt, out, doc') ->
  let cfg := writeConfigOf opts in
  let written := documentWritten opts doc in
  exists metadataBytes headerFlags mdGob mediaGob mdFlags mdPayload
         mediaFlags mediaPayload,
    doc' = Some written
    /\ validateDocument (Some written) (wc_limits cfg) (wc_verifyHashes cfg) = Ok tt
    /\ marshalMetadata (wc_limits cfg) (doc_Metadata written)
       = Ok (metadataBytes, headerFlags)
    /\ gobEncodeMarkdown (doc_Markdown written) = Ok mdGob
    /\ gobEncodeMedia (doc_Media written) = Ok mediaGob
    /\ compressPayload (wc_mdCompression cfg) mdGob = Ok (mdFlags, mdPayload)
    /\ compressPayload (wc_mediaCompression cfg) mediaGob
       = Ok (mediaFlags, mediaPayload)
    /\ out
       = buf
         ++ fixedHeaderBytes
              {| h_Magic := Magic; h_Version := VersionV1;
                 h_HeaderFlags := headerFlags;
                 h_FixedHdrSize := fixedHeaderSizeV1;
                 h_MetadataLength := wrap_uint32 (len metadataBytes);
                 h_Reserved0 := 0; h_Reserved1 := 0 |}
         ++ metadataBytes
         ++ sectionHeaderBytes
              {| sh_SectionType := SectionMarkdown; sh_SectionFlags := mdFlags;
                 sh_PayloadLen := len mdPayload; sh_Reserved := 0 |}
         ++ mdPayload
         ++ sectionHeaderBytes
              {| sh_SectionType := SectionMedia; sh_SectionFlags := mediaFlags;
                 sh_PayloadLen := len mediaPayload; sh_Reserved := 0 |}
         ++ mediaPayload.
Proof.
  rewrite Encode_unfold. cbv zeta.
  pose proof (encodeDocument_buffer (writeConfigOf opts) (documentWritten opts doc) buf)
    as Hb.
  destruct (encodeDocument _ _ buf) as [[[] | e'] out']; cbn [fst snd];
    [| discriminate].
  intros [= <- <-].
  destruct Hb as (metadataBytes & headerFlags & mdGob & mediaGob & mdFlags
                  & mdPayload & mediaFlags & mediaPayload & Hb).
  exists metadataBytes, headerFlags, mdGob, mediaGob, mdFlags, mdPayload,
    mediaFlags, mediaPayload.
  split; [reflexivity | exact Hb].
Qed.

Lemma compressPayload_unknown (comp : Z) (gobBytes : bytes) :
  knownCompression comp = false ->
  is_Ok (compressPayload comp gobBytes) = false.
Proof.
  intros Hk. destruct (compressPayload comp gobBytes) as [[flags payload] |] eqn:Hc;
    [| reflexivity].
  apply compressPayload_known in Hc. congruence.
Qed.

(** X16.  [Encode] with a compression that is none of the five known
    ones (encode.go, compress.go): whatever the writer and the document,
    [Encode] fails and writes nothing. *)
Theorem Encode_unknown_compression {W} `{Writer W} (w : W)
    (doc : option Document) (opts : list WriteOption) :
  knownCompression (wc_mdCompression (applyOptions defaultWriteConfig opts)) = false
  \/ knownCompression (wc_mediaCompression (applyOptions defaultWriteConfig opts))
     = false ->
  is_Ok (fst (fst (Encode w doc opts))) = false
  /\ snd (fst (Encode w doc opts)) = w.
Proof.
  intros Hk. destruct doc as [d |]; [| split; reflexivity].
  rewrite Encode_unfold. cbn [fst snd].
  change (wc_mdCompression (applyOptions defaultWriteConfig opts))
    with (wc_mdCompression (writeConfigOf opts)) in Hk.
  change (wc_mediaCompression (applyOptions defaultWriteConfig opts))
    with (wc_mediaCompression (writeConfigOf opts)) in Hk.
  generalize dependent (writeConfigOf opts). intros cfg Hk.
  encode_steps; try (split; reflexivity).
  exfalso. destruct Hk as [Hk | Hk].
  - eapply compressPayload_unknown in Hk. rewrite Hcomp in Hk. discriminate.
  - eapply compressPayload_unknown in Hk. rewrite Hcomp0 in Hk. discriminate.
Qed.

Lemma populateItem_twice (it : MediaItem) :
  populateItem (populateItem it) = populateItem it.
Proof.
  unfold populateItem at 2 3. case_bool_decide as Hz.
  - unfold populateItem, computedSHA256. cbn [mi_SHA256 mi_Data mi_ID mi_Path
      mi_MIMEType mi_Attributes].
    case_bool_decide; reflexivity.
  - unfold populateItem. rewrite bool_decide_eq_false_2 by assumption. reflexivity.
Qed.

Lemma populateSHA256_twice (doc : Document) :
  populateSHA256 (populateSHA256 doc) = populateSHA256 doc.
Proof.
  unfold populateSHA256. cbn [doc_Metadata doc_Markdown doc_Media
    media_BundleVersion media_Items].
  do 2 f_equal. rewrite List.map_map. apply List.map_ext, populateItem_twice.
Qed.

(** X17.  Digests are populated once (encode.go): after a call of
    [Encode] with auto-population on, every later call of [Encode] on the
    document that the first call has left, whatever its writer and its
    options and whether either call succeeds, leaves that document as it
    is. *)
Theorem Encode_populates_once {W W2} `{Writer W} `{Writer W2} (w : W) (w2 : W2)
    (doc : option Document) (opts opts2 : list WriteOption) :
  wc_autoPopulate (applyOptions defaultWriteConfig opts) = true ->
  snd (Encode w2 (snd (Encode w doc opts)) opts2) = snd (Encode w doc opts).
Proof.
  intros Hauto. rewrite !snd_Encode, Hauto.
  destruct (wc_autoPopulate (applyOptions defaultWriteConfig opts2));
    [| reflexivity].
  destruct doc as [d |]; [| reflexivity].
  cbn [fmap option_fmap option_map]. rewrite populateSHA256_twice. reflexivity.
Qed.

Lemma encodeDocument_valid {W} `{Writer W} (cfg : writeConfig) (doc : Document)
    (w : W) :
  fst (encodeDocument cfg doc w) = Ok tt ->
  validateDocument (Some doc) (wc_limits cfg) (wc_verifyHashes cfg) = Ok tt.
Proof.
  unfold encodeDocument, wbind, wlift.
  destruct (validateDocument _ _ _) as [[] | e]; [reflexivity | discriminate].
Qed.

(** X18.  Digests after [Encode] (encode.go, validate.go): when [Encode]
    succeeds with auto-population and hash verification on, as they are
    by default, every media item of the document it leaves carries the
    digest of its data. *)
Theorem Encode_leaves_true_digests {W} `{Writer W} (w w' : W) (doc : Document)
    (opts : list WriteOption) (doc' : option Document) :
  wc_autoPopulate (applyOptions defaultWriteConfig opts) = true ->
  wc_verifyHashes (applyOptions defaultWriteConfig opts) = true ->
  Encode w (Some doc) opts = (Ok tt, w', doc') ->
  exists d,
    doc' = Some d
    /\ Forall (fun it => mi_SHA256 it = sha256_Sum256 (mi_Data it))
         (media_Items (doc_Media d)).
Proof.
  intros Hauto Hverify. rewrite Encode_unfold. intros [= Hr _ <-].
  eexists; split; [reflexivity |].
  apply encodeDocument_valid in Hr.
  change (wc_verifyHashes (writeConfigOf opts))
    with (wc_verifyHashes (applyOptions defaultWriteConfig opts)) in Hr.
  rewrite Hverify in Hr.
  apply validateDocument_accepts in Hr
    as (_ & _ & _ & _ & _ & _ & _ & _ & Hitems).
  unfold documentWritten in *.
  change (wc_autoPopulate (writeConfigOf opts))
    with (wc_autoPopulate (applyOptions defaultWriteConfig opts)) in *.
  rewrite Hauto in *.
  cbn [populateSHA256 doc_Media media_Items] in *.
  rewrite Forall_forall in Hitems |- *. intros it' Hin.
  destruct (Hitems it' Hin) as (_ & _ & _ & Hsha).
  change (map populateItem (media_Items (doc_Media doc)))
    with (populateItem <$> media_Items (doc_Media doc)) in Hin.
  apply list_elem_of_fmap in Hin as (it & -> & _).
  destruct (Hsha eq_refl) as [Hz | Hs]; [| symmetry; exact Hs].
  revert Hz. unfold populateItem. case_bool_decide as Hzero.
  - cbn [mi_SHA256 mi_Data]. intros _. reflexivity.
  - intros Hz. contradiction.
Qed.

End EncodeWrites.

(** ** decode.go: the checks of the fixed header *)

Section DecodeHeaderChecks.
Context `{L : Libs}.

Lemma Decode_eq (input : bytes) (opts : list ReadOption) :
  Decode input opts
  = (fst (decode opts {| rd_rest := input; rd_trace := [] |}),
     rd_trace (snd (decode opts {| rd_rest := input; rd_trace := [] |}))).
Proof. unfold Decode. destruct (decode opts _). reflexivity. Qed.

Lemma mbind_err {A B} (m : M A) (k : A -> M B) (r r' : reader) (e : error) :
  m r = (Err e, r') -> mbind m k r = (Err e, r').
Proof. intros Hm. unfold mbind. rewrite Hm. reflexivity. Qed.

Lemma decode_header_error (opts : list ReadOption) (r r' : reader) (e : error) :
  decodeHeader (rc_limits (readConfigOf opts)) r = (Err e, r') ->
  decode opts r = (Err e, r').
Proof. intros Hh. unfold decode. cbv zeta. apply mbind_err. exact Hh. Qed.

Lemma readFixedHeader_long (input : bytes) (tr : list Event) :
  32 <= len input ->
  readFixedHeader {| rd_rest := input; rd_trace := tr |}
  = (Ok (headerIn input), {| rd_rest := drop 32 input; rd_trace := tr |}).
Proof.
  intros Hlen. unfold readFixedHeader, mbind, io_ReadFull, fixedHeaderSizeV1.
  cbn [rd_rest rd_trace].
  destruct (Z.leb_spec 32 0); [lia |].
  destruct (Z.leb_spec 32 (len input)); [| lia]. reflexivity.
Qed.

Lemma readFixedHeader_short (input : bytes) (tr : list Event) :
  len input < 32 ->
  exists r',
    readFixedHeader {| rd_rest := input; rd_trace := tr |}
    = (Err (if len input =? 0 then IoEOF else IoErrUnexpectedEOF), r')
    /\ rd_trace r' = tr.
Proof.
  intros Hlen. unfold readFixedHeader, mbind, io_ReadFull, fixedHeaderSizeV1.
  cbn [rd_rest rd_trace].
  destruct (Z.leb_spec 32 0); [lia |].
  destruct (Z.leb_spec 32 (len input)); [lia |].
  destruct (len input =? 0); eexists; split; reflexivity.
Qed.

Lemma headerIn_magic (input : bytes) : h_Magic (headerIn input) = take 8 input.
Proof.
  change (h_Magic (headerIn input)) with (take 8 (take 32 input)).
  rewrite take_take. reflexivity.
Qed.

Lemma decodeHeader_long (limits : Limits) (input : bytes) (tr : list Event) :
  32 <= len input ->
  decodeHeader limits {| rd_rest := input; rd_trace := tr |}
  = let h := headerIn input in
    let r' := {| rd_rest := drop 32 input; rd_trace := tr |} in
    if negb (bool_decide (take 8 input = Magic)) then
      (Err (Wrapped ErrInvalidMagic ""), r')
    else if negb (h_FixedHdrSize h =? fixedHeaderSizeV1) then
      (Err (Wrapped ErrInvalidHeader "fixed header size %d"), r')
    else if negb (h_Version h =? VersionV1) then
      (Err (Wrapped ErrUnsupportedVersion ""), r')
    else if negb (h_Reserved0 h =? 0) || negb (h_Reserved1 h =? 0) then
      (Err (Wrapped ErrInvalidHeader "reserved must be zero"), r')
    else if h_MetadataLength h >? MaxMetadataLen limits then
      (Err (Wrapped ErrLimitExceeded "metadata length %d"), r')
    else if h_MetadataLength h >? 0 then
      (mb <- io_ReadFull (h_MetadataLength h) ;;
       if Z.land (h_HeaderFlags h) HeaderFlagMetadataJSON =? 0 then
         mfail (Wrapped ErrInvalidHeader
                  "metadata present but METADATA_JSON flag not set")
       else
         metadata <- mlift (json_Unmarshal mb) ;;
         match metadata with
         | None => mfail (Wrapped ErrInvalidHeader "metadata must be a JSON object")
         | Some m => mret (Some m)
         end)%M r'
    else (Ok None, r').
Proof.
  intros Hlen. unfold decodeHeader.
  rewrite (mbind_ok _ _ _ _ _ (readFixedHeader_long input tr Hlen)).
  rewrite headerIn_magic. cbv zeta.
  repeat match goal with
         | |- (if ?c then _ else _) _ = _ => destruct c; [reflexivity |]
         end.
  reflexivity.
Qed.

(** *** The sentinels of each step *)

Lemma kindsIn_mbind {A B} (P : Sentinel -> Prop) (m : M A) (k : A -> M B) :
  kindsIn P m -> (forall a, kindsIn P (k a)) -> kindsIn P (mbind m k).
Proof.
  intros Hm Hk r s. unfold mbind. specialize (Hm r s).
  destruct (m r) as [[a | e] r']; cbn [fst] in *.
  - apply Hk.
  - exact Hm.
Qed.

Lemma kindsIn_mret {A} (P : Sentinel -> Prop) (a : A) : kindsIn P (mret a).
Proof. intros r s. discriminate. Qed.

Lemma kindsIn_mfail {A} (P : Sentinel -> Prop) (s : Sentinel) (msg : string) :
  P s -> kindsIn P (@mfail A (Wrapped s msg)).
Proof. intros HP r s' [= <-]. exact HP. Qed.

Lemma kindsIn_mlift {A} (P : Sentinel -> Prop) (x : result A) :
  (forall s, kind_of x = Some s -> P s) -> kindsIn P (mlift x).
Proof. intros Hx r s. apply Hx. Qed.

Lemma kindsIn_io_ReadFull (P : Sentinel -> Prop) (n : Z) : kindsIn P (io_ReadFull n).
Proof.
  intros r s. unfold io_ReadFull.
  repeat (match goal with |- context [if ?b then _ else _] => destruct b end);
    discriminate.
Qed.

Lemma kindsIn_readSectionHeader (P : Sentinel -> Prop) : kindsIn P readSectionHeader.
Proof.
  apply kindsIn_mbind; [apply kindsIn_io_ReadFull | intros; apply kindsIn_mret].
Qed.

Lemma kindsIn_validateSectionHeader (sh : sectionHeaderV1) (expected : Z) :
  kindsIn sectionKind (mlift (validateSectionHeader sh expected)).
Proof.
  apply kindsIn_mlift. intros s.
  destruct (validateSectionHeader sh expected) as [[] | e] eqn:Hv; [discriminate |].
  apply validateSectionHeader_error in Hv as [msg ->]. intros [= <-].
  left. reflexivity.
Qed.

Lemma kindsIn_callDecompressPayload (section comp sectionFlags : Z)
    (payload : bytes) (maxUncompressed : Z) :
  kindsIn sectionKind
    (callDecompressPayload section comp sectionFlags payload maxUncompressed).
Proof.
  intros r s. unfold callDecompressPayload.
  pose proof (decompressPayload_error comp sectionFlags payload maxUncompressed) as He.
  destruct (decompressPayload comp sectionFlags payload maxUncompressed)
    as [[out | e] evs]; cbn [fst] in *; [discriminate |].
  destruct (He e eq_refl) as [[[text ->] | [msg ->]] | [msg ->]];
    [discriminate | intros [= <-] | intros [= <-]]; unfold sectionKind; auto.
Qed.

Lemma kindsIn_gobDecode {A} (P : Sentinel -> Prop) (section : Z)
    (decoder : bytes -> outcome A) (data : bytes) :
  kindsIn P (gobDecode section decoder data).
Proof.
  intros r s. unfold gobDecode. cbn [fst].
  destruct (decoder data); discriminate.
Qed.

Lemma kindsIn_decodeMarkdownSection (limits : Limits) :
  kindsIn sectionKind (decodeMarkdownSection limits).
Proof.
  unfold decodeMarkdownSection.
  apply kindsIn_mbind; [apply kindsIn_readSectionHeader | intros sh].
  apply kindsIn_mbind; [apply kindsIn_validateSectionHeader | intros _].
  destruct (_ >? _);
    [apply kindsIn_mfail; unfold sectionKind; auto |].
  apply kindsIn_mbind; [apply kindsIn_io_ReadFull | intros payload].
  apply kindsIn_mbind; [apply kindsIn_callDecompressPayload | intros gobBytes].
  apply kindsIn_gobDecode.
Qed.

Lemma kindsIn_decodeMediaSection (limits : Limits) :
  kindsIn sectionKind (decodeMediaSection limits).
Proof.
  unfold decodeMediaSection.
  apply kindsIn_mbind; [apply kindsIn_readSectionHeader | intros sh].
  apply kindsIn_mbind; [apply kindsIn_validateSectionHeader | intros _].
  destruct (_ >? _);
    [apply kindsIn_mfail; unfold sectionKind; auto |].
  destruct (_ =? _); [apply kindsIn_mret |].
  apply kindsIn_mbind; [apply kindsIn_io_ReadFull | intros payload].
  apply kindsIn_mbind; [apply kindsIn_callDecompressPayload | intros gobBytes].
  apply kindsIn_gobDecode.
Qed.

Lemma kindsIn_validateDocument (doc : option Document) (limits : Limits)
    (verifyHashes : bool) :
  kindsIn sectionKind (mlift (validateDocument doc limits verifyHashes)).
Proof.
  apply kindsIn_mlift. intros s.
  pose proof (validateDocument_kinds doc limits verifyHashes) as Hk.
  destruct (validateDocument doc limits verifyHashes) as [[] | e]; [discriminate |].
  destruct Hk as (k & msg & -> & [-> | ->]); intros [= <-]; unfold sectionKind; auto.
Qed.

(** A sentinel of [Decode] is one of the header step or one of the later
    steps. *)
Lemma decode_sentinel (opts : list ReadOption) (r : reader) (s : Sentinel) :
  kind_of (fst (decode opts r)) = Some s ->
  kind_of (fst (decodeHeader (rc_limits (readConfigOf opts)) r)) = Some s
  \/ sectionKind s.
Proof.
  unfold decode. cbv zeta. unfold mbind at 1.
  change (withDefaults (rc_limits (applyOptions defaultReadConfig opts)))
    with (rc_limits (readConfigOf opts)).
  destruct (decodeHeader (rc_limits (readConfigOf opts)) r) as [[metadata | e] r'];
    cbn [fst]; [| auto].
  intros Hk. right. revert Hk. generalize r' s.
  change (kindsIn sectionKind
    (markdown <- decodeMarkdownSection (rc_limits (readConfigOf opts)) ;;
     media <- decodeMediaSection (rc_limits (readConfigOf opts)) ;;
     mlift (validateDocument
              (Some {| doc_Metadata := metadata; doc_Markdown := markdown;
                       doc_Media := media |})
              (rc_limits (readConfigOf opts))
              (rc_verifyHashes (applyOptions defaultReadConfig opts))) ;;;
     mret {| doc_Metadata := metadata; doc_Markdown := markdown;
             doc_Media := media |})%M).
  apply kindsIn_mbind; [apply kindsIn_decodeMarkdownSection | intros markdown].
  apply kindsIn_mbind; [apply kindsIn_decodeMediaSection | intros media].
  apply kindsIn_mbind; [apply kindsIn_validateDocument | intros _].
  apply kindsIn_mret.
Qed.

(** The sentinel of the header step says which check has failed. *)
Lemma decodeHeader_sentinel (limits : Limits) (input : bytes) (tr : list Event)
    (s : Sentinel) :
  kind_of (fst (decodeHeader limits {| rd_rest := input; rd_trace := tr |})) = Some s ->
  32 <= len input
  /\ let h := headerIn input in
     if negb (bool_decide (take 8 input = Magic)) then s = ErrInvalidMagic
     else if negb (h_FixedHdrSize h =? fixedHeaderSizeV1) then s = ErrInvalidHeader
     else if negb (h_Version h =? VersionV1) then s = ErrUnsupportedVersion
     else if negb (h_Reserved0 h =? 0) || negb (h_Reserved1 h =? 0) then
       s = ErrInvalidHeader
     else if h_MetadataLength h >? MaxMetadataLen limits then s = ErrLimitExceeded
     else s = ErrInvalidHeader /\ 0 < h_MetadataLength h.
Proof.
  destruct (Z.lt_ge_cases (len input) 32) as [Hshort | Hlong].
  { destruct (readFixedHeader_short input tr Hshort) as (r' & Hr & _).
    unfold decodeHeader. rewrite (mbind_err _ _ _ _ _ Hr). cbn [fst].
    destruct (len input =? 0); discriminate. }
  rewrite decodeHeader_long by assumption. cbv zeta.
  intros Hk. split; [assumption |]. revert Hk.
  repeat match goal with
         | |- kind_of (fst (if ?c then _ else _)) = _ -> _ =>
           destruct c; [intros [= <-]; reflexivity |]
         end.
  destruct (Z.gtb_spec (h_MetadataLength (headerIn input)) 0) as [Hpos | Hz];
    [| discriminate].
  intros Hk. split; [| lia]. revert Hk.
  generalize {| rd_rest := drop 32 input; rd_trace := tr |} s.
  change (kindsIn (fun s => s = ErrInvalidHeader)
    (mb <- io_ReadFull (h_MetadataLength (headerIn input)) ;;
     if Z.land (h_HeaderFlags (headerIn input)) HeaderFlagMetadataJSON =? 0 then
       mfail (Wrapped ErrInvalidHeader
                "metadata present but METADATA_JSON flag not set")
     else
       metadata <- mlift (json_Unmarshal mb) ;;
       match metadata with
       | None => mfail (Wrapped ErrInvalidHeader "metadata must be a JSON object")
       | Some m => mret (Some m)
       end)%M).
  apply kindsIn_mbind; [apply kindsIn_io_ReadFull | intros mb].
  destruct (_ =? 0); [apply kindsIn_mfail; reflexivity |].
  apply kindsIn_mbind.
  - apply kindsIn_mlift. intros s0.
    destruct (json_Unmarshal mb) as [m | e] eqn:Hj; [discriminate |].
    apply json_Unmarshal_error in Hj as [text ->]. discriminate.
  - intros [m |]; [apply kindsIn_mret | apply kindsIn_mfail; reflexivity].
Qed.

Lemma Decode_header_sentinel (input : bytes) (opts : list ReadOption) (s : Sentinel) :
  ~ sectionKind s ->
  kind_of (fst (Decode input opts)) = Some s ->
  kind_of (fst (decodeHeader (rc_limits (readConfigOf opts))
                  {| rd_rest := input; rd_trace := [] |})) = Some s.
Proof.
  intros Hs. rewrite Decode_eq. cbn [fst].
  intros [Hk | Hk]%decode_sentinel; [exact Hk | contradiction].
Qed.

Lemma Decode_header_error (input : bytes) (opts : list ReadOption) (e : error)
    (r' : reader) :
  decodeHeader (rc_limits (readConfigOf opts)) {| rd_rest := input; rd_trace := [] |}
  = (Err e, r') ->
  Decode input opts = (Err e, rd_trace r').
Proof.
  intros Hh. rewrite Decode_eq, (decode_header_error _ _ _ _ Hh). reflexivity.
Qed.

(** X19.  [Decode] (decode.go) reports [ErrInvalidMagic] exactly for an
    input that has the 32 bytes of a fixed header and does not begin with
    the eight bytes of the magic; a shorter input is an error of
    [io.ReadFull], whatever its bytes are. *)
Theorem Decode_invalid_magic_iff (input : bytes) (opts : list ReadOption) :
  kind_of (fst (Decode input opts)) = Some ErrInvalidMagic
  <-> 32 <= len input /\ take 8 input <> Magic.
Proof.
  split.
  - intros Hk. apply Decode_header_sentinel in Hk.
    2: { unfold sectionKind. intros [? | [? | [? | ?]]]; discriminate. }
    apply decodeHeader_sentinel in Hk as [Hlen Hk]. split; [assumption |].
    cbv zeta in Hk. case_bool_decide as Hm; [| assumption].
    cbn [negb] in Hk.
    repeat match type of Hk with
           | if ?c then _ else _ => destruct c; [discriminate Hk |]
           end.
    destruct Hk as [[=] _].
  - intros [Hlen Hm].
    pose proof (decodeHeader_long (rc_limits (readConfigOf opts)) input [] Hlen) as Hh.
    cbv zeta in Hh. rewrite bool_decide_eq_false_2 in Hh by assumption.
    cbn [negb] in Hh. rewrite (Decode_header_error _ _ _ _ Hh). reflexivity.
Qed.

(** X20.  [Decode] (decode.go) reports [ErrUnsupportedVersion] exactly
    for an input of at least 32 bytes that begins with the magic, declares
    a fixed header of 32 bytes and has a version that is not 1.  A header
    of another declared size is never an unsupported version: the size is
    checked first. *)
Theorem Decode_unsupported_version_iff (input : bytes) (opts : list ReadOption) :
  kind_of (fst (Decode input opts)) = Some ErrUnsupportedVersion
  <-> 32 <= len input
      /\ take 8 input = Magic
      /\ h_FixedHdrSize (headerIn input) = 32
      /\ h_Version (headerIn input) <> 1.
Proof.
  split.
  - intros Hk. apply Decode_header_sentinel in Hk.
    2: { unfold sectionKind. intros [? | [? | [? | ?]]]; discriminate. }
    apply decodeHeader_sentinel in Hk as [Hlen Hk]. split; [assumption |].
    cbv zeta in Hk. case_bool_decide as Hm; [| discriminate Hk].
    cbn [negb] in Hk. split; [assumption |].
    destruct (Z.eqb_spec (h_FixedHdrSize (headerIn input)) fixedHeaderSizeV1)
      as [Hsize | Hsize]; cbn [negb] in Hk; [| discriminate Hk].
    split; [assumption |].
    destruct (Z.eqb_spec (h_Version (headerIn input)) VersionV1) as [Hv | Hv];
      cbn [negb] in Hk; [| assumption].
    repeat match type of Hk with
           | if ?c then _ else _ => destruct c; [discriminate Hk |]
           end.
    destruct Hk as [[=] _].
  - intros (Hlen & Hm & Hsize & Hv).
    pose proof (decodeHeader_long (rc_limits (readConfigOf opts)) input [] Hlen) as Hh.
    cbv zeta in Hh. rewrite bool_decide_eq_true_2 in Hh by assumption.
    rewrite Hsize in Hh. cbn [negb] in Hh.
    change (32 =? fixedHeaderSizeV1) with true in Hh. cbn [negb] in Hh.
    destruct (Z.eqb_spec (h_Version (headerIn input)) VersionV1) as [? | _];
      [contradiction |].
    cbn [negb] in Hh. rewrite (Decode_header_error _ _ _ _ Hh). reflexivity.
Qed.

(** X21.  The other checks of the fixed header in [Decode] (decode.go),
    for an input of at least 32 bytes that begins with the magic: a
    declared header size other than 32 is [ErrInvalidHeader], whatever
    the version; with size 32 and version 1, a reserved field that is not
    zero is [ErrInvalidHeader]; and with the reserved fields zero, a
    metadata length over [MaxMetadataLen] is [ErrLimitExceeded].  In all
    three cases nothing has been decompressed or decoded. *)
Theorem Decode_fixed_header_checks (input : bytes) (opts : list ReadOption) :
  32 <= len input ->
  take 8 input = Magic ->
  let h := headerIn input in
  (h_FixedHdrSize h <> 32 ->
   Decode input opts = (Err (Wrapped ErrInvalidHeader "fixed header size %d"), []))
  /\ (h_FixedHdrSize h = 32 -> h_Version h = 1 ->
      h_Reserved0 h <> 0 \/ h_Reserved1 h <> 0 ->
      Decode input opts = (Err (Wrapped ErrInvalidHeader "reserved must be zero"), []))
  /\ (h_FixedHdrSize h = 32 -> h_Version h = 1 ->
      h_Reserved0 h = 0 -> h_Reserved1 h = 0 ->
      h_MetadataLength h > MaxMetadataLen (rc_limits (readConfigOf opts)) ->
      Decode input opts = (Err (Wrapped ErrLimitExceeded "metadata length %d"), [])).
Proof.
  intros Hlen Hm h.
  pose proof (decodeHeader_long (rc_limits (readConfigOf opts)) input [] Hlen) as Hh.
  cbv zeta in Hh. rewrite bool_decide_eq_true_2 in Hh by assumption.
  cbn [negb] in Hh. fold h in Hh.
  split; [| split].
  - intros Hsize.
    destruct (Z.eqb_spec (h_FixedHdrSize h) fixedHeaderSizeV1) as [? | _];
      [contradiction |].
    cbn [negb] in Hh. rewrite (Decode_header_error _ _ _ _ Hh). reflexivity.
  - intros Hsize Hv Hres. rewrite Hsize, Hv in Hh.
    change (negb (32 =? fixedHeaderSizeV1)) with false in Hh.
    change (negb (1 =? VersionV1)) with false in Hh. cbv iota in Hh.
    assert (negb (h_Reserved0 h =? 0) || negb (h_Reserved1 h =? 0) = true) as Hr.
    { destruct (Z.eqb_spec (h_Reserved0 h) 0), (Z.eqb_spec (h_Reserved1 h) 0);
        cbn; try reflexivity. lia. }
    rewrite Hr in Hh. rewrite (Decode_header_error _ _ _ _ Hh). reflexivity.
  - intros Hsize Hv Hr0 Hr1 Hmeta. rewrite Hsize, Hv, Hr0, Hr1 in Hh.
    change (negb (32 =? fixedHeaderSizeV1)) with false in Hh.
    change (negb (1 =? VersionV1)) with false in Hh.
    change (negb (0 =? 0) || negb (0 =? 0)) with false in Hh. cbv iota in Hh.
    destruct (Z.gtb_spec (h_MetadataLength h)
                (MaxMetadataLen (rc_limits (readConfigOf opts)))) as [_ | ?]; [| lia].
    rewrite (Decode_header_error _ _ _ _ Hh). reflexivity.
Qed.

(** X22.  A truncated header (decode.go, wire.go): on an input of fewer
    than 32 bytes [Decode] fails with [io.EOF] when the input is empty and
    with [io.ErrUnexpectedEOF] otherwise, having decoded nothing. *)
Theorem Decode_truncated_header (input : bytes) (opts : list ReadOption) :
  len input < 32 ->
  Decode input opts
  = (Err (if len input =? 0 then IoEOF else IoErrUnexpectedEOF), []).
Proof.
  intros Hshort.
  destruct (readFixedHeader_short input [] Hshort) as (r' & Hr & Htr).
  assert (decodeHeader (rc_limits (readConfigOf opts))
            {| rd_rest := input; rd_trace := [] |}
          = (Err (if len input =? 0 then IoEOF else IoErrUnexpectedEOF), r')) as Hh.
  { unfold decodeHeader. apply mbind_err. exact Hr. }
  rewrite (Decode_header_error _ _ _ _ Hh), Htr. reflexivity.
Qed.

End DecodeHeaderChecks.

(** ** decode.go: the sections and the document *)

Section DecodeSections.
Context `{L : Libs}.

Lemma decodeHeader_no_metadata (limits : Limits) (rest : bytes) (tr : list Event) :
  0 <= MaxMetadataLen limits ->
  decodeHeader limits
    {| rd_rest := fixedHeaderBytes (headerOf 0 0) ++ rest; rd_trace := tr |}
  = (Ok None, {| rd_rest := rest; rd_trace := tr |}).
Proof.
  intros Hmax. unfold decodeHeader.
  rewrite (mbind_ok _ _ _ _ _ (readFixedHeader_bytes _ _ _)).
  rewrite parseFixedHeader_bytes by reflexivity.
  cbn [headerOf h_Magic h_Version h_HeaderFlags h_FixedHdrSize h_MetadataLength
       h_Reserved0 h_Reserved1].
  rewrite bool_decide_true by reflexivity.
  change (0 mod 2 ^ 32) with 0.
  change (negb true) with false. cbv iota.
  change (negb (fixedHeaderSizeV1 mod 2 ^ 32 =? fixedHeaderSizeV1)) with false.
  change (negb (VersionV1 mod 2 ^ 16 =? VersionV1)) with false.
  change (negb (0 =? 0) || negb (0 mod 2 ^ 64 =? 0)) with false.
  cbv iota.
  destruct (Z.gtb_spec 0 (MaxMetadataLen limits)) as [Hneg | _]; [lia |].
  reflexivity.
Qed.

Lemma readSectionHeader_fits (sh : sectionHeaderV1) (rest : bytes) (tr : list Event) :
  sectionHeaderFits sh ->
  readSectionHeader {| rd_rest := sectionHeaderBytes sh ++ rest; rd_trace := tr |}
  = (Ok sh, {| rd_rest := rest; rd_trace := tr |}).
Proof.
  intros Hfits. rewrite readSectionHeader_bytes, parseSectionHeader_fits by assumption.
  reflexivity.
Qed.

(** X23.  The first section must be the Markdown section (decode.go,
    wire.go): when the section header that follows the fixed header is
    one that [validateSectionHeader] refuses for the Markdown section, for
    instance the header of a Media section, [Decode] returns that error
    and has decompressed and decoded nothing. *)
Theorem Decode_first_section_refused (sh : sectionHeaderV1) (rest : bytes)
    (opts : list ReadOption) (e : error) :
  sectionHeaderFits sh ->
  0 <= MaxMetadataLen (rc_limits (readConfigOf opts)) ->
  validateSectionHeader sh SectionMarkdown = Err e ->
  Decode (fixedHeaderBytes (headerOf 0 0) ++ sectionHeaderBytes sh ++ rest) opts
  = (Err e, []).
Proof.
  intros Hfits Hmax Hv. rewrite Decode_eq.
  unfold decode. cbv zeta.
  change (withDefaults (rc_limits (applyOptions defaultReadConfig opts)))
    with (rc_limits (readConfigOf opts)).
  rewrite (mbind_ok _ _ _ _ _
             (decodeHeader_no_metadata (rc_limits (readConfigOf opts)) _ [] Hmax)).
  assert (decodeMarkdownSection (rc_limits (readConfigOf opts))
            {| rd_rest := sectionHeaderBytes sh ++ rest; rd_trace := [] |}
          = (Err e, {| rd_rest := rest; rd_trace := [] |})) as Hmd.
  { unfold decodeMarkdownSection.
    rewrite (mbind_ok _ _ _ _ _ (readSectionHeader_fits sh rest [] Hfits)).
    apply mbind_err. unfold mlift. rewrite Hv. reflexivity. }
  rewrite (mbind_err _ _ _ _ _ Hmd). reflexivity.
Qed.

(** X24.  The stored-length limits of [Decode] (decode.go): a section
    header that is valid for its section and declares a payload longer
    than [MaxMarkdownSectionLen], or [MaxMediaSectionLen], is refused with
    [ErrLimitExceeded] when only its 16 bytes have been read: no byte of
    the payload is consumed and nothing is decompressed. *)
Theorem section_over_stored_limit (limits : Limits) (sh : sectionHeaderV1)
    (rest : bytes) (tr : list Event) :
  sectionHeaderFits sh ->
  let r := {| rd_rest := sectionHeaderBytes sh ++ rest; rd_trace := tr |} in
  let r' := {| rd_rest := rest; rd_trace := tr |} in
  (validateSectionHeader sh SectionMarkdown = Ok tt ->
   sh_PayloadLen sh > MaxMarkdownSectionLen limits ->
   decodeMarkdownSection limits r
   = (Err (Wrapped ErrLimitExceeded "markdown section too large"), r'))
  /\ (validateSectionHeader sh SectionMedia = Ok tt ->
      sh_PayloadLen sh > MaxMediaSectionLen limits ->
      decodeMediaSection limits r
      = (Err (Wrapped ErrLimitExceeded "media section too large"), r')).
Proof.
  intros Hfits r r'. split; intros Hv Hover.
  - unfold decodeMarkdownSection. subst r.
    rewrite (mbind_ok _ _ _ _ _ (readSectionHeader_fits sh rest tr Hfits)).
    unfold mbind, mlift. rewrite Hv.
    destruct (Z.gtb_spec (sh_PayloadLen sh) (MaxMarkdownSectionLen limits));
      [reflexivity | lia].
  - unfold decodeMediaSection. subst r.
    rewrite (mbind_ok _ _ _ _ _ (readSectionHeader_fits sh rest tr Hfits)).
    unfold mbind, mlift. rewrite Hv.
    destruct (Z.gtb_spec (sh_PayloadLen sh) (MaxMediaSectionLen limits));
      [reflexivity | lia].
Qed.

Lemma decode_valid (opts : list ReadOption) (r r' : reader) (doc : Document) :
  decode opts r = (Ok doc, r') ->
  validateDocument (Some doc) (rc_limits (readConfigOf opts))
    (rc_verifyHashes (readConfigOf opts)) = Ok tt.
Proof.
  unfold decode. cbv zeta.
  change (withDefaults (rc_limits (applyOptions defaultReadConfig opts)))
    with (rc_limits (readConfigOf opts)).
  change (rc_verifyHashes (applyOptions defaultReadConfig opts))
    with (rc_verifyHashes (readConfigOf opts)).
  unfold mbind at 1.
  destruct (decodeHeader _ r) as [[metadata | e] r1]; [| discriminate].
  unfold mbind at 1.
  destruct (decodeMarkdownSection _ r1) as [[markdown | e] r2]; [| discriminate].
  unfold mbind at 1.
  destruct (decodeMediaSection _ r2) as [[media | e] r3]; [| discriminate].
  unfold mbind, mlift, mret.
  destruct (validateDocument _ _ _) as [[] | e] eqn:Hv; [| discriminate].
  intros [= <- _]. exact Hv.
Qed.

Lemma Decode_valid (input : bytes) (opts : list ReadOption) (doc : Document) :
  fst (Decode input opts) = Ok doc ->
  validateDocument (Some doc) (rc_limits (readConfigOf opts))
    (rc_verifyHashes (readConfigOf opts)) = Ok tt.
Proof.
  rewrite Decode_eq. cbn [fst].
  destruct (decode opts _) as [res r'] eqn:Hd. cbn [fst]. intros ->.
  eapply decode_valid. exact Hd.
Qed.

(** X25.  [Decode] returns validated documents only (decode.go,
    validate.go): a document that [Decode] returns is one that
    [validateDocument] accepts under the limits and the hash option that
    [Decode] was called with. *)
Theorem Decode_returns_valid_document (input : bytes) (opts : list ReadOption)
    (doc : Document) :
  fst (Decode input opts) = Ok doc ->
  validateDocument (Some doc) (rc_limits (readConfigOf opts))
    (rc_verifyHashes (readConfigOf opts)) = Ok tt.
Proof. apply Decode_valid. Qed.

Lemma writeLimits_last (opts : list WriteOption) (l : Limits) :
  applyOptions defaultWriteConfig (opts ++ [WithWriteLimits l])
  = WithWriteLimits l (applyOptions defaultWriteConfig opts).
Proof. apply (applyOptions_snoc defaultWriteConfig opts (WithWriteLimits l)). Qed.

(** X26.  Limits are read through [withDefaults] (limits.go, options.go,
    encode.go, decode.go): [Decode] and [Encode] called with limits [l]
    behave as they do with any limits that [withDefaults] maps to the
    same; so a zero field stands for its default, and [Limits{}] for
    [DefaultLimits()]. *)
Theorem limits_count_through_withDefaults {W} `{Writer W} (l l' : Limits)
    (input : bytes) (ropts : list ReadOption)
    (w : W) (doc : option Document) (wopts : list WriteOption) :
  withDefaults l = withDefaults l' ->
  Decode input (ropts ++ [WithReadLimits l])
  = Decode input (ropts ++ [WithReadLimits l'])
  /\ Encode w doc (wopts ++ [WithWriteLimits l])
     = Encode w doc (wopts ++ [WithWriteLimits l']).
Proof.
  intros Hl. split.
  - unfold Decode, decode. rewrite !readLimits_last.
    cbn [rc_limits rc_verifyHashes]. rewrite Hl. reflexivity.
  - unfold Encode. rewrite !writeLimits_last.
    cbn [WithWriteLimits wc_limits wc_verifyHashes wc_autoPopulate
         wc_mdCompression wc_mediaCompression].
    rewrite Hl. reflexivity.
Qed.

End DecodeSections.

(** ** decode.go: the input is read from the front *)

Section FrontReader.
Context `{L : Libs}.

Lemma frontReader_mbind {A B} (m : M A) (k : A -> M B) :
  frontReader m -> (forall x, frontReader (k x)) -> frontReader (mbind m k).
Proof.
  intros Hm Hk a b tr. unfold mbind. specialize (Hm a b tr).
  destruct (m {| rd_rest := a; rd_trace := tr |}) as [[x | e] [rest1 tr1]].
  - rewrite Hm. cbn [rd_rest rd_trace]. apply Hk.
  - destruct Hm as [Hend | Hsame]; [left; exact Hend | right].
    destruct (m {| rd_rest := a ++ b; rd_trace := tr |}) as [[x' | e'] r2];
      cbn [fst] in *; [discriminate | injection Hsame as ->; reflexivity].
Qed.

Lemma frontReader_mret {A} (x : A) : frontReader (mret x).
Proof. intros a b tr. reflexivity. Qed.

Lemma frontReader_mfail {A} (e : error) : frontReader (@mfail A e).
Proof. intros a b tr. right. reflexivity. Qed.

Lemma frontReader_mlift {A} (x : result A) : frontReader (mlift x).
Proof. intros a b tr. destruct x; [reflexivity | right; reflexivity]. Qed.

Lemma frontReader_io_ReadFull (n : Z) : frontReader (io_ReadFull n).
Proof.
  intros a b tr. unfold io_ReadFull. cbn [rd_rest rd_trace].
  pose proof (len_nonneg a) as Ha. pose proof (len_nonneg b) as Hb.
  destruct (Z.leb_spec n 0) as [Hn | Hn]; [reflexivity |].
  destruct (Z.leb_spec n (len a)) as [Hle | Hgt].
  - rewrite len_app. destruct (Z.leb_spec n (len a + len b)); [| lia].
    cbn [rd_rest rd_trace].
    assert (Z.to_nat n <= length a)%nat by (unfold len in Hle; lia).
    rewrite take_app_le, drop_app_le by assumption. reflexivity.
  - destruct (len a =? 0); left; [left | right]; reflexivity.
Qed.

Lemma frontReader_readFixedHeader : frontReader readFixedHeader.
Proof.
  apply frontReader_mbind; [apply frontReader_io_ReadFull |].
  intros buf. apply frontReader_mret.
Qed.

Lemma frontReader_readSectionHeader : frontReader readSectionHeader.
Proof.
  apply frontReader_mbind; [apply frontReader_io_ReadFull |].
  intros buf. apply frontReader_mret.
Qed.

Lemma frontReader_callDecompressPayload (section comp sectionFlags : Z)
    (payload : bytes) (maxUncompressed : Z) :
  frontReader (callDecompressPayload section comp sectionFlags payload maxUncompressed).
Proof.
  intros a b tr. unfold callDecompressPayload.
  destruct (decompressPayload comp sectionFlags payload maxUncompressed)
    as [[out | e] evs]; [reflexivity | right; reflexivity].
Qed.

Lemma frontReader_gobDecode {A} (section : Z) (decoder : bytes -> outcome A)
    (data : bytes) :
  frontReader (gobDecode section decoder data).
Proof.
  intros a b tr. unfold gobDecode.
  destruct (ext (decoder data)); [reflexivity | right; reflexivity].
Qed.

Lemma frontReader_decodeHeader (limits : Limits) : frontReader (decodeHeader limits).
Proof.
  unfold decodeHeader.
  apply frontReader_mbind; [apply frontReader_readFixedHeader | intros h].
  repeat match goal with
         | |- frontReader (if ?c then _ else _) =>
           destruct c; [apply frontReader_mfail |]
         end.
  destruct (_ >? 0); [| apply frontReader_mret].
  apply frontReader_mbind; [apply frontReader_io_ReadFull | intros mb].
  destruct (_ =? 0); [apply frontReader_mfail |].
  apply frontReader_mbind; [apply frontReader_mlift |].
  intros [m |]; [apply frontReader_mret | apply frontReader_mfail].
Qed.

Lemma frontReader_decodeMarkdownSection (limits : Limits) :
  frontReader (decodeMarkdownSection limits).
Proof.
  unfold decodeMarkdownSection.
  apply frontReader_mbind; [apply frontReader_readSectionHeader | intros sh].
  apply frontReader_mbind; [apply frontReader_mlift | intros _].
  destruct (_ >? _); [apply frontReader_mfail |].
  apply frontReader_mbind; [apply frontReader_io_ReadFull | intros payload].
  apply frontReader_mbind; [apply frontReader_callDecompressPayload | intros g].
  apply frontReader_gobDecode.
Qed.

Lemma frontReader_decodeMediaSection (limits : Limits) :
  frontReader (decodeMediaSection limits).
Proof.
  unfold decodeMediaSection.
  apply frontReader_mbind; [apply frontReader_readSectionHeader | intros sh].
  apply frontReader_mbind; [apply frontReader_mlift | intros _].
  destruct (_ >? _); [apply frontReader_mfail |].
  destruct (_ =? _); [apply frontReader_mret |].
  apply frontReader_mbind; [apply frontReader_io_ReadFull | intros payload].
  apply frontReader_mbind; [apply frontReader_callDecompressPayload | intros g].
  apply frontReader_gobDecode.
Qed.

Lemma frontReader_decode (opts : list ReadOption) : frontReader (decode opts).
Proof.
  unfold decode. cbv zeta.
  apply frontReader_mbind; [apply frontReader_decodeHeader | intros metadata].
  apply frontReader_mbind; [apply frontReader_decodeMarkdownSection | intros md].
  apply frontReader_mbind; [apply frontReader_decodeMediaSection | intros media].
  apply frontReader_mbind; [apply frontReader_mlift | intros _].
  apply frontReader_mret.
Qed.

(** X27.  [Decode] never looks behind the Media section (decode.go): when
    [Decode] returns a document for an input, it returns the same
    document, after the same decompression and decoding calls, for that
    input followed by any other bytes.  Trailing data is not an error. *)
Theorem Decode_ignores_trailing_bytes (input extra : bytes)
    (opts : list ReadOption) (doc : Document) :
  fst (Decode input opts) = Ok doc ->
  Decode (input ++ extra) opts = Decode input opts.
Proof.
  rewrite !Decode_eq. cbn [fst].
  pose proof (frontReader_decode opts input extra []) as Hf.
  destruct (decode opts {| rd_rest := input; rd_trace := [] |}) as [[d | e] r1];
    cbn [fst snd]; [| discriminate].
  intros _. rewrite Hf. reflexivity.
Qed.

(** X28.  A file cut short (decode.go, wire.go): when [Decode] returns a
    document for an input, then for every prefix of that input it either
    returns the same document or fails with [io.EOF] or
    [io.ErrUnexpectedEOF]; cutting a file never yields another document
    or another kind of error. *)
Theorem Decode_of_a_prefix (input cut : bytes) (opts : list ReadOption)
    (doc : Document) :
  fst (Decode (input ++ cut) opts) = Ok doc ->
  fst (Decode input opts) = Ok doc
  \/ fst (Decode input opts) = Err IoEOF
  \/ fst (Decode input opts) = Err IoErrUnexpectedEOF.
Proof.
  rewrite !Decode_eq. cbn [fst].
  pose proof (frontReader_decode opts input cut []) as Hf.
  destruct (decode opts {| rd_rest := input; rd_trace := [] |}) as [[d | e] r1];
    cbn [fst].
  - rewrite Hf. cbn [fst]. auto.
  - destruct Hf as [[-> | ->] | Hsame]; [auto | auto |].
    rewrite Hsame. discriminate.
Qed.

End FrontReader.

(** ** The C exports *)

Lemma wrap_int32_small (z : Z) : 0 <= z < 2 ^ 31 -> wrap_int32 z = z.
Proof.
  intros Hz. unfold wrap_int32. rewrite Z.mod_small by lia. lia.
Qed.

Lemma find_unique_ID (items : list MediaItem) (item : MediaItem) :
  NoDup (map mi_ID items) ->
  item ∈ items ->
  List.find (fun it => String.eqb (mi_ID it) (mi_ID item)) items = Some item.
Proof.
  induction items as [| it items IH]; intros Hnd Hin.
  - apply elem_of_nil in Hin. contradiction.
  - cbn [map] in Hnd. change (map mi_ID items) with (mi_ID <$> items) in Hnd.
    apply NoDup_cons in Hnd as [Hfresh Hnd].
    cbn [List.find]. apply elem_of_cons in Hin as [-> | Hin].
    + rewrite String.eqb_refl. reflexivity.
    + destruct (String.eqb_spec (mi_ID it) (mi_ID item)) as [Heq | _].
      * exfalso. apply Hfresh. rewrite Heq. apply list_elem_of_fmap. eauto.
      * apply IH; assumption.
Qed.

Lemma find_no_ID (items : list MediaItem) (id : string) :
  (forall item, item ∈ items -> mi_ID item <> id) ->
  List.find (fun it => String.eqb (mi_ID it) id) items = None.
Proof.
  induction items as [| it items IH]; intros Hno; [reflexivity |].
  cbn [List.find].
  destruct (String.eqb_spec (mi_ID it) id) as [Heq | _].
  - exfalso. apply (Hno it); [apply list_elem_of_here | exact Heq].
  - apply IH. intros item Hin. apply Hno. apply elem_of_cons. auto.
Qed.

Lemma C_GoString_twice (p : string) : C_GoString (C_GoString p) = C_GoString p.
Proof.
  induction p as [| c rest IH]; [reflexivity |].
  cbn [C_GoString]. destruct (Ascii.eqb c "000") eqn:Hc; [reflexivity |].
  cbn [C_GoString]. rewrite Hc, IH. reflexivity.
Qed.

Section CExportsProperties.
Context `{L : Libs}.

Lemma Decode_default_valid (data : bytes) (doc : Document) :
  fst (Decode data []) = Ok doc ->
  validateDocument (Some doc) defaultLimits true = Ok tt.
Proof. intros Hd. exact (Decode_valid data [] doc Hd). Qed.

(** X29.  [MdocxGetMarkdownCount] and [MdocxGetMediaCount] (C exports):
    each returns -1 exactly when [Decode] fails; for a file that decodes
    they return the numbers of Markdown files and of media items, the
    first between 1 and 10000 and the second between 0 and 10000, so that
    no count is cut by the conversion to a C [int] or taken for the
    error value. *)
Theorem Mdocx_counts (data : bytes) :
  match fst (Decode data []) with
  | Err _ => MdocxGetMarkdownCount data = -1 /\ MdocxGetMediaCount data = -1
  | Ok doc =>
    MdocxGetMarkdownCount data = len (mb_Files (doc_Markdown doc))
    /\ 1 <= MdocxGetMarkdownCount data <= 10000
    /\ MdocxGetMediaCount data = len (media_Items (doc_Media doc))
    /\ 0 <= MdocxGetMediaCount data <= 10000
  end.
Proof.
  unfold MdocxGetMarkdownCount, MdocxGetMediaCount.
  destruct (fst (Decode data [])) as [doc | e] eqn:Hd; [| split; reflexivity].
  apply Decode_default_valid, validateDocument_accepts in Hd
    as (_ & Hfiles & _ & _ & _ & _ & Hitems & _).
  change (MaxMarkdownFiles defaultLimits) with 10000 in Hfiles.
  change (MaxMediaItems defaultLimits) with 10000 in Hitems.
  pose proof (len_nonneg (media_Items (doc_Media doc))).
  rewrite !wrap_int32_small by lia. lia.
Qed.

(** X30.  [MdocxDecodeGetMediaData] (C exports) looks up the ID that
    [C.GoString] reads from its argument, the bytes before the first NUL.
    For a file that decodes: called with the ID of a media item of the
    document, an ID that holds no NUL byte, it returns the data of that
    very item, with its true length and no error, since no other item has
    the ID (an item without data gives a result with neither data nor
    error); called with a C string that is the ID of no item, it returns
    the error that the item was not found.  An item whose ID holds a NUL
    byte is the answer to no call. *)
Theorem MdocxDecodeGetMediaData_by_ID (data : bytes) (doc : Document) :
  fst (Decode data []) = Ok doc ->
  (forall item,
     item ∈ media_Items (doc_Media doc) ->
     C_GoString (mi_ID item) = mi_ID item ->
     MdocxDecodeGetMediaData data (mi_ID item)
     = {| res_data := if len (mi_Data item) >? 0 then Some (mi_Data item) else None;
          res_data_len := len (mi_Data item);
          res_error := None |})
  /\ (forall mediaID,
        (forall item, item ∈ media_Items (doc_Media doc) ->
                      mi_ID item <> C_GoString mediaID) ->
        MdocxDecodeGetMediaData data mediaID
        = {| res_data := None; res_data_len := 0;
             res_error := Some (NotFound (C_GoString mediaID)) |})
  /\ (forall item mediaID,
        item ∈ media_Items (doc_Media doc) ->
        C_GoString (mi_ID item) <> mi_ID item ->
        List.find (fun it => String.eqb (mi_ID it) (C_GoString mediaID))
          (media_Items (doc_Media doc)) <> Some item).
Proof.
  intros Hd. unfold MdocxDecodeGetMediaData. rewrite Hd. cbv zeta.
  apply Decode_default_valid, validateDocument_accepts in Hd
    as (_ & _ & _ & _ & _ & _ & _ & Hnd & Hitems).
  split; [| split].
  - intros item Hin Hid. rewrite Hid, (find_unique_ID _ item Hnd Hin).
    rewrite Forall_forall in Hitems.
    destruct (Hitems item Hin) as (_ & _ & Hsize & _).
    change (MaxSingleMediaSize defaultLimits) with (2 ^ 29) in Hsize.
    pose proof (len_nonneg (mi_Data item)).
    unfold makeResult.
    destruct (Z.gtb_spec (len (mi_Data item)) 0) as [Hpos | Hz].
    + rewrite wrap_int32_small by lia. reflexivity.
    + replace (len (mi_Data item)) with 0 by lia. reflexivity.
  - intros mediaID Hno. rewrite (find_no_ID _ _ Hno). reflexivity.
  - intros item mediaID Hin Hnul Hfind.
    apply List.find_some in Hfind as [_ Heq].
    apply String.eqb_eq in Heq. apply Hnul.
    rewrite Heq. apply C_GoString_twice.
Qed.

End CExportsProperties.

(** ** The further properties on the examples *)

Lemma fixed_header_write_read_witness :
  exists out,
    writeFixedHeader (W := bytes) wireHeader [] = (Ok tt, [] ++ out)
    /\ len out = 32
    /\ readFixedHeader {| rd_rest := out ++ [xff]; rd_trace := [] |}
       = (Ok wireHeader, {| rd_rest := [xff]; rd_trace := [] |}).
Proof.
  apply (fixed_header_write_read wireHeader [] [xff] []).
  vm_compute. repeat split; discriminate.
Defined.

Lemma section_header_write_read_witness :
  exists out,
    writeSectionHeader (W := bytes) wireSectionHeader [] = (Ok tt, [] ++ out)
    /\ len out = 16
    /\ readSectionHeader {| rd_rest := out ++ [xff]; rd_trace := [] |}
       = (Ok wireSectionHeader, {| rd_rest := [xff]; rd_trace := [] |}).
Proof.
  apply (section_header_write_read wireSectionHeader [] [xff] []).
  vm_compute. repeat split; discriminate.
Defined.

Lemma compressPayload_makes_valid_section_witness :
  compressPayload (L := testLibs) CompZSTD [x61; x62; x63]
  = Ok (0x12, PutUint64 3 ++ [x28; x61; x62; x63])
  /\ validateSectionHeader
       {| sh_SectionType := SectionMedia; sh_SectionFlags := 0x12;
          sh_PayloadLen := len (PutUint64 3 ++ [x28; x61; x62; x63]);
          sh_Reserved := 0 |} SectionMedia = Ok tt.
Proof.
  assert (H : compressPayload (L := testLibs) CompZSTD [x61; x62; x63]
              = Ok (0x12, PutUint64 3 ++ [x28; x61; x62; x63]))
    by (vm_compute; reflexivity).
  split; [exact H |].
  exact (proj1 (compressPayload_makes_valid_section (L := testLibs) CompZSTD
                  [x61; x62; x63] 0x12 (PutUint64 3 ++ [x28; x61; x62; x63])
                  SectionMedia H)).
Defined.

Lemma decompressPayload_inverts_compressPayload_witness :
  compressPayload (L := testLibs) CompLZ4 [x61; x62; x63]
  = Ok (0x13, PutUint64 3 ++ [x04; x61; x62; x63])
  /\ fst (decompressPayload (L := testLibs) CompLZ4 0x13
            (PutUint64 3 ++ [x04; x61; x62; x63]) 3)
     = Ok [x61; x62; x63].
Proof.
  assert (H : compressPayload (L := testLibs) CompLZ4 [x61; x62; x63]
              = Ok (0x13, PutUint64 3 ++ [x04; x61; x62; x63]))
    by (vm_compute; reflexivity).
  split; [exact H |].
  apply (decompressPayload_inverts_compressPayload (L := testLibs) CompLZ4
           [x61; x62; x63] 0x13 (PutUint64 3 ++ [x04; x61; x62; x63]) 3 H).
  - vm_compute. intros c [= <-]. reflexivity.
  - vm_compute. reflexivity.
  - right. vm_compute. discriminate.
Defined.

Lemma decompression_routines_bounded_witness :
  lz4Decompress (L := testLibs) [x04; x61; x62; x63] 3 = Ok [x61; x62; x63]
  /\ len [x61; x62; x63] <= 3.
Proof.
  assert (H : lz4Decompress (L := testLibs) [x04; x61; x62; x63] 3
              = Ok [x61; x62; x63]) by (vm_compute; reflexivity).
  split; [exact H |].
  apply (decompression_routines_bounded (L := testLibs) [x04; x61; x62; x63] 3
           [x61; x62; x63]).
  - vm_compute. split; [discriminate | reflexivity].
  - right. right. left. exact H.
Defined.

Lemma validateDocument_loosened_witness :
  validateDocument (L := testLibs) (Some sampleDoc) (withUncompressed defaultLimits 1 1)
    true = Ok tt
  /\ validateDocument (L := testLibs) (Some sampleDoc) defaultLimits false = Ok tt.
Proof.
  assert (H : validateDocument (L := testLibs) (Some sampleDoc)
                (withUncompressed defaultLimits 1 1) true = Ok tt)
    by (vm_compute; reflexivity).
  split; [exact H |].
  apply (validateDocument_loosened (L := testLibs) sampleDoc
           (withUncompressed defaultLimits 1 1) defaultLimits true false).
  - vm_compute. repeat split; discriminate.
  - discriminate.
  - exact H.
Defined.

Lemma validateDocument_checked_fields_only_witness :
  validateDocument (L := testLibs) (Some sampleDoc) defaultLimits true
  = validateDocument (L := testLibs) (Some danglingDoc) defaultLimits true
  /\ validateDocument (L := testLibs) (Some danglingDoc) defaultLimits true = Ok tt.
Proof.
  split; [| vm_compute; reflexivity].
  apply (validateDocument_checked_fields_only (L := testLibs) sampleDoc danglingDoc
           defaultLimits true); reflexivity.
Defined.

Lemma Encode_error_is_early_or_the_writers_witness :
  {| fw_n := 0 |} = {| fw_n := 10 |}
  \/ exists wi p wj,
       w_Write (W := failingWriter) wi p
       = (wj, Some (External "io: read/write on closed pipe")).
Proof.
  exact (Encode_error_is_early_or_the_writers (L := testLibs) {| fw_n := 10 |}
           {| fw_n := 0 |} (Some sampleDoc) _ uncompressedOptions _
           Encode_failingWriter).
Defined.

Lemma Encode_buffer_untouched_on_error_witness :
  fst (fst (Encode (L := testLibs) (W := bytes) [xff] (Some badHashDoc) []))
  = Err mismatchError
  /\ snd (fst (Encode (L := testLibs) (W := bytes) [xff] (Some badHashDoc) []))
     = [xff].
Proof.
  assert (H : fst (fst (Encode (L := testLibs) (W := bytes) [xff]
                          (Some badHashDoc) [])) = Err mismatchError)
    by (vm_compute; reflexivity).
  split; [exact H |].
  exact (Encode_buffer_untouched_on_error (L := testLibs) [xff] (Some badHashDoc) []
           mismatchError H).
Defined.

Lemma Encode_sample :
  Encode (L := testLibs) (W := bytes) [] (Some sampleDoc) uncompressedOptions
  = (Ok tt, uncompressedInput, Some (populateSHA256 (L := testLibs) sampleDoc)).
Proof. vm_compute. reflexivity. Defined.

Lemma Encode_file_layout_witness :
  Encode (L := testLibs) (W := bytes) [] (Some sampleDoc) uncompressedOptions
  = (Ok tt, uncompressedInput, Some (populateSHA256 (L := testLibs) sampleDoc))
  /\ take 8 uncompressedInput = Magic.
Proof.
  split; [exact Encode_sample |].
  destruct (Encode_file_layout (L := testLibs) [] uncompressedInput sampleDoc
              uncompressedOptions _ Encode_sample)
    as (metadataBytes & headerFlags & mdGob & mediaGob & mdFlags & mdPayload
        & mediaFlags & mediaPayload & _ & _ & _ & _ & _ & _ & _ & Hout).
  rewrite Hout. reflexivity.
Defined.

Lemma Encode_unknown_compression_witness :
  is_Ok (fst (fst (Encode (L := testLibs) (W := bytes) [] (Some sampleDoc)
                     [WithMarkdownCompression 99]))) = false
  /\ snd (fst (Encode (L := testLibs) (W := bytes) [] (Some sampleDoc)
                 [WithMarkdownCompression 99])) = [].
Proof.
  apply (Encode_unknown_compression (L := testLibs) (W := bytes) [] (Some sampleDoc)
           [WithMarkdownCompression 99]).
  left. reflexivity.
Defined.

Lemma Encode_populates_once_witness :
  snd (Encode (L := testLibs) {| fw_n := 10 |}
         (snd (Encode (L := testLibs) (W := bytes) [] (Some sampleDoc)
                 uncompressedOptions)) [])
  = snd (Encode (L := testLibs) (W := bytes) [] (Some sampleDoc) uncompressedOptions).
Proof.
  apply (Encode_populates_once (L := testLibs) (W := bytes) (W2 := failingWriter)
           [] {| fw_n := 10 |} (Some sampleDoc) uncompressedOptions []).
  reflexivity.
Defined.

Lemma Encode_leaves_true_digests_witness :
  exists d,
    Some (populateSHA256 (L := testLibs) sampleDoc) = Some d
    /\ Forall (fun it => mi_SHA256 it = sha256_Sum256 (mi_Data it))
         (media_Items (doc_Media d)).
Proof.
  apply (Encode_leaves_true_digests (L := testLibs) (W := bytes) [] uncompressedInput
           sampleDoc uncompressedOptions).
  - reflexivity.
  - reflexivity.
  - exact Encode_sample.
Defined.

Lemma Decode_fixed_header_checks_witness :
  Decode (L := testLibs) oddSizeInput []
  = (Err (Wrapped ErrInvalidHeader "fixed header size %d"), []).
Proof.
  apply (Decode_fixed_header_checks (L := testLibs) oddSizeInput []).
  - vm_compute. discriminate.
  - reflexivity.
  - vm_compute. discriminate.
Defined.

Lemma Decode_truncated_header_witness :
  Decode (L := testLibs) (list_byte_of_string "short") []
  = (Err IoErrUnexpectedEOF, []).
Proof.
  apply (Decode_truncated_header (L := testLibs) (list_byte_of_string "short") []).
  vm_compute. reflexivity.
Defined.

Lemma Decode_first_section_refused_witness :
  Decode (L := testLibs)
    (fixedHeaderBytes (headerOf 0 0) ++ sectionHeaderBytes mediaFirstHeader ++ []) []
  = (Err (Wrapped ErrInvalidSection "expected section type %d got %d"), []).
Proof.
  apply (Decode_first_section_refused (L := testLibs) mediaFirstHeader [] []).
  - vm_compute. repeat split; discriminate.
  - vm_compute. discriminate.
  - reflexivity.
Defined.

Lemma section_over_stored_limit_witness :
  decodeMarkdownSection (L := testLibs) defaultLimits
    {| rd_rest := sectionHeaderBytes hugeSectionHeader ++ [xff]; rd_trace := [] |}
  = (Err (Wrapped ErrLimitExceeded "markdown section too large"),
     {| rd_rest := [xff]; rd_trace := [] |}).
Proof.
  apply (proj1 (section_over_stored_limit (L := testLibs) defaultLimits
                  hugeSectionHeader [xff] [] ltac:(vm_compute; repeat split; discriminate))).
  - reflexivity.
  - vm_compute. reflexivity.
Defined.

Lemma Decode_sample :
  fst (Decode (L := testLibs) uncompressedInput [])
  = Ok (populateSHA256 (L := testLibs) sampleDoc).
Proof. vm_compute. reflexivity. Defined.

Lemma Decode_returns_valid_document_witness :
  fst (Decode (L := testLibs) uncompressedInput [])
  = Ok (populateSHA256 (L := testLibs) sampleDoc)
  /\ validateDocument (L := testLibs) (Some (populateSHA256 (L := testLibs) sampleDoc))
       defaultLimits true = Ok tt.
Proof.
  split; [exact Decode_sample |].
  exact (Decode_returns_valid_document (L := testLibs) uncompressedInput [] _
           Decode_sample).
Defined.

Lemma limits_count_through_withDefaults_witness :
  Decode (L := testLibs) uncompressedInput ([] ++ [WithReadLimits zeroLimits])
  = Decode (L := testLibs) uncompressedInput ([] ++ [WithReadLimits defaultLimits])
  /\ Encode (L := testLibs) (W := bytes) [] (Some sampleDoc)
       ([] ++ [WithWriteLimits zeroLimits])
     = Encode (L := testLibs) (W := bytes) [] (Some sampleDoc)
         ([] ++ [WithWriteLimits defaultLimits]).
Proof.
  apply (limits_count_through_withDefaults (L := testLibs) (W := bytes)
           zeroLimits defaultLimits uncompressedInput [] [] (Some sampleDoc) []).
  reflexivity.
Defined.

Lemma Decode_ignores_trailing_bytes_witness :
  Decode (L := testLibs) (uncompressedInput ++ [xff; xff]) []
  = Decode (L := testLibs) uncompressedInput [].
Proof.
  exact (Decode_ignores_trailing_bytes (L := testLibs) uncompressedInput [xff; xff] []
           _ Decode_sample).
Defined.

Lemma Decode_of_a_prefix_witness :
  fst (Decode (L := testLibs) (take 40 uncompressedInput) [])
  = Ok (populateSHA256 (L := testLibs) sampleDoc)
  \/ fst (Decode (L := testLibs) (take 40 uncompressedInput) []) = Err IoEOF
  \/ fst (Decode (L := testLibs) (take 40 uncompressedInput) [])
     = Err IoErrUnexpectedEOF.
Proof.
  apply (Decode_of_a_prefix (L := testLibs) (take 40 uncompressedInput)
           (drop 40 uncompressedInput) []).
  rewrite take_drop. exact Decode_sample.
Defined.

Lemma MdocxDecodeGetMediaData_by_ID_witness :
  MdocxDecodeGetMediaData (L := testLibs) uncompressedInput "logo"
  = {| res_data := Some [x01; x02; x03]; res_data_len := 3; res_error := None |}
  /\ MdocxDecodeGetMediaData (L := testLibs) uncompressedInput "missing"
     = {| res_data := None; res_data_len := 0; res_error := Some (NotFound "missing") |}.
Proof.
  destruct (MdocxDecodeGetMediaData_by_ID (L := testLibs) uncompressedInput _
              Decode_sample) as (Hfound & Hmissing & _).
  split.
  - apply (Hfound (populateItem (L := testLibs)
                     {| mi_ID := "logo"; mi_Path := "assets/logo.png";
                        mi_MIMEType := "image/png"; mi_Data := [x01; x02; x03];
                        mi_SHA256 := zeroSHA256; mi_Attributes := ∅ |})).
    + apply list_elem_of_here.
    + reflexivity.
  - apply (Hmissing "missing"). intros item Hin.
    apply list_elem_of_singleton in Hin as ->. discriminate.
Defined.

(** ** compress.go: the declared length and what the codecs give *)

Lemma le_get_nonneg (bs : bytes) : 0 <= le_get bs.
Proof.
  induction bs as [| b bs IH]; cbn [le_get]; [lia |].
  pose proof (Z_of_byte_range b). lia.
Qed.

Section DeclaredLength.
Context `{L : Libs}.

(** A well-formed envelope within the limit goes to the routine of its
    compression, and the routine's bytes to the length check. *)
Lemma decompressPayload_routine (comp sectionFlags : Z) (payload : bytes)
    (maxUncompressed : Z) (routine : bytes -> Z -> result bytes) :
  Z.testbit sectionFlags 4 = true ->
  8 <= len payload ->
  le_get (take 8 payload) <= maxUncompressed ->
  decompressor comp = Some routine ->
  fst (decompressPayload comp sectionFlags payload maxUncompressed)
  = match routine (drop 8 payload) (le_get (take 8 payload)) with
    | Err e => Err e
    | Ok out =>
      if negb (len out =? le_get (take 8 payload)) then
        Err (Wrapped ErrInvalidPayload "decompressed length %d != expected %d")
      else Ok out
    end.
Proof.
  intros Hbit Hlen Hmax Hroutine.
  unfold decompressPayload, Uint64. rewrite take_take, Nat.min_id.
  rewrite hasLen_testbit, Hbit.
  destruct (Z.eqb_spec comp CompNone) as [-> | _]; [discriminate Hroutine |].
  cbn [negb].
  destruct (Z.ltb_spec (len payload) 8) as [? | _]; [lia |].
  destruct (Z.gtb_spec (le_get (take 8 payload)) maxUncompressed) as [? | _]; [lia |].
  rewrite Hroutine. reflexivity.
Qed.

Lemma length_refused (out : bytes) (declared : Z) :
  len out <> declared ->
  kind_of (if negb (len out =? declared) then
             Err (Wrapped ErrInvalidPayload "decompressed length %d != expected %d")
           else Ok out) = Some ErrInvalidPayload.
Proof.
  intros Hne. destruct (Z.eqb_spec (len out) declared); [contradiction | reflexivity].
Qed.

(** A stream read under the limit [declared + 1], as [lz4Decompress] and
    [brotliDecompress] read theirs. *)
Lemma limited_stream_refused (s : stream) (declared : Z) (text : string) :
  0 <= declared < 2 ^ 63 - 1 ->
  yieldsOtherThan s declared ->
  kind_of
    match (b <- readAllLimit s (wrap_int64 (wrap_int64 declared + 1)) ;;
           if len b >? declared then Err (Wrapped ErrInvalidPayload text)
           else Ok b)%result with
    | Err e => Err e
    | Ok out =>
      if negb (len out =? declared) then
        Err (Wrapped ErrInvalidPayload "decompressed length %d != expected %d")
      else Ok out
    end = Some ErrInvalidPayload.
Proof.
  intros Hd Hs.
  rewrite (wrap_int64_small declared), wrap_int64_small by lia.
  unfold readAllLimit.
  destruct (Z.leb_spec (declared + 1) 0); [lia |].
  destruct Hs as [Hmore | [Hfewer Hend]].
  - destruct (Z.leb_spec (declared + 1) (len (st_data s))); [| lia].
    cbn [rbind].
    assert (len (take (Z.to_nat (declared + 1)) (st_data s)) = declared + 1) as ->.
    { unfold len in *. rewrite length_take. lia. }
    destruct (Z.gtb_spec (declared + 1) declared); [reflexivity | lia].
  - destruct (Z.leb_spec (declared + 1) (len (st_data s))); [lia |].
    rewrite Hend. cbn [rbind].
    destruct (Z.gtb_spec (len (st_data s)) declared); [lia |].
    apply length_refused. lia.
Qed.

(** C3, which the code breaks for ZIP.  For a compression other than
    [CompNone]: what [decompressPayload] returns on success has the length
    that the first eight bytes of the payload declare.  For a well-formed
    envelope whose declared length is within the limit: when the bytes
    that Zstandard decodes, or the bytes that the LZ4 or the Brotli stream
    gives, are more or fewer than declared, the result is
    [ErrInvalidPayload]; so it is when the stream of the ZIP entry gives
    fewer.  When the stream of the ZIP entry gives more bytes than the
    entry's directory size, which is the declared length, the first
    [declared] of them are returned as a success, where the claim asks
    for [ErrInvalidPayload]: [zipDecompress] reads under the limit
    [expected], not [expected + 1], and looks at the directory size only. *)
Theorem decompressPayload_declared_length (comp sectionFlags : Z)
    (payload : bytes) (maxUncompressed : Z) :
  comp <> CompNone ->
  let declared := le_get (take 8 payload) in
  let input := drop 8 payload in
  let result := fst (decompressPayload comp sectionFlags payload maxUncompressed) in
  (forall out, result = Ok out -> len out = declared)
  /\ (Z.testbit sectionFlags 4 = true ->
      8 <= len payload ->
      declared <= maxUncompressed ->
      declared < 2 ^ 63 - 1 ->
      (comp = CompZSTD ->
       forall out, zstd_DecodeAll input = Done out -> len out <> declared ->
                   kind_of result = Some ErrInvalidPayload)
      /\ (comp = CompLZ4 ->
          yieldsOtherThan (lz4_NewReader input) declared ->
          kind_of result = Some ErrInvalidPayload)
      /\ (comp = CompBR ->
          yieldsOtherThan (brotli_NewReader input) declared ->
          kind_of result = Some ErrInvalidPayload)
      /\ (comp = CompZIP ->
          forall zf s,
            zip_NewReader input = Done [zf] ->
            payloadEntry zf declared ->
            zf_Open zf = Done s ->
            (len (st_data s) < declared -> st_err s = None ->
             kind_of result = Some ErrInvalidPayload)
            /\ (declared < len (st_data s) ->
                result = Ok (take (Z.to_nat declared) (st_data s))))).
Proof.
  intros Hcomp declared input result.
  split.
  { apply (decompressPayload_length_checked comp sectionFlags payload
             maxUncompressed Hcomp). }
  intros Hbit Hlen Hmax Hsmall.
  pose proof (le_get_nonneg (take 8 payload)) as Hnn. fold declared in Hnn.
  split; [| split; [| split]].
  - intros -> out Hout Hne. subst result.
    rewrite (decompressPayload_routine CompZSTD _ _ _ zstdDecompress) by auto.
    fold declared input. unfold zstdDecompress. rewrite Hout. cbn [ext rbind].
    destruct (Z.gtb_spec (len out) declared); [reflexivity |].
    apply length_refused, Hne.
  - intros -> Hs. subst result.
    rewrite (decompressPayload_routine CompLZ4 _ _ _ lz4Decompress) by auto.
    fold declared input. unfold lz4Decompress.
    apply limited_stream_refused; [lia | exact Hs].
  - intros -> Hs. subst result.
    rewrite (decompressPayload_routine CompBR _ _ _ brotliDecompress) by auto.
    fold declared input. unfold brotliDecompress.
    apply limited_stream_refused; [lia | exact Hs].
  - intros -> zf s Hzip (Hname & Hdir & Hsize) Hopen. subst result.
    rewrite (decompressPayload_routine CompZIP _ _ _ zipDecompress) by auto.
    fold declared input. unfold zipDecompress.
    rewrite Hzip. cbn [ext rbind].
    rewrite Hname, Hdir, Hsize, Z.eqb_refl, Hopen. cbn [ext rbind negb].
    change (("payload.gob" =? "payload.gob")%string) with true. cbn [negb].
    rewrite wrap_int64_small by lia. unfold readAllLimit.
    split.
    + intros Hfewer Hend.
      destruct (Z.leb_spec declared 0) as [Hz | Hpos];
        [pose proof (len_nonneg (st_data s)); lia |].
      destruct (Z.leb_spec declared (len (st_data s))); [lia |].
      rewrite Hend. apply length_refused. lia.
    + intros Hmore.
      destruct (Z.leb_spec declared 0) as [Hz | Hpos].
      * replace declared with 0 by lia. reflexivity.
      * destruct (Z.leb_spec declared (len (st_data s))); [| lia].
        assert (len (take (Z.to_nat declared) (st_data s)) = declared) as Hcut.
        { unfold len in *. rewrite length_take. lia. }
        rewrite Hcut, Z.eqb_refl. reflexivity.
Qed.

End DeclaredLength.

(** The framed payload that declares three bytes before an archive whose
    entry [payload.gob] has the directory size 3 and a stream of four
    bytes: [decompressPayload] returns the first three.  The same four
    bytes behind LZ4 are refused. *)
Lemma decompressPayload_declared_length_witness :
  fst (decompressPayload (L := withZipFiles testLibs [overlongEntry]) CompZIP 0x11
         (PutUint64 3 ++ ["P"; "K"]%byte) 100)
  = Ok ["a"; "b"; "c"]%byte
  /\ kind_of (fst (decompressPayload (L := testLibs) CompLZ4 0x13
                     (PutUint64 3 ++ [x04; "a"; "b"; "c"; "d"]%byte) 100))
     = Some ErrInvalidPayload.
Proof.
  split.
  - destruct (decompressPayload_declared_length
                (L := withZipFiles testLibs [overlongEntry]) CompZIP 0x11
                (PutUint64 3 ++ ["P"; "K"]%byte) 100 ltac:(discriminate))
      as (_ & H).
    destruct H as (_ & _ & _ & Hzip).
    + reflexivity.
    + vm_compute. discriminate.
    + vm_compute. discriminate.
    + vm_compute. reflexivity.
    + apply (Hzip eq_refl overlongEntry
               {| st_data := ["a"; "b"; "c"; "d"]%byte; st_err := None |}).
      * reflexivity.
      * repeat split.
      * reflexivity.
      * vm_compute. reflexivity.
  - destruct (decompressPayload_declared_length (L := testLibs) CompLZ4 0x13
                (PutUint64 3 ++ [x04; "a"; "b"; "c"; "d"]%byte) 100
                ltac:(discriminate))
      as (_ & H).
    destruct H as (_ & Hlz4 & _).
    + reflexivity.
    + vm_compute. discriminate.
    + vm_compute. discriminate.
    + vm_compute. reflexivity.
    + apply (Hlz4 eq_refl). left. vm_compute. reflexivity.
Defined.
